(** * n8n-nodes-algorand: conversion, classification and dispatch helpers

    A shallow embedding of the helper code of the Algorand node
    ([utils/unitConverter.ts], [constants/networks.ts], [constants/arcs.ts],
    [transport/algodClient.ts], [Algorand.node.ts] and the polling trigger)
    and the properties its specification states about them; and, further
    down, of the code around it ([transport/indexerClient.ts], the KMD
    configuration, [utils/abiEncoder.ts], [utils/tealUtils.ts], [formatAlgo]
    and the checks of ['sendAlgo']) with properties read off that code.

    Conventions of the embedding:
    - a JavaScript [number] is an IEEE 754 binary64 value, modelled by the
      Standard Library's [spec_float] with precision 53 and maximal exponent
      1024; arithmetic is [SFmul], [SFdiv], [SFadd] at that format;
    - a JavaScript string is a [string]; [undefined] is [None];
    - an object literal used as a table is a finite map over its own keys,
      together with the property names every object inherits;
    - a call that may throw returns an [outcome];
    - ledger rounds and item indices, which the code only counts and
      compares, are integers ([Z], [nat]). *)

From Stdlib Require Import ZArith Lia Bool List String Ascii QArith Qround.
From Stdlib Require Import Floats.SpecFloat.
From Stdlib Require DecimalString.
From stdpp Require Import gmap strings list.

(* ================================================================== *)
(** * Definitions                                                      *)
(* ================================================================== *)

(** ** The JavaScript values and built-ins the code uses *)

Module JS.

(** How a call ends: with a value, or with an exception that propagates. *)
Inductive outcome (A : Type) : Type :=
| Returns (value : A)
| Throws (message : string).

Arguments Returns {A} value.
Arguments Throws {A} message.

(** [try { body } catch (error) { handler(error.message) }]. *)
Definition try_catch {A : Type} (body : outcome A) (handler : string -> outcome A)
  : outcome A :=
  match body with
  | Returns value => Returns value
  | Throws message => handler message
  end.

(** A call of a function whose body neither throws nor calls anything that
    throws completes with the value of the body. *)
Definition call {A B : Type} (f : A -> B) (argument : A) : outcome B :=
  Returns (f argument).

(** *** Numbers *)

Definition number : Type := spec_float.

(** The number nearest to the integer [z]; it is [z] itself when
    [|z| <= 2^53]. *)
Definition num (z : Z) : number := binary_normalize 53 1024 z 0 false.

Definition NaN : number := S754_nan.
Definition Infinity : number := S754_infinity false.

Definition number_mul : number -> number -> number := SFmul 53 1024.
Definition number_div : number -> number -> number := SFdiv 53 1024.
Definition number_add : number -> number -> number := SFadd 53 1024.

(** [x >= y] on numbers. *)
Definition number_ge (x y : number) : bool := SFleb y x.

(** Truthiness of a number: [0], [-0] and [NaN] are falsy. *)
Definition ToBoolean (x : number) : bool :=
  match x with
  | S754_zero _ | S754_nan => false
  | _ => true
  end.

Definition is_finite (x : number) : bool :=
  match x with
  | S754_zero _ | S754_finite _ _ _ => true
  | _ => false
  end.

(** The rational a finite number stands for (0 for the others). *)
Definition number_value (x : number) : Q :=
  match x with
  | S754_finite s m e =>
      if (0 <=? e)%Z then inject_Z (cond_Zopp s (Zpos m) * 2 ^ e)
      else Qmake (cond_Zopp s (Zpos m)) (Z.to_pos (2 ^ (- e)))
  | _ => 0%Q
  end.

(** [Math.round]: the integer nearest to [x], a tie going towards
    [+Infinity]; [NaN], the infinities and the zeros are returned as they
    are, and a negative [x >= -0.5] gives [-0]. A number whose exponent is
    not negative is an integer already. *)
Definition Math_round (x : number) : number :=
  match x with
  | S754_finite s m e =>
      if (0 <=? e)%Z then x
      else binary_normalize 53 1024
             ((cond_Zopp s (Zpos m) + 2 ^ (- e - 1)) / 2 ^ (- e))%Z 0 s
  | _ => x
  end.

(** *** Strings *)

(** [s.startsWith(searchString)]. *)
Definition startsWith (s searchString : string) : bool :=
  String.prefix searchString s.

(** [s.includes(searchString)]. *)
Fixpoint includes (s searchString : string) : bool :=
  String.prefix searchString s ||
  match s with
  | EmptyString => false
  | String _ rest => includes rest searchString
  end.

(** [s.slice(start)] for a start that is not negative. *)
Fixpoint slice (s : string) (start : nat) : string :=
  match start, s with
  | O, _ => s
  | S n, EmptyString => EmptyString
  | S n, String _ rest => slice rest n
  end.

(** [s.endsWith(searchString)]: the last [searchString.length] characters
    of [s] are [searchString]. *)
Definition endsWith (s searchString : string) : bool :=
  (String.length searchString <=? String.length s)%nat &&
  String.eqb (slice s (String.length s - String.length searchString)) searchString.

(** Truthiness of an optional string: [undefined] and [""] are falsy. *)
Definition truthy_string (s : option string) : bool :=
  match s with
  | Some EmptyString | None => false
  | Some _ => true
  end.

(** *** Objects used as tables *)

(** The property names an object literal inherits from [Object.prototype];
    looking one of them up gives a function or an object, never
    [undefined]. *)
Definition Object_prototype_names : list string :=
  [ "constructor"; "__defineGetter__"; "__defineSetter__"; "hasOwnProperty";
    "__lookupGetter__"; "__lookupSetter__"; "isPrototypeOf";
    "propertyIsEnumerable"; "toString"; "valueOf"; "__proto__";
    "toLocaleString" ]%string.

(** The result of [table[key]]. *)
Inductive property (A : Type) : Type :=
| Own (value : A)
| Inherited
| Undefined.

Arguments Own {A} value.
Arguments Inherited {A}.
Arguments Undefined {A}.

Definition get_property {A : Type} (table : gmap string A) (key : string)
  : property A :=
  match table !! key with
  | Some value => Own value
  | None =>
      if bool_decide (key ∈ Object_prototype_names) then Inherited
      else Undefined
  end.

(** [a || b] on looked-up properties: [undefined] is the only falsy one. *)
Definition property_or {A : Type} (a b : property A) : property A :=
  match a with
  | Undefined => b
  | _ => a
  end.

(** The key an optional string is used as: [undefined] becomes
    ["undefined"]. *)
Definition ToPropertyKey (key : option string) : string :=
  default "undefined"%string key.

End JS.

(** ** [constants/networks.ts] *)

Module Networks.
Import JS.

Record NetworkConfig : Type := {
  algodUrl : string;
  indexerUrl : string;
  genesisId : string;
  genesisHash : string
}.

Definition ALGONODE_NETWORKS : gmap string NetworkConfig :=
  <[ "mainnet"%string :=
       {| algodUrl := "https://mainnet-api.algonode.cloud";
          indexerUrl := "https://mainnet-idx.algonode.cloud";
          genesisId := "mainnet-v1.0";
          genesisHash := "wGHE2Pwdvd7S12BL5FaOP20EGYesN73ktiC1qzkkit8=" |} ]>
  (<[ "testnet"%string :=
       {| algodUrl := "https://testnet-api.algonode.cloud";
          indexerUrl := "https://testnet-idx.algonode.cloud";
          genesisId := "testnet-v1.0";
          genesisHash := "SGO1GKSzyE7IEPItTxCByw9x8FmnrCDexi9/cOUJOiI=" |} ]>
  (<[ "betanet"%string :=
       {| algodUrl := "https://betanet-api.algonode.cloud";
          indexerUrl := "https://betanet-idx.algonode.cloud";
          genesisId := "betanet-v1.0";
          genesisHash := "mFgazF+2uRS1tMiL9dsj01hJGySEmPN28B/TjjvpVW0=" |} ]> ∅)).

Definition PURESTAKE_NETWORKS : gmap string NetworkConfig :=
  <[ "mainnet"%string :=
       {| algodUrl := "https://mainnet-algorand.api.purestake.io/ps2";
          indexerUrl := "https://mainnet-algorand.api.purestake.io/idx2";
          genesisId := "mainnet-v1.0";
          genesisHash := "wGHE2Pwdvd7S12BL5FaOP20EGYesN73ktiC1qzkkit8=" |} ]>
  (<[ "testnet"%string :=
       {| algodUrl := "https://testnet-algorand.api.purestake.io/ps2";
          indexerUrl := "https://testnet-algorand.api.purestake.io/idx2";
          genesisId := "testnet-v1.0";
          genesisHash := "SGO1GKSzyE7IEPItTxCByw9x8FmnrCDexi9/cOUJOiI=" |} ]>
  (<[ "betanet"%string :=
       {| algodUrl := "https://betanet-algorand.api.purestake.io/ps2";
          indexerUrl := "https://betanet-algorand.api.purestake.io/idx2";
          genesisId := "betanet-v1.0";
          genesisHash := "mFgazF+2uRS1tMiL9dsj01hJGySEmPN28B/TjjvpVW0=" |} ]> ∅)).

Definition SANDBOX_CONFIG : NetworkConfig :=
  {| algodUrl := "http://localhost:4001";
     indexerUrl := "http://localhost:8980";
     genesisId := "sandnet-v1";
     genesisHash := "" |}.

(** Transaction fees and limits, in microAlgos. *)
Definition MIN_TXN_FEE : number := num 1000.
Definition MIN_BALANCE : number := num 100000.
Definition MIN_BALANCE_PER_ASSET : number := num 100000.
Definition MIN_BALANCE_PER_APP : number := num 100000.
Definition MIN_BALANCE_PER_APP_UINT : number := num 25000.
Definition MIN_BALANCE_PER_APP_BYTESLICE : number := num 25000.
Definition MIN_BALANCE_PER_BOX : number := num 2500.
Definition MIN_BALANCE_PER_BOX_BYTE : number := num 400.

Definition MICROALGOS_PER_ALGO : number := num 1000000.

End Networks.

(** ** The address check of the SDK *)

Module Algosdk.
Import JS.

(** A byte is a natural number below 256. *)
Definition bytes : Type := list N.

(** The value of a character of the base32 alphabet [A-Z2-7]. *)
Definition base32_digit (c : ascii) : option N :=
  let n := N_of_ascii c in
  if (65 <=? n)%N && (n <=? 90)%N then Some (n - 65)%N
  else if (50 <=? n)%N && (n <=? 55)%N then Some (n - 24)%N
  else None.

(** The five bits of a digit, the most significant first. *)
Definition bits5 (d : N) : list bool :=
  [N.testbit d 4; N.testbit d 3; N.testbit d 2; N.testbit d 1; N.testbit d 0].

Fixpoint base32_bits (s : string) : option (list bool) :=
  match s with
  | EmptyString => Some []
  | String c rest =>
      match base32_digit c, base32_bits rest with
      | Some d, Some more => Some (bits5 d ++ more)
      | _, _ => None
      end
  end.

Definition byte_of_bits (b7 b6 b5 b4 b3 b2 b1 b0 : bool) : N :=
  (N.b2n b7 * 128 + N.b2n b6 * 64 + N.b2n b5 * 32 + N.b2n b4 * 16 +
   N.b2n b3 * 8 + N.b2n b2 * 4 + N.b2n b1 * 2 + N.b2n b0)%N.

(** Whole bytes of a bit string; bits left over at the end are dropped. *)
Fixpoint bytes_of_bits (bits : list bool) : bytes :=
  match bits with
  | b7 :: b6 :: b5 :: b4 :: b3 :: b2 :: b1 :: b0 :: rest =>
      byte_of_bits b7 b6 b5 b4 b3 b2 b1 b0 :: bytes_of_bits rest
  | _ => []
  end.

Definition base32_decode (s : string) : option bytes :=
  bytes_of_bits <$> base32_bits s.

Definition ALGORAND_ADDRESS_LENGTH : nat := 58.
Definition PUBLIC_KEY_LENGTH : nat := 32.
Definition CHECKSUM_LENGTH : nat := 4.

(** Modelled from the spec: [algosdk.decodeAddress], which the SDK ships and
    the repository only calls. The spec (section 4.2) gives its contract: the
    string has 58 characters, its base32 decoding ends with 4 checksum bytes,
    and these are the checksum recomputed over the public-key bytes before
    them; a wrong length, an undecodable string or a checksum mismatch is a
    failure. [checksum] is the checksum function, which the spec leaves
    open. *)
Definition decodeAddress (checksum : bytes -> bytes) (address : string)
  : outcome (bytes * bytes) :=
  if negb (String.length address =? ALGORAND_ADDRESS_LENGTH)%nat
  then Throws "address seems to be malformed"
  else
    match base32_decode address with
    | None => Throws "Invalid base32 characters"
    | Some decoded =>
        let pk := take PUBLIC_KEY_LENGTH decoded in
        let cs := drop PUBLIC_KEY_LENGTH decoded in
        if bool_decide (List.length cs = CHECKSUM_LENGTH /\ cs = checksum pk)
        then Returns (pk, cs)
        else Throws "wrong checksum for address"
    end.

(** Modelled from the spec: [algosdk.isValidAddress], "any decoding failure,
    wrong length, or checksum mismatch yields false - never throws". *)
Definition isValidAddress (checksum : bytes -> bytes) (address : string)
  : outcome bool :=
  try_catch
    (match decodeAddress checksum address with
     | Returns _ => Returns true
     | Throws message => Throws message
     end)
    (fun _ => Returns false).

End Algosdk.

(** ** [utils/unitConverter.ts] *)

Module UnitConverter.
Import JS Networks.

(** Convert ALGO to microAlgos. *)
Definition algoToMicroAlgo (algo : number) : number :=
  Math_round (number_mul algo MICROALGOS_PER_ALGO).

(** Convert microAlgos to ALGO. *)
Definition microAlgoToAlgo (microAlgo : number) : number :=
  number_div microAlgo MICROALGOS_PER_ALGO.

(** Validate an Algorand address: the SDK's check, called as it is. *)
Definition isValidAddress (algosdk_isValidAddress : string -> outcome bool)
    (address : string) : outcome bool :=
  algosdk_isValidAddress address.

Record MinBalanceParams : Type := {
  numAssets : option number;
  numApps : option number;
  numAppUints : option number;
  numAppByteSlices : option number;
  numBoxes : option number;
  totalBoxBytes : option number
}.

(** The object [{}]. *)
Definition no_params : MinBalanceParams :=
  {| numAssets := None; numApps := None; numAppUints := None;
     numAppByteSlices := None; numBoxes := None; totalBoxBytes := None |}.

(** One statement [if (params.f) { minBalance += params.f * PER; }]. *)
Definition add_reserve (minBalance : number) (field : option number)
    (perUnit : number) : number :=
  match field with
  | Some count =>
      if ToBoolean count then number_add minBalance (number_mul count perUnit)
      else minBalance
  | None => minBalance
  end.

(** Calculate the minimum balance requirement; [params] defaults to [{}]. *)
Definition calculateMinBalance (params : option MinBalanceParams) : number :=
  let params := default no_params params in
  let minBalance := MIN_BALANCE in
  let minBalance := add_reserve minBalance (numAssets params) MIN_BALANCE_PER_ASSET in
  let minBalance := add_reserve minBalance (numApps params) MIN_BALANCE_PER_APP in
  let minBalance := add_reserve minBalance (numAppUints params) MIN_BALANCE_PER_APP_UINT in
  let minBalance :=
    add_reserve minBalance (numAppByteSlices params) MIN_BALANCE_PER_APP_BYTESLICE in
  let minBalance := add_reserve minBalance (numBoxes params) MIN_BALANCE_PER_BOX in
  let minBalance := add_reserve minBalance (totalBoxBytes params) MIN_BALANCE_PER_BOX_BYTE in
  minBalance.

(** Verify signed data: [algosdk.verifyBytes] inside a [try], any exception
    turned into [false]. The SDK function is a parameter. *)
Definition verifySignature
    (algosdk_verifyBytes : list N -> list N -> string -> outcome bool)
    (data signature : list N) (address : string) : outcome bool :=
  try_catch (algosdk_verifyBytes data signature address)
            (fun _ => Returns false).

End UnitConverter.

(** ** [constants/arcs.ts] *)

Module Arcs.
Import JS.

Inductive ArcStandardName : Type := ARC3 | ARC19 | ARC69 | unknown.

(** Check if a URL is IPFS. *)
Definition isIpfsUrl (url : string) : bool :=
  startsWith url "ipfs://" || includes url "ipfs.io" || includes url "pinata.cloud".

Definition DEFAULT_GATEWAY : string := "https://ipfs.io/ipfs/".

(** Convert an IPFS URL to an HTTP gateway URL; [gateway] defaults to
    ['https://ipfs.io/ipfs/']. *)
Definition ipfsToHttp (url : string) (gateway : option string) : string :=
  let gateway := default DEFAULT_GATEWAY gateway in
  if startsWith url "ipfs://" then (gateway ++ slice url 7)%string
  else url.

(** Detect the ARC standard of an asset from its URL and name. *)
Definition detectArcStandard (assetUrl assetName : option string)
  : ArcStandardName :=
  let from_name :=
    match assetName with
    | Some name =>
        if truthy_string assetName && endsWith name "@arc3" then ARC3 else unknown
    | None => unknown
    end in
  match assetUrl with
  | Some url =>
      if truthy_string assetUrl then
        if endsWith url "#arc3" || includes url "arc3" then ARC3
        else if startsWith url "template-ipfs://" then ARC19
        else from_name
      else from_name
  | None => from_name
  end.

End Arcs.

(** ** [transport/algodClient.ts] *)

Module AlgodClient.
Import JS Networks.

(** [string | { 'X-API-Key': string }]. *)
Inductive Token : Type :=
| TokenString (value : string)
| TokenHeader (X_API_Key : option string).

Record AlgodClientConfig : Type := {
  url : option string;
  token : Token
}.

(** [config.algodUrl] of a looked-up table entry: an inherited property is a
    function or an object without that field. *)
Definition config_algodUrl (config : property NetworkConfig)
  : outcome (option string) :=
  match config with
  | Own c => Returns (Some (algodUrl c))
  | Inherited => Returns None
  | Undefined =>
      Throws "TypeError: Cannot read properties of undefined (reading 'algodUrl')"
  end.

Definition DEFAULT_SANDBOX_TOKEN : string :=
  "aaaaaaaaaaaaaaaaaaaaaaaaaaaaaaaaaaaaaaaaaaaaaaaaaaaaaaaaaaaaaaaa".

(** [s || fallback] on strings. *)
Definition string_or (s : option string) (fallback : string) : string :=
  if truthy_string s then default fallback s else fallback.

(** Get the Algod client configuration from the credentials, a record of
    optional string fields. *)
Definition getAlgodConfig (credentials : gmap string string)
  : outcome AlgodClientConfig :=
  let network := credentials !! "network"%string in
  let apiProvider := credentials !! "apiProvider"%string in
  if bool_decide (apiProvider = Some "algonode"%string) then
    let config :=
      property_or (get_property ALGONODE_NETWORKS (ToPropertyKey network))
                  (get_property ALGONODE_NETWORKS "mainnet") in
    match config_algodUrl config with
    | Returns u => Returns {| url := u; token := TokenString "" |}
    | Throws message => Throws message
    end
  else if bool_decide (apiProvider = Some "purestake"%string) then
    let config :=
      property_or (get_property PURESTAKE_NETWORKS (ToPropertyKey network))
                  (get_property PURESTAKE_NETWORKS "mainnet") in
    let apiKey := credentials !! "purestakeApiKey"%string in
    match config_algodUrl config with
    | Returns u => Returns {| url := u; token := TokenHeader apiKey |}
    | Throws message => Throws message
    end
  else if bool_decide (apiProvider = Some "custom"%string) then
    let url := credentials !! "algodUrl"%string in
    let token := string_or (credentials !! "algodToken"%string) "" in
    match url with
    | None =>
        Throws "TypeError: Cannot read properties of undefined (reading 'includes')"
    | Some u =>
        if includes u "localhost" || includes u "127.0.0.1" then
          Returns {| url := Some (string_or url (algodUrl SANDBOX_CONFIG));
                     token := TokenString (string_or (Some token) DEFAULT_SANDBOX_TOKEN) |}
        else Returns {| url := Some u; token := TokenString token |}
    end
  else
    match config_algodUrl (get_property ALGONODE_NETWORKS "mainnet") with
    | Returns u => Returns {| url := u; token := TokenString "" |}
    | Throws message => Throws message
    end.

End AlgodClient.

(** ** [Algorand.node.ts] and the [execute...Operation] handlers *)

Module AlgorandNode.
Import JS.

(** An output record: its JSON fields and the input item it is paired
    with. *)
Record INodeExecutionData : Type := {
  json : list (string * string);
  pairedItem : option nat
}.

(** [{ json: { error: message }, pairedItem: { item: index } }]. *)
Definition error_record (message : string) (index : nat) : INodeExecutionData :=
  {| json := [("error"%string, message)]; pairedItem := Some index |}.

(** What the host and the remote services give one execution: the number of
    input items, the continue-on-fail switch, the [resource] parameter of
    each item, and for a resource and an item the run of the [try] block of
    that resource's handler: the records it pushed to its [returnData], and
    the message of the error it threw, if it threw one. *)
Record Execution : Type := {
  items : nat;
  continueOnFail : bool;
  resource : nat -> string;
  operation_run : string -> nat -> list INodeExecutionData * option string
}.

(** [executeAccountOperation], [executeTransactionOperation],
    [executeAsaOperation], [executeNftOperation],
    [executeApplicationOperation], [executeBlockOperation] and
    [executeUtilityOperation] share one shape: the operation inside [try],
    and a [catch] that pushes an error record when continue-on-fail is on
    and rethrows otherwise. *)
Definition executeOperation (x : Execution) (res : string) (index : nat)
  : outcome (list INodeExecutionData) :=
  let '(returnData, thrown) := operation_run x res index in
  match thrown with
  | None => Returns returnData
  | Some message =>
      if continueOnFail x
      then Returns (returnData ++ [error_record message index])
      else Throws message
  end.

Definition RESOURCES : list string :=
  ["account"; "transaction"; "asa"; "nft"; "application"; "block"; "utility"]%string.

(** The [switch (resource)] of [execute]. *)
Definition dispatch (x : Execution) (index : nat)
  : outcome (list INodeExecutionData) :=
  let res := resource x index in
  if bool_decide (res ∈ RESOURCES) then executeOperation x res index
  else Throws ("Unknown resource: " ++ res)%string.

(** The [for] loop of [execute] over the item indices still to do. The
    first component lists the items whose processing was started. *)
Fixpoint execute_loop (x : Execution) (indices : list nat)
    (returnData : list INodeExecutionData)
  : list nat * outcome (list INodeExecutionData) :=
  match indices with
  | [] => ([], Returns returnData)
  | i :: rest =>
      match dispatch x i with
      | Returns result =>
          let '(started, r) := execute_loop x rest (returnData ++ result) in
          (i :: started, r)
      | Throws message =>
          if continueOnFail x then
            let '(started, r) :=
              execute_loop x rest (returnData ++ [error_record message i]) in
            (i :: started, r)
          else ([i], Throws message)
      end
  end.

(** [Algorand.execute]: the items started, and [[returnData]] or the error
    that ended the execution. *)
Definition execute (x : Execution)
  : list nat * outcome (list (list INodeExecutionData)) :=
  let '(started, r) := execute_loop x (seq 0 (items x)) [] in
  (started,
   match r with
   | Returns returnData => Returns [returnData]
   | Throws message => Throws message
   end).

(** The records an item's operation pushed before it ended. *)
Definition item_pushed (x : Execution) (index : nat) : list INodeExecutionData :=
  let res := resource x index in
  if bool_decide (res ∈ RESOURCES) then fst (operation_run x res index)
  else [].

(** The records one item contributes when continue-on-fail is on. *)
Definition item_records (x : Execution) (index : nat) : list INodeExecutionData :=
  let res := resource x index in
  if bool_decide (res ∈ RESOURCES) then
    match operation_run x res index with
    | (pushed, None) => pushed
    | (pushed, Some message) => pushed ++ [error_record message index]
    end
  else [error_record ("Unknown resource: " ++ res)%string index].

(** The error an item fails with, if it fails. *)
Definition item_failure (x : Execution) (index : nat) : option string :=
  let res := resource x index in
  if bool_decide (res ∈ RESOURCES) then snd (operation_run x res index)
  else Some ("Unknown resource: " ++ res)%string.

End AlgorandNode.

(** ** The polling trigger, [AlgorandTrigger.poll] *)

Module AlgorandTrigger.
Import JS UnitConverter.

(** The workflow static data of the node: both fields start out
    [undefined]. *)
Record StaticData : Type := {
  lastRound : option Z;
  lastBalance : option Z
}.

(** The cursor as a poll reads it, [webhookData.lastRound || 0]. *)
Definition cursor (data : StaticData) : Z := default 0%Z (lastRound data).

(** The fields of an indexer transaction the trigger reads. *)
Record Transaction : Type := {
  tx_id : string;
  tx_sender : string;
  tx_type : string;
  tx_confirmed_round : Z;
  payment_amount : option Z;
  payment_receiver : option string;
  axfer_amount : option Z;
  axfer_receiver : option string
}.

(** The filters of an indexer search. *)
Record Search : Type := {
  by_address : option string;
  by_addressRole : option string;
  by_txType : option string;
  by_assetID : option Z;
  by_applicationID : option Z;
  minRound : Z;
  maxRound : Z
}.

(** The answers of the node and of the indexer during one poll. *)
Record Remote : Type := {
  status_last_round : outcome Z;
  block : Z -> outcome unit;
  searchForTransactions : Search -> outcome (list Transaction);
  accountInformation_amount : string -> outcome Z
}.

(** The node parameters of the trigger. *)
Record Parameters : Type := {
  event : string;
  address : string;
  assetId : Z;
  appId : Z;
  minAmount : number
}.

(** An emitted item: the event, and the round or transaction it is about. *)
Record Emitted : Type := {
  emitted_event : string;
  emitted_round : option Z;
  emitted_txId : option string
}.

Definition of_tx (ev : string) (tx : Transaction) : Emitted :=
  {| emitted_event := ev;
     emitted_round := Some (tx_confirmed_round tx);
     emitted_txId := Some (tx_id tx) |}.

(** The rounds [lastRound + 1, ..., currentRound]. *)
Definition rounds_after (lastRound currentRound : Z) : list Z :=
  map (fun k => (lastRound + 1 + Z.of_nat k)%Z)
      (seq 0 (Z.to_nat (currentRound - lastRound))).

(** The [newBlock] loop: a block that cannot be fetched is skipped. *)
Definition new_blocks (remote : Remote) (lastRound currentRound : Z)
  : list Emitted :=
  omap (fun round =>
          match block remote round with
          | Returns _ =>
              Some {| emitted_event := "newBlock";
                      emitted_round := Some round;
                      emitted_txId := None |}
          | Throws _ => None
          end)
       (rounds_after lastRound currentRound).

(** The shape shared by the transaction events: read the current round,
    search the rounds after [lastRound] unless this is the first poll, keep
    the transactions [keep] selects, and store the current round. An
    exception leaves the static data as it was. *)
Definition poll_transactions (remote : Remote) (data : StaticData)
    (ev : string) (query : Z -> Z -> Search) (keep : Transaction -> bool)
  : StaticData * list Emitted :=
  let last := default 0%Z (lastRound data) in
  match status_last_round remote with
  | Throws _ => (data, [])
  | Returns currentRound =>
      let stored := {| lastRound := Some currentRound;
                       lastBalance := lastBalance data |} in
      if (0 <? last)%Z then
        match searchForTransactions remote (query (last + 1)%Z currentRound) with
        | Throws _ => (data, [])
        | Returns transactions =>
            (stored, map (of_tx ev) (filter (fun tx => keep tx = true) transactions))
        end
      else (stored, [])
  end.

(** [microAlgoToAlgo(tx['payment-transaction']?.amount || 0) >= minAmount]. *)
Definition payment_at_least (minimum : number) (tx : Transaction) : bool :=
  number_ge (microAlgoToAlgo (num (default 0%Z (payment_amount tx)))) minimum.

(** Opt-in: an asset transfer of amount 0 from an account to itself. *)
Definition is_opt_in (tx : Transaction) : bool :=
  match axfer_receiver tx, axfer_amount tx with
  | Some receiver, Some amount =>
      bool_decide (tx_sender tx = receiver) && (amount =? 0)%Z
  | _, _ => false
  end.

Definition search_all (lo hi : Z) : Search :=
  {| by_address := None; by_addressRole := None; by_txType := None;
     by_assetID := None; by_applicationID := None;
     minRound := lo; maxRound := hi |}.

(** One poll: the static data it leaves and the items it emits. *)
Definition poll (p : Parameters) (remote : Remote) (data : StaticData)
  : StaticData * list Emitted :=
  let last := default 0%Z (lastRound data) in
  let lastBal := default 0%Z (lastBalance data) in
  let ev := event p in
  if bool_decide (ev = "newBlock"%string) then
    match status_last_round remote with
    | Throws _ => (data, [])
    | Returns currentRound =>
        if (last <? currentRound)%Z then
          ({| lastRound := Some currentRound; lastBalance := lastBalance data |},
           new_blocks remote last currentRound)
        else (data, [])
    end
  else if bool_decide (ev = "transactionForAddress"%string) then
    poll_transactions remote data ev
      (fun lo hi => {| by_address := Some (address p); by_addressRole := None;
                       by_txType := None; by_assetID := None;
                       by_applicationID := None; minRound := lo; maxRound := hi |})
      (fun _ => true)
  else if bool_decide (ev = "paymentReceived"%string) then
    poll_transactions remote data ev
      (fun lo hi => {| by_address := Some (address p);
                       by_addressRole := Some "receiver"%string;
                       by_txType := Some "pay"%string; by_assetID := None;
                       by_applicationID := None; minRound := lo; maxRound := hi |})
      (payment_at_least (minAmount p))
  else if bool_decide (ev = "paymentSent"%string) then
    poll_transactions remote data ev
      (fun lo hi => {| by_address := Some (address p);
                       by_addressRole := Some "sender"%string;
                       by_txType := Some "pay"%string; by_assetID := None;
                       by_applicationID := None; minRound := lo; maxRound := hi |})
      (payment_at_least (minAmount p))
  else if bool_decide (ev = "assetTransfer"%string) then
    poll_transactions remote data ev
      (fun lo hi => {| by_address := None; by_addressRole := None;
                       by_txType := Some "axfer"%string;
                       by_assetID := Some (assetId p);
                       by_applicationID := None; minRound := lo; maxRound := hi |})
      (fun _ => true)
  else if bool_decide (ev = "assetOptIn"%string) then
    poll_transactions remote data ev
      (fun lo hi => {| by_address := None; by_addressRole := None;
                       by_txType := Some "axfer"%string;
                       by_assetID := Some (assetId p);
                       by_applicationID := None; minRound := lo; maxRound := hi |})
      is_opt_in
  else if bool_decide (ev = "applicationCall"%string) then
    poll_transactions remote data ev
      (fun lo hi => {| by_address := None; by_addressRole := None;
                       by_txType := None; by_assetID := None;
                       by_applicationID := Some (appId p);
                       minRound := lo; maxRound := hi |})
      (fun _ => true)
  else if bool_decide (ev = "balanceChange"%string) then
    match accountInformation_amount remote (address p) with
    | Throws _ => (data, [])
    | Returns currentBalance =>
        let change := (currentBalance - lastBal)%Z in
        let changeAlgo := microAlgoToAlgo (num (Z.abs change)) in
        ({| lastRound := lastRound data; lastBalance := Some currentBalance |},
         if (0 <? lastBal)%Z && negb (change =? 0)%Z
            && number_ge changeAlgo (minAmount p)
         then [ {| emitted_event := ev; emitted_round := None;
                   emitted_txId := None |} ]
         else [])
    end
  else (data, []).

(** The stored cursor after a sequence of polls, each with its own remote
    answers. *)
Fixpoint poll_many (p : Parameters) (remotes : list Remote) (data : StaticData)
  : StaticData :=
  match remotes with
  | [] => data
  | remote :: rest => poll_many p rest (fst (poll p remote data))
  end.

End AlgorandTrigger.

(** ** The statements of the specification, as definitions *)

Module Spec.
Import JS UnitConverter.

(** A count that may be omitted: an omitted one counts as zero. *)
Definition count_of (field : option Z) : Z := default 0%Z field.

(** The parameter object whose fields are the given integer counts. *)
Definition params_of_counts (assets apps uints byteSlices boxes boxBytes : option Z)
  : MinBalanceParams :=
  {| numAssets := num <$> assets;
     numApps := num <$> apps;
     numAppUints := num <$> uints;
     numAppByteSlices := num <$> byteSlices;
     numBoxes := num <$> boxes;
     totalBoxBytes := num <$> boxBytes |}.

(** Section 4.3: base reserve plus the per-unit reserves. *)
Definition min_balance_formula
    (assets apps uints byteSlices boxes boxBytes : option Z) : Z :=
  (100000 + count_of assets * 100000 + count_of apps * 100000
   + count_of uints * 25000 + count_of byteSlices * 25000
   + count_of boxes * 2500 + count_of boxBytes * 400)%Z.

(** The networks both provider tables have an entry for. *)
Definition NETWORK_NAMES : list string := ["mainnet"; "testnet"; "betanet"]%string.

(** [Number.MAX_SAFE_INTEGER], [2^53 - 1]. *)
Definition MAX_SAFE_INTEGER : Z := 9007199254740991.

(** The mantissa of a finite number has at most 53 bits. *)
Definition small_mantissa (x : number) : Prop :=
  match x with
  | S754_finite _ m _ => (Zpos m < 2 ^ 53)%Z
  | _ => True
  end.

End Spec.

(** ** Phrases of the specification about strings *)

Module Phrases.

Definition starts_with (s p : string) : Prop := exists rest, s = (p ++ rest)%string.
Definition ends_with (s x : string) : Prop := exists front, s = (front ++ x)%string.
Definition contains (s x : string) : Prop :=
  exists front rest, s = (front ++ x ++ rest)%string.

(** Section 4.4 (1): the URL ends with or contains the marker. *)
Definition url_has_marker (url : option string) : Prop :=
  exists u, url = Some u /\ (ends_with u "#arc3" \/ contains u "arc3").

(** Section 4.4 (2): the URL begins with the template scheme. *)
Definition url_is_template (url : option string) : Prop :=
  exists u, url = Some u /\ starts_with u "template-ipfs://".

(** Section 4.4 (3): the name ends with the suffix. *)
Definition name_has_suffix (name : option string) : Prop :=
  exists n, name = Some n /\ ends_with n "@arc3".

End Phrases.

(** ** Example runs *)

Module Examples.
Import AlgorandNode.

(** Three items of resource ['account'], the second of which fails with
    ['Account not found']. *)
Definition three_items (continue : bool) : Execution :=
  {| items := 3;
     continueOnFail := continue;
     resource := fun _ => "account"%string;
     operation_run := fun _ i =>
       if (i =? 1)%nat then ([], Some "Account not found"%string)
       else ([ {| json := [("address"%string, "A"%string)]; pairedItem := Some i |} ],
             None) |}.

(** A ledger with one transaction, confirmed in round 103, and an indexer
    that answers a search with the transactions of the ledger in the
    searched rounds. *)
Definition payment_103 : AlgorandTrigger.Transaction :=
  {| AlgorandTrigger.tx_id := "TX103";
     AlgorandTrigger.tx_sender := "SENDER";
     AlgorandTrigger.tx_type := "pay";
     AlgorandTrigger.tx_confirmed_round := 103;
     AlgorandTrigger.payment_amount := Some 5000000%Z;
     AlgorandTrigger.payment_receiver := Some "RECEIVER"%string;
     AlgorandTrigger.axfer_amount := None;
     AlgorandTrigger.axfer_receiver := None |}.

Definition indexer_search (q : AlgorandTrigger.Search)
  : JS.outcome (list AlgorandTrigger.Transaction) :=
  JS.Returns
    (List.filter
       (fun tx =>
          (AlgorandTrigger.minRound q <=? AlgorandTrigger.tx_confirmed_round tx)%Z &&
          (AlgorandTrigger.tx_confirmed_round tx <=? AlgorandTrigger.maxRound q)%Z)
       [payment_103]).

(** A node that reports [round] as its last round, in front of that
    indexer. *)
Definition node_at (round : Z) : AlgorandTrigger.Remote :=
  {| AlgorandTrigger.status_last_round := JS.Returns round;
     AlgorandTrigger.block := fun _ => JS.Returns tt;
     AlgorandTrigger.searchForTransactions := indexer_search;
     AlgorandTrigger.accountInformation_amount := fun _ => JS.Returns 0%Z |}.

Definition watch_address : AlgorandTrigger.Parameters :=
  {| AlgorandTrigger.event := "transactionForAddress";
     AlgorandTrigger.address := "RECEIVER";
     AlgorandTrigger.assetId := 0;
     AlgorandTrigger.appId := 0;
     AlgorandTrigger.minAmount := JS.num 0 |}.

(** The static data with the cursor at [round]. *)
Definition cursor_at (round : Z) : AlgorandTrigger.StaticData :=
  {| AlgorandTrigger.lastRound := Some round;
     AlgorandTrigger.lastBalance := None |}.

End Examples.

(** ** [transport/indexerClient.ts] *)

Module IndexerClient.
Import JS Networks.

Record IndexerClientConfig : Type := {
  url : option string;
  token : AlgodClient.Token
}.

(** [config.indexerUrl] of a looked-up table entry. *)
Definition config_indexerUrl (config : property NetworkConfig)
  : outcome (option string) :=
  match config with
  | Own c => Returns (Some (indexerUrl c))
  | Inherited => Returns None
  | Undefined =>
      Throws "TypeError: Cannot read properties of undefined (reading 'indexerUrl')"
  end.

(** [url && (url.includes('localhost') || url.includes('127.0.0.1'))]. *)
Definition is_local (url : option string) : bool :=
  match url with
  | Some u => truthy_string url && (includes u "localhost" || includes u "127.0.0.1")
  | None => false
  end.

(** Get the Indexer client configuration from the credentials. *)
Definition getIndexerConfig (credentials : gmap string string)
  : outcome IndexerClientConfig :=
  let network := credentials !! "network"%string in
  let apiProvider := credentials !! "apiProvider"%string in
  if bool_decide (apiProvider = Some "algonode"%string) then
    let config :=
      property_or (get_property ALGONODE_NETWORKS (ToPropertyKey network))
                  (get_property ALGONODE_NETWORKS "mainnet") in
    match config_indexerUrl config with
    | Returns u => Returns {| url := u; token := AlgodClient.TokenString "" |}
    | Throws message => Throws message
    end
  else if bool_decide (apiProvider = Some "purestake"%string) then
    let config :=
      property_or (get_property PURESTAKE_NETWORKS (ToPropertyKey network))
                  (get_property PURESTAKE_NETWORKS "mainnet") in
    let apiKey := credentials !! "purestakeApiKey"%string in
    match config_indexerUrl config with
    | Returns u => Returns {| url := u; token := AlgodClient.TokenHeader apiKey |}
    | Throws message => Throws message
    end
  else if bool_decide (apiProvider = Some "custom"%string) then
    let url := credentials !! "indexerUrl"%string in
    let token := AlgodClient.string_or (credentials !! "indexerToken"%string) "" in
    if is_local url then
      Returns {| url := Some (AlgodClient.string_or url (indexerUrl SANDBOX_CONFIG));
                 token := AlgodClient.TokenString
                            (AlgodClient.string_or (Some token) "") |}
    else Returns {| url := url; token := AlgodClient.TokenString token |}
  else
    match config_indexerUrl (get_property ALGONODE_NETWORKS "mainnet") with
    | Returns u => Returns {| url := u; token := AlgodClient.TokenString "" |}
    | Throws message => Throws message
    end.

End IndexerClient.

(** ** The KMD client configuration, [getKmdConfig] *)

Module KmdClient.
Import JS.

(** The values a credentials field can hold here. *)
Inductive value : Type :=
| VUndefined
| VBoolean (b : bool)
| VString (s : string).

(** Truthiness: [undefined], [false] and [""] are falsy. *)
Definition truthy (v : value) : bool :=
  match v with
  | VUndefined => false
  | VBoolean b => b
  | VString EmptyString => false
  | VString _ => true
  end.

(** [v || fallback]. *)
Definition value_or (v fallback : value) : value :=
  if truthy v then v else fallback.

(** [credentials.name]. *)
Definition field (credentials : gmap string value) (name : string) : value :=
  default VUndefined (credentials !! name).

Record KmdClientConfig : Type := {
  url : value;
  token : value
}.

(** Get the KMD client configuration from the credentials; [None] is
    [null]. *)
Definition getKmdConfig (credentials : gmap string value)
  : option KmdClientConfig :=
  let useKmd := field credentials "useKmd" in
  if negb (truthy useKmd) then None
  else
    Some {| url := value_or (field credentials "kmdUrl")
                            (VString "http://localhost:4002");
            token := value_or (field credentials "kmdToken")
                              (VString AlgodClient.DEFAULT_SANDBOX_TOKEN) |}.

End KmdClient.

(** ** The events of the polling trigger *)

Module Events.

(** The events that search the indexer for transactions. *)
Definition TRANSACTION_EVENTS : list string :=
  ["transactionForAddress"; "paymentReceived"; "paymentSent"; "assetTransfer";
   "assetOptIn"; "applicationCall"]%string.

(** Whether a call returned. *)
Definition returned {A : Type} (r : JS.outcome A) : bool :=
  match r with
  | JS.Returns _ => true
  | JS.Throws _ => false
  end.

End Events.

(** ** More example runs *)

Module MoreExamples.
Import AlgorandTrigger.

(** The trigger set to an event, watching the address of the examples. *)
Definition watching (ev : string) : Parameters :=
  {| event := ev; address := "RECEIVER"; assetId := 0; appId := 0;
     minAmount := JS.num 0 |}.

(** A node at [round] whose account lookup answers [balance]. *)
Definition node_with_balance (round balance : Z) : Remote :=
  {| status_last_round := JS.Returns round;
     block := fun _ => JS.Returns tt;
     searchForTransactions := Examples.indexer_search;
     accountInformation_amount := fun _ => JS.Returns balance |}.

(** A node at [round] that cannot serve the block of round 103. *)
Definition node_without_103 (round : Z) : Remote :=
  {| status_last_round := JS.Returns round;
     block := fun r => if (r =? 103)%Z then JS.Throws "block not available"
                       else JS.Returns tt;
     searchForTransactions := Examples.indexer_search;
     accountInformation_amount := fun _ => JS.Returns 0%Z |}.

(** A node that cannot be reached. *)
Definition node_down : Remote :=
  {| status_last_round := JS.Throws "connect ECONNREFUSED";
     block := fun _ => JS.Throws "connect ECONNREFUSED";
     searchForTransactions := fun _ => JS.Throws "connect ECONNREFUSED";
     accountInformation_amount := fun _ => JS.Throws "connect ECONNREFUSED" |}.

(** Two items of resource ['utility'], both converted without error. *)
Definition two_conversions (continue : bool) : AlgorandNode.Execution :=
  {| AlgorandNode.items := 2;
     AlgorandNode.continueOnFail := continue;
     AlgorandNode.resource := fun _ => "utility"%string;
     AlgorandNode.operation_run := fun _ i =>
       ([ {| AlgorandNode.json := [("microAlgo"%string, "1000000"%string)];
             AlgorandNode.pairedItem := Some i |} ], None) |}.

End MoreExamples.

(** ** [utils/abiEncoder.ts]: the 64-bit integers *)

Module AbiEncoder.
Import JS.
Local Open Scope Z_scope.

(** [number | bigint]. *)
Inductive numeric : Type :=
| Num (x : number)
| Big (z : Z).

(** The [n] low bytes of [v], the most significant first. *)
Fixpoint big_endian (n : nat) (v : Z) : list N :=
  match n with
  | O => []
  | S k => Z.to_N ((v / 256 ^ Z.of_nat k) mod 256) :: big_endian k v
  end.

(** The integer a byte string stands for, the most significant byte
    first. *)
Definition big_endian_value (data : list N) : Z :=
  fold_left (fun acc b => acc * 256 + Z.of_N b) data 0.

Section WithToString.

(** [Number::toString], which the error message of [BigInt] applies to its
    argument. *)
Variable Number_toString : number -> string.

(** The message of the [RangeError] that [BigInt(x)] throws. *)
Definition not_an_integer (x : number) : string :=
  ("RangeError: The number " ++ Number_toString x ++
   " cannot be converted to a BigInt because it is not an integer")%string.

(** [BigInt(x)] of a number: its value when it is an integer, a
    [RangeError] otherwise. *)
Definition BigInt_of_number (x : number) : outcome Z :=
  match x with
  | S754_zero _ => Returns 0
  | S754_finite s m e =>
      if 0 <=? e then Returns (cond_Zopp s (Zpos m * 2 ^ e))
      else if Zpos m mod 2 ^ (- e) =? 0
           then Returns (cond_Zopp s (Zpos m / 2 ^ (- e)))
           else Throws (not_an_integer x)
  | S754_infinity _ | S754_nan => Throws (not_an_integer x)
  end.

Definition BigInt (n : numeric) : outcome Z :=
  match n with
  | Num x => BigInt_of_number x
  | Big z => Returns z
  end.

(** Encode uint64: [setBigUint64(0, BigInt(num), false)] on a buffer of 8
    bytes, which stores the value modulo [2^64]. *)
Definition encodeUint64 (n : numeric) : outcome (list N) :=
  match BigInt n with
  | Returns value => Returns (big_endian 8 (value mod 2 ^ 64))
  | Throws message => Throws message
  end.

End WithToString.

(** Decode uint64: [getBigUint64(0, false)] on a view of [data], which
    needs 8 bytes and reads the first 8. *)
Definition decodeUint64 (data : list N) : outcome Z :=
  if (List.length data <? 8)%nat
  then Throws "RangeError: Offset is outside the bounds of the DataView"
  else Returns (big_endian_value (take 8 data)).

End AbiEncoder.

(** ** [Number.prototype.toFixed] and [formatAlgo] *)

Module Formatting.
Import JS Networks UnitConverter.
Local Open Scope Z_scope.

(** [ToIntegerOrInfinity]: the number truncated to an integer, [NaN] being
    0; [None] stands for the infinities. *)
Definition ToIntegerOrInfinity (x : number) : option Z :=
  match x with
  | S754_nan | S754_zero _ => Some 0
  | S754_infinity _ => None
  | S754_finite s m e =>
      Some (cond_Zopp s (if 0 <=? e then Zpos m * 2 ^ e else Zpos m / 2 ^ (- e)))
  end.

(** The decimal digits of a natural number, ["0"] for 0. *)
Definition decimal (n : Z) : string :=
  DecimalString.NilZero.string_of_uint (N.to_uint (Z.to_N n)).

Fixpoint zeros (k : nat) : string :=
  match k with
  | O => EmptyString
  | S k => String "0" (zeros k)
  end.

(** The digits of [n] with a point before the last [f] of them, padded with
    zeros on the left to [f + 1] digits. *)
Definition fixed_digits (n : Z) (f : nat) : string :=
  let m := decimal n in
  if (f =? 0)%nat then m
  else
    let m := if (String.length m <=? f)%nat
             then (zeros (f + 1 - String.length m) ++ m)%string else m in
    let k := String.length m in
    (String.substring 0 (k - f) m ++ "." ++ String.substring (k - f) f m)%string.

(** The integer [n] for which [n / 10^f] is nearest to [m * 2^e], the larger
    one of two. *)
Definition nearest_scaled (m : positive) (e : Z) (f : Z) : Z :=
  if 0 <=? e then Zpos m * 2 ^ e * 10 ^ f
  else (2 * (Zpos m * 10 ^ f) + 2 ^ (- e)) / 2 ^ (1 - e).

(** [m * 2^e >= 10^21]. *)
Definition at_least_1e21 (m : positive) (e : Z) : bool :=
  if 0 <=? e then 10 ^ 21 <=? Zpos m * 2 ^ e
  else 10 ^ 21 * 2 ^ (- e) <=? Zpos m.

Section ToFixed.

(** [Number::toString] of a finite number that is at least [10^21], which
    [toFixed] falls back to. *)
Variable Number_toString : number -> string.

(** [x.toFixed(fractionDigits)]. *)
Definition toFixed (x : number) (fractionDigits : option number) : outcome string :=
  match ToIntegerOrInfinity (default (S754_zero false) fractionDigits) with
  | None => Throws "RangeError: toFixed() digits argument must be between 0 and 100"
  | Some f =>
      if (f <? 0) || (100 <? f)
      then Throws "RangeError: toFixed() digits argument must be between 0 and 100"
      else
        match x with
        | S754_nan => Returns "NaN"%string
        | S754_infinity false => Returns "Infinity"%string
        | S754_infinity true => Returns "-Infinity"%string
        | S754_zero _ => Returns (fixed_digits 0 (Z.to_nat f))
        | S754_finite s m e =>
            let sign := if s then "-"%string else ""%string in
            if at_least_1e21 m e
            then Returns (sign ++ Number_toString (S754_finite false m e))%string
            else Returns (sign ++ fixed_digits (nearest_scaled m e f) (Z.to_nat f))%string
        end
  end.

(** Format microAlgos as an ALGO string; [decimals] defaults to 6. *)
Definition formatAlgo (microAlgo : number) (decimals : option number)
  : outcome string :=
  let decimals := default (num 6) decimals in
  let algo := microAlgoToAlgo microAlgo in
  toFixed algo (Some decimals).

End ToFixed.

End Formatting.

(** ** The amount checks of the ['sendAlgo'] operation *)

Module TransactionOps.
Import JS UnitConverter.




End TransactionOps.

(** ** More string built-ins *)

Module JSStrings.

(** The white space and line terminators among the first 256 code
    units. *)
Definition is_whitespace (c : ascii) : bool :=
  match N_of_ascii c with
  | 9 | 10 | 11 | 12 | 13 | 32 | 160 => true
  | _ => false
  end%N.

Fixpoint trimStart (s : string) : string :=
  match s with
  | EmptyString => EmptyString
  | String c rest => if is_whitespace c then trimStart rest else s
  end.

Fixpoint trimEnd (s : string) : string :=
  match s with
  | EmptyString => EmptyString
  | String c rest =>
      match trimEnd rest with
      | EmptyString => if is_whitespace c then EmptyString else String c EmptyString
      | t => String c t
      end
  end.


(** [s.trim()]. *)
Definition trim (s : string) : string := trimEnd (trimStart s).

(** The line feed. *)
Definition LF : ascii := ascii_of_nat 10.

(** [s.split('\n')]: at least one line, the empty one for the empty
    string. *)
Fixpoint split_lines (s : string) : list string :=
  match s with
  | EmptyString => [EmptyString]
  | String c rest =>
      if Ascii.eqb c LF then EmptyString :: split_lines rest
      else match split_lines rest with
           | line :: more => String c line :: more
           | [] => [String c EmptyString]
           end
  end.

End JSStrings.

(** ** [getSigningAccount] of [transport/algodClient.ts] *)

Module SigningAccount.
Import JS JSStrings.

Section WithSdk.

(** An SDK account, and [algosdk.mnemonicToSecretKey]. *)
Variable Account : Type.
Variable mnemonicToSecretKey : string -> outcome Account.


End WithSdk.

End SigningAccount.

(** ** [utils/tealUtils.ts]: the source check and the program templates *)

Module TealUtils.
Import JS JSStrings.

Record Validation : Type := {
  valid : bool;
  errors : list string
}.

(** Validate TEAL source syntax. *)
Definition validateTealSource (source : string) : Validation :=
  let errors : list string := [] in
  let lines := split_lines source in
  let versionLine :=
    List.find (fun line => startsWith (trim line) "#pragma version") lines in
  let errors :=
    if negb (truthy_string versionLine)
    then errors ++ ["Missing #pragma version directive"%string] else errors in
  let errors :=
    if (List.length lines <? 2)%nat
    then errors ++ ["TEAL program too short"%string] else errors in
  {| valid := (List.length errors =? 0)%nat; errors := errors |}.

(** The lines of a template, each followed by a line feed. *)
Fixpoint template (lines : list string) : string :=
  match lines with
  | [] => EmptyString
  | line :: more => (line ++ String LF (template more))%string
  end.

Section Templates.

(** [Number::toString], which the template literals apply to [version]. *)
Variable Number_toString : number -> string.

(** Create the simple approval program; [version] defaults to 10. *)
Definition createSimpleApprovalProgram (version : option number) : string :=
  let version := default (num 10) version in
  (("#pragma version " ++ Number_toString version) ++ String LF
   (template
      ["txn ApplicationID"; "int 0"; "=="; "bnz handle_create";
       "txn OnCompletion"; "int NoOp"; "=="; "bnz handle_noop";
       "txn OnCompletion"; "int OptIn"; "=="; "bnz handle_optin";
       "txn OnCompletion"; "int CloseOut"; "=="; "bnz handle_closeout";
       "txn OnCompletion"; "int UpdateApplication"; "=="; "bnz handle_update";
       "txn OnCompletion"; "int DeleteApplication"; "=="; "bnz handle_delete";
       "err"; "";
       "handle_create:"; "int 1"; "return"; "";
       "handle_noop:"; "int 1"; "return"; "";
       "handle_optin:"; "int 1"; "return"; "";
       "handle_closeout:"; "int 1"; "return"; "";
       "handle_update:"; "int 1"; "return"; "";
       "handle_delete:"; "int 1"; "return"]))%string.

(** Create the simple clear state program; [version] defaults to 10. *)
Definition createSimpleClearProgram (version : option number) : string :=
  let version := default (num 10) version in
  (("#pragma version " ++ Number_toString version) ++ String LF
   (template ["int 1"; "return"]))%string.

End Templates.

End TealUtils.

(** ** Invariants of the rounding procedure of [SpecFloat] *)

Module Rounding.

(** The round and sticky bits [(r, s)] locate the fraction [N / D] in
    [[0, 1)]: [r] says it is at least one half, [s] that it is neither 0 nor
    one half. *)
Definition loc_bits (N D : Z) (r s : bool) : Prop :=
  (0 <= N < D)%Z /\
  (r = true <-> (D <= 2 * N)%Z) /\
  (s = true <-> (N <> 0 /\ 2 * N <> D)%Z).

(** The shift record holds the rational [A / B]: its mantissa is the integer
    part and its two bits locate the fractional part. *)
Definition shr_holds (A B : Z) (mrs : shr_record) : Prop :=
  (0 <= A)%Z /\ (0 < B)%Z /\ shr_m mrs = (A / B)%Z /\
  loc_bits (A mod B) B (shr_r mrs) (shr_s mrs).

End Rounding.

(** Replaces the closed powers of two of the goal and of the hypotheses by
    their values. *)
Ltac eval_pow2 :=
  repeat match goal with
  | |- context [Z.pow 2 ?e] =>
      let v := eval vm_compute in (Z.pow 2 e) in
      lazymatch v with
      | Zpos _ => change (Z.pow 2 e) with v
      end
  | H : context [Z.pow 2 ?e] |- _ =>
      let v := eval vm_compute in (Z.pow 2 e) in
      lazymatch v with
      | Zpos _ => change (Z.pow 2 e) with v in H
      end
  end.

(* ================================================================== *)
(** * Properties                                                       *)
(* ================================================================== *)

Import JS Networks UnitConverter Rounding.

(** ** Binary64 arithmetic

    [binary_round_aux] shifts a mantissa to 53 bits and rounds it to the
    nearest, ties to even. The lemmas below follow the shift record through
    [shr_1] and read off what the multiplication and the division
    return. *)

Section Binary64.
Local Open Scope Z_scope.

Lemma digits2_pos_bounds (p : positive) :
  2 ^ (Zpos (digits2_pos p) - 1) <= Zpos p < 2 ^ Zpos (digits2_pos p).
Proof.
  induction p as [p IH | p IH |]; simpl digits2_pos.
  - rewrite Pos2Z.inj_succ.
    replace (Z.succ (Zpos (digits2_pos p)) - 1) with (Z.succ (Zpos (digits2_pos p) - 1)) by lia.
    rewrite !Z.pow_succ_r by lia. lia.
  - rewrite Pos2Z.inj_succ.
    replace (Z.succ (Zpos (digits2_pos p)) - 1) with (Z.succ (Zpos (digits2_pos p) - 1)) by lia.
    rewrite !Z.pow_succ_r by lia. lia.
  - simpl. lia.
Qed.

Lemma Zdigits2_bounds (m : Z) :
  0 < m -> 2 ^ (Zdigits2 m - 1) <= m < 2 ^ Zdigits2 m.
Proof.
  destruct m as [| p | p]; try lia. intros _. apply digits2_pos_bounds.
Qed.

Lemma Zdigits2_unique (m d : Z) :
  2 ^ (d - 1) <= m < 2 ^ d -> 0 < m -> Zdigits2 m = d.
Proof.
  intros [Hlo Hhi] Hm.
  destruct (Zdigits2_bounds m Hm) as [Dlo Dhi].
  assert (Hd : 0 < Zdigits2 m) by (destruct m; simpl; lia).
  assert (0 <= d).
  { destruct (Z.lt_ge_cases d 0) as [Hn|]; [|lia].
    rewrite Z.pow_neg_r in Hhi by lia. lia. }
  destruct (Z.lt_trichotomy (Zdigits2 m) d) as [Hlt | [Heq | Hgt]]; [| exact Heq |].
  - assert (2 ^ Zdigits2 m <= 2 ^ (d - 1)) by (apply Z.pow_le_mono_r; lia). lia.
  - assert (2 ^ d <= 2 ^ (Zdigits2 m - 1)) by (apply Z.pow_le_mono_r; lia). lia.
Qed.
Lemma shr_1_nonneg m r s :
  0 <= m ->
  shr_1 (Build_shr_record m r s) = Build_shr_record (m / 2) (Z.odd m) (r || s).
Proof.
  intros Hm. destruct m as [| p | p]; [reflexivity | | lia].
  destruct p as [p | p |]; unfold shr_1.
  - replace (Z.pos p~1 / 2) with (Z.pos p); [reflexivity |].
    apply Z.div_unique with 1; lia.
  - replace (Z.pos p~0 / 2) with (Z.pos p); [reflexivity |].
    apply Z.div_unique with 0; lia.
  - reflexivity.
Qed.

Lemma shr_holds_shr_1 A B mrs : shr_holds A B mrs -> shr_holds A (2 * B) (shr_1 mrs).
Proof.
  intros (HA & HB & Hm & (HN & Hr & Hs)).
  destruct mrs as [m r s]; cbn [shr_m shr_r shr_s] in *.
  assert (0 <= m) by (subst m; apply Z.div_pos; lia).
  rewrite shr_1_nonneg by assumption. cbn [shr_m shr_r shr_s].
  assert (Hdiv : A / (2 * B) = m / 2).
  { subst m. rewrite (Z.mul_comm 2 B). rewrite Z.div_div by lia. reflexivity. }
  assert (Hmod : A mod (2 * B) = (m mod 2) * B + A mod B).
  { subst m. rewrite (Z.mul_comm 2 B). rewrite Z.rem_mul_r by lia. lia. }
  assert (Hodd : m mod 2 = if Z.odd m then 1 else 0) by apply Zmod_odd.
  assert (Hor : (r || s) = true <-> A mod B <> 0).
  { rewrite orb_true_iff, Hr, Hs. lia. }
  unfold shr_holds, loc_bits. cbn [shr_m shr_r shr_s]. rewrite Hmod, Hdiv, Hor, Hodd.
  destruct (Z.odd m); intuition (try discriminate; try lia; try (exfalso; lia)).
Qed.

Lemma iter_pos_nat {A} (f : A -> A) (p : positive) (x : A) :
  SpecFloat.iter_pos f p x = Nat.iter (Pos.to_nat p) f x.
Proof.
  revert x. induction p as [p IH | p IH |]; intros x; simpl SpecFloat.iter_pos.
  - rewrite !IH. rewrite Pos2Nat.inj_xI.
    replace (S (2 * Pos.to_nat p)) with (Pos.to_nat p + Pos.to_nat p + 1)%nat by lia.
    rewrite !Nat.iter_add. reflexivity.
  - rewrite !IH. rewrite Pos2Nat.inj_xO.
    replace (2 * Pos.to_nat p)%nat with (Pos.to_nat p + Pos.to_nat p)%nat by lia.
    rewrite Nat.iter_add. reflexivity.
  - reflexivity.
Qed.

Lemma shr_holds_iter A B mrs (n : nat) :
  shr_holds A B mrs -> shr_holds A (2 ^ Z.of_nat n * B) (Nat.iter n shr_1 mrs).
Proof.
  intros H. induction n as [| n IH].
  - change (Z.of_nat 0) with 0. rewrite Z.pow_0_r, Z.mul_1_l. exact H.
  - rewrite Nat2Z.inj_succ, Z.pow_succ_r by lia. cbn [Nat.iter nat_rect].
    rewrite <- Z.mul_assoc. now apply shr_holds_shr_1.
Qed.

Lemma shr_holds_shr A B mrs e k :
  0 <= k -> shr_holds A B mrs ->
  exists mrs', shr mrs e k = (mrs', e + k) /\ shr_holds A (2 ^ k * B) mrs'.
Proof.
  intros Hk H. destruct k as [| p | p]; [| | lia].
  - exists mrs. unfold shr. rewrite Z.add_0_r, Z.pow_0_r, Z.mul_1_l. now split.
  - exists (SpecFloat.iter_pos shr_1 p mrs). split; [reflexivity |].
    rewrite iter_pos_nat. rewrite <- (positive_nat_Z p). now apply shr_holds_iter.
Qed.

Lemma shr_holds_of_loc m N D l :
  0 <= m -> 0 <= N < D ->
  match l with
  | loc_Exact => N = 0
  | loc_Inexact c => N <> 0 /\ Z.compare (2 * N) D = c
  end ->
  shr_holds (m * D + N) D (shr_record_of_loc m l).
Proof.
  intros Hm HN Hl.
  assert (Hd : (m * D + N) / D = m).
  { symmetry. apply Z.div_unique with N; lia. }
  assert (Hr : (m * D + N) mod D = N).
  { symmetry. apply Z.mod_unique with m; lia. }
  unfold shr_holds, loc_bits. rewrite Hd, Hr.
  split; [nia |]. split; [lia |]. split; [now destruct l as [| [| |]] |].
  split; [exact HN |].
  assert (Hcmp : forall c, (2 * N ?= D) = c ->
            match c with Eq => 2 * N = D | Lt => 2 * N < D | Gt => D < 2 * N end).
  { intros c <-. destruct (Z.compare_spec (2 * N) D); assumption. }
  destruct l as [| c]; [| destruct Hl as [Hn0 Hc]; apply Hcmp in Hc; destruct c];
    cbn [shr_record_of_loc shr_m shr_r shr_s];
    (split; split; intros; try discriminate; try reflexivity; try lia; exfalso; lia).
Qed.

Lemma round_nearest_even_holds A B mrs :
  shr_holds A B mrs ->
  let R := round_nearest_even (shr_m mrs) (loc_of_shr_record mrs) in
  shr_m mrs <= R <= shr_m mrs + 1 /\ 2 * Z.abs (R * B - A) <= B.
Proof.
  intros (HA & HB & Hm & (HN & Hr & Hs)).
  pose proof (Z.div_mod A B ltac:(lia)) as Hdm.
  destruct mrs as [m r s]; cbn [shr_m shr_r shr_s] in *.
  rewrite <- Hm in Hdm. set (N := A mod B) in *.
  assert (Hr' : r = false -> 2 * N < B).
  { intros ->. destruct (Z_lt_le_dec (2 * N) B) as [|C]; [assumption |].
    apply Hr in C. discriminate. }
  assert (Hr1 : r = true -> B <= 2 * N) by (intros ->; now apply Hr).
  assert (Hs' : s = false -> N = 0 \/ 2 * N = B).
  { intros ->. destruct (Z.eq_dec N 0) as [|C1]; [now left |].
    destruct (Z.eq_dec (2 * N) B) as [|C2]; [now right |].
    assert (false = true) by (apply Hs; now split). discriminate. }
  destruct r, s; cbn [loc_of_shr_record round_nearest_even].
  - specialize (Hr1 eq_refl). rewrite Hdm. split; [lia |].
    replace ((m + 1) * B - (B * m + N)) with (B - N) by ring. lia.
  - specialize (Hr1 eq_refl). specialize (Hs' eq_refl). rewrite Hdm.
    destruct (Z.even m); (split; [lia |]).
    + replace (m * B - (B * m + N)) with (- N) by ring. lia.
    + replace ((m + 1) * B - (B * m + N)) with (B - N) by ring. lia.
  - specialize (Hr' eq_refl). rewrite Hdm. split; [lia |].
    replace (m * B - (B * m + N)) with (- N) by ring. lia.
  - specialize (Hr' eq_refl). rewrite Hdm. split; [lia |].
    replace (m * B - (B * m + N)) with (- N) by ring. lia.
Qed.

Lemma shr_m_of_loc m l : shr_m (shr_record_of_loc m l) = m.
Proof. now destruct l as [| [| |]]. Qed.

Lemma fexp64 (x : Z) : -1074 <= x - 53 -> fexp 53 1024 x = x - 53.
Proof. intros H. unfold fexp, emin. lia. Qed.

Lemma binary_round_aux_correct s m e l A B k :
  shr_holds A B (shr_record_of_loc m l) ->
  Zdigits2 m = 53 + k -> 0 <= k ->
  -1074 <= e + k -> e + k + 1 <= 971 ->
  exists R c,
    binary_round_aux 53 1024 s m e l = S754_finite s R (e + k + c) /\
    (c = 0 \/ c = 1) /\
    2 ^ 52 <= Zpos R < 2 ^ 53 /\
    2 * Z.abs (Zpos R * 2 ^ c * (2 ^ k * B) - A) <= 2 ^ k * B.
Proof.
  intros HRep Hdig Hk Hlo Hhi.
  assert (Hmpos : 0 < m).
  { assert (0 <= m).
    { destruct HRep as (HA & HB & Hm & _). rewrite shr_m_of_loc in Hm.
      rewrite Hm. apply Z.div_pos; lia. }
    destruct m as [| p | p]; cbn [Zdigits2] in Hdig; lia. }
  destruct (Zdigits2_bounds m Hmpos) as [Hm1 Hm2]. rewrite Hdig in Hm1, Hm2.
  replace (53 + k - 1) with (52 + k) in Hm1 by lia.
  rewrite Z.pow_add_r in Hm1, Hm2 by lia.
  assert (H2k : 0 < 2 ^ k) by (apply Z.pow_pos_nonneg; lia).
  unfold binary_round_aux, shr_fexp.
  rewrite Hdig, fexp64 by lia.
  replace (53 + k + e - 53 - e) with k by lia.
  destruct (shr_holds_shr A B (shr_record_of_loc m l) e k Hk HRep) as (mrs' & Hshr & HRep').
  rewrite Hshr.
  pose proof (round_nearest_even_holds _ _ _ HRep') as [HR0 Herr].
  set (R0 := round_nearest_even (shr_m mrs') (loc_of_shr_record mrs')) in *.
  assert (Hm' : shr_m mrs' = m / 2 ^ k).
  { destruct HRep' as (_ & _ & -> & _). destruct HRep as (_ & HB & Hm & _).
    rewrite shr_m_of_loc in Hm. rewrite Hm, (Z.mul_comm (2 ^ k) B).
    now rewrite Z.div_div by lia. }
  assert (Hm'b : 2 ^ 52 <= shr_m mrs' < 2 ^ 53).
  { rewrite Hm'. split.
    - apply Z.div_le_lower_bound; lia.
    - apply Z.div_lt_upper_bound; lia. }
  destruct (Z_lt_le_dec R0 (2 ^ 53)) as [Hlt | Hge].
  - (* no carry *)
    assert (Hd0 : Zdigits2 R0 = 53) by (apply Zdigits2_unique; lia).
    rewrite Hd0, fexp64 by lia.
    replace (53 + (e + k) - 53 - (e + k)) with 0 by lia.
    cbn [shr shr_record_of_loc shr_m].
    destruct R0 as [| R |] eqn:ER0; try lia.
    exists R, 0. rewrite Z.add_0_r.
    replace (e + k <=? 1024 - 53) with true by (symmetry; apply Z.leb_le; lia).
    rewrite Z.pow_0_r, Z.mul_1_r. repeat split; try lia.
  - (* the mantissa overflowed to 2^53: one more shift *)
    assert (HR0eq : R0 = 2 ^ 53) by lia.
    assert (Hd0 : Zdigits2 R0 = 54) by (rewrite HR0eq; reflexivity).
    rewrite Hd0, fexp64 by lia.
    replace (54 + (e + k) - 53 - (e + k)) with 1 by lia.
    rewrite HR0eq. 
    exists (2 ^ 52)%positive, 1.
    change (shr (shr_record_of_loc (2 ^ 53) loc_Exact) (e + k) 1)
      with (Build_shr_record (2 ^ 52) false false, e + k + 1).
    cbn [shr_m].
    change (2 ^ 52) with (Zpos (2 ^ 52)) at 1.
    cbv iota beta.
    replace (e + k + 1 <=? 1024 - 53) with true by (symmetry; apply Z.leb_le; lia).
    rewrite HR0eq in Herr. repeat split; lia.
Qed.

Lemma Zdigits2_range (m lo hi : Z) :
  0 <= lo -> 2 ^ lo <= m < 2 ^ hi -> lo < Zdigits2 m <= hi.
Proof.
  intros Hlo [H1 H2].
  assert (Hm : 0 < m) by (pose proof (Z.pow_pos_nonneg 2 lo); lia).
  destruct (Zdigits2_bounds m Hm) as [D1 D2].
  assert (Hd : 0 < Zdigits2 m) by (destruct m; simpl; lia).
  split.
  - destruct (Z_lt_le_dec lo (Zdigits2 m)) as [| C]; [assumption |].
    assert (2 ^ Zdigits2 m <= 2 ^ lo) by (apply Z.pow_le_mono_r; lia). lia.
  - destruct (Z_le_gt_dec (Zdigits2 m) hi) as [| C]; [assumption |].
    assert (0 <= hi).
    { destruct (Z_lt_le_dec hi 0) as [C' |]; [| assumption].
      rewrite Z.pow_neg_r in H2 by assumption. lia. }
    assert (2 ^ hi <= 2 ^ (Zdigits2 m - 1)) by (apply Z.pow_le_mono_r; lia). lia.
Qed.

Lemma iter_xO_value (p d : positive) :
  Zpos (Pos.iter xO p d) = Zpos p * 2 ^ Zpos d.
Proof.
  change (Pos.iter xO p d) with (shift_pos d p).
  rewrite shift_pos_correct. change (Zpower_pos 2 d) with (2 ^ Zpos d). lia.
Qed.

(* a 53-bit mantissa goes through the rounding unchanged *)
Lemma binary_round_aux_exact s (p : positive) e :
  Zpos (digits2_pos p) = 53 -> -1074 <= e <= 970 ->
  binary_round_aux 53 1024 s (Zpos p) e loc_Exact = S754_finite s p e.
Proof.
  intros Hd He.
  assert (HRep : shr_holds (Zpos p * 1 + 0) 1 (shr_record_of_loc (Zpos p) loc_Exact))
    by (apply shr_holds_of_loc; lia).
  destruct (binary_round_aux_correct s (Zpos p) e loc_Exact _ _ 0 HRep)
    as (R & c & HR & Hc & HRb & Herr); try (cbn [Zdigits2]; lia).
  pose proof (digits2_pos_bounds p) as Hpb. rewrite Hd in Hpb.
  destruct Hc as [-> | ->].
  - change (2 ^ 0) with 1 in Herr.
    assert (R = p) by lia. subst R. rewrite HR. f_equal. lia.
  - exfalso. change (2 ^ 0) with 1 in Herr. change (2 ^ 1) with 2 in Herr. lia.
Qed.

Lemma binary_round_small s (p : positive) :
  let d := Zpos (digits2_pos p) in
  d <= 53 ->
  binary_round 53 1024 s p 0 = S754_finite s (Z.to_pos (Zpos p * 2 ^ (53 - d))) (d - 53).
Proof.
  intros d Hd. unfold binary_round, shl_align.
  assert (0 < d) by (unfold d; lia).
  rewrite Z.add_0_r. fold d. rewrite fexp64 by lia. rewrite Z.sub_0_r.
  pose proof (digits2_pos_bounds p) as Hpb. fold d in Hpb.
  destruct (d - 53) as [| q | q] eqn:Edq; try lia.
  - replace (53 - d) with 0 by lia. rewrite Z.pow_0_r, Z.mul_1_r, Pos2Z.id.
    apply binary_round_aux_exact; [fold d |]; lia.
  - assert (Hv := iter_xO_value p q).
    replace (53 - d) with (Zpos q) by lia.
    rewrite <- Hv, Pos2Z.id.
    apply binary_round_aux_exact; [| lia].
    assert (Hq : Zpos q = 53 - d) by lia.
    change (Zpos (digits2_pos (Pos.iter xO p q))) with (Zdigits2 (Zpos (Pos.iter xO p q))).
    apply Zdigits2_unique; [| lia].
    rewrite Hv, Hq.
    assert (E52 : 2 ^ (53 - 1) = 2 ^ (d - 1) * 2 ^ (53 - d)).
    { rewrite <- Z.pow_add_r by lia. f_equal. lia. }
    assert (E53 : 2 ^ 53 = 2 ^ d * 2 ^ (53 - d)).
    { rewrite <- Z.pow_add_r by lia. f_equal. lia. }
    rewrite E52, E53.
    assert (0 < 2 ^ (53 - d)) by (apply Z.pow_pos_nonneg; lia).
    nia.
Qed.

Lemma new_location_spec nb r :
  0 < nb -> 0 <= r < nb ->
  match new_location nb r with
  | loc_Exact => r = 0
  | loc_Inexact c => r <> 0 /\ Z.compare (2 * r) nb = c
  end.
Proof.
  intros Hnb Hr. unfold new_location, new_location_even, new_location_odd.
  destruct (Z.even nb) eqn:Ev; destruct (Z.eqb_spec r 0) as [E0 | N0]; try assumption.
  - now split.
  - split; [assumption |].
    assert (Hne : nb <> 2 * r).
    { intros ->. rewrite Z.even_mul in Ev. discriminate. }
    destruct (Z.compare_spec (2 * r + 1) nb).
    + apply Z.compare_lt_iff. lia.
    + apply Z.compare_lt_iff. lia.
    + apply Z.compare_gt_iff. lia.
Qed.

Lemma SFdiv_finite_correct sx sy (mx my : positive) ex ey k :
  Zpos (digits2_pos mx) = 53 -> Zpos (digits2_pos my) = 53 ->
  Zdigits2 (Zpos mx * 2 ^ 53 / Zpos my) = 53 + k -> 0 <= k ->
  -1074 <= ex - ey - 53 -> ex - ey - 53 + k + 1 <= 971 ->
  exists R c,
    SFdiv 53 1024 (S754_finite sx mx ex) (S754_finite sy my ey)
      = S754_finite (xorb sx sy) R (ex - ey - 53 + k + c) /\
    (c = 0 \/ c = 1) /\
    2 ^ 52 <= Zpos R < 2 ^ 53 /\
    2 * Z.abs (Zpos R * 2 ^ c * (2 ^ k * Zpos my) - Zpos mx * 2 ^ 53) <= 2 ^ k * Zpos my.
Proof.
  intros Hdx Hdy Hdq Hk Hlo Hhi.
  unfold SFdiv, SFdiv_core_binary. cbn [Zdigits2]. rewrite Hdx, Hdy.
  replace (53 + ex - (53 + ey)) with (ex - ey) by lia.
  rewrite fexp64 by lia.
  rewrite Z.min_l by lia.
  replace (ex - ey - (ex - ey - 53)) with 53 by lia.
  cbv iota. rewrite Z.shiftl_mul_pow2 by lia.
  assert (Hmy : Zpos my > 0) by lia.
  pose proof (Z_div_mod (Zpos mx * 2 ^ 53) (Zpos my) Hmy) as Hdm.
  unfold Z.div in Hdq.
  destruct (Z.div_eucl (Zpos mx * 2 ^ 53) (Zpos my)) as [q r].
  destruct Hdm as [Hdm Hr].
  assert (Hq : 0 <= q).
  { assert (0 < Zpos mx * 2 ^ 53) by lia. nia. }
  rewrite Hdm. replace (Zpos my * q + r) with (q * Zpos my + r) by ring.
  apply binary_round_aux_correct; try lia.
  apply shr_holds_of_loc; [assumption | assumption |].
  apply new_location_spec; lia.
Qed.

Lemma SFmul_finite_correct sx sy (mx my : positive) ex ey k :
  Zdigits2 (Zpos mx * Zpos my) = 53 + k -> 0 <= k ->
  -1074 <= ex + ey + k -> ex + ey + k + 1 <= 971 ->
  exists R c,
    SFmul 53 1024 (S754_finite sx mx ex) (S754_finite sy my ey)
      = S754_finite (xorb sx sy) R (ex + ey + k + c) /\
    (c = 0 \/ c = 1) /\
    2 ^ 52 <= Zpos R < 2 ^ 53 /\
    2 * Z.abs (Zpos R * 2 ^ c * 2 ^ k - Zpos mx * Zpos my) <= 2 ^ k.
Proof.
  intros Hd Hk Hlo Hhi. unfold SFmul.
  assert (HRep : shr_holds (Zpos (mx * my) * 1 + 0) 1
                   (shr_record_of_loc (Zpos (mx * my)) loc_Exact))
    by (apply shr_holds_of_loc; lia).
  rewrite Pos2Z.inj_mul in HRep at 1.
  destruct (binary_round_aux_correct (xorb sx sy) (Zpos (mx * my)) (ex + ey)
              loc_Exact _ _ k HRep) as (R & c & HR & Hc & HRb & Herr); try lia.
  { rewrite Pos2Z.inj_mul. exact Hd. }
  exists R, c. rewrite Z.mul_1_r in Herr.
  replace (Zpos mx * Zpos my * 1 + 0) with (Zpos mx * Zpos my) in Herr by ring.
  repeat split; try assumption; lia.
Qed.

Lemma roundtrip_arith d n R1 R2 k1 c1 k2 c2 :
  1 <= d <= 52 -> 2 ^ (d - 1) <= n < 2 ^ d -> n < 4294967296000000 ->
  (k1 = 0 \/ k1 = 1) -> (c1 = 0 \/ c1 = 1) ->
  (k2 = 52 \/ k2 = 53) -> (c2 = 0 \/ c2 = 1) ->
  2 ^ 52 <= R1 < 2 ^ 53 -> 2 ^ 52 <= R2 < 2 ^ 53 ->
  2 * Z.abs (R1 * 2 ^ c1 * (2 ^ k1 * 8589934592000000) - n * 2 ^ (53 - d) * 2 ^ 53)
    <= 2 ^ k1 * 8589934592000000 ->
  2 * Z.abs (R2 * 2 ^ c2 * 2 ^ k2 - R1 * 8589934592000000) <= 2 ^ k2 ->
  let s := k1 + c1 + k2 + c2 - 52 in
  s <= 1 /\
  n * (2 ^ (52 - d) * 2 ^ (2 - s)) <= R2 + 2 ^ (52 - d) * 2 ^ (1 - s)
     < (n + 1) * (2 ^ (52 - d) * 2 ^ (2 - s)).
Proof.
  intros Hd Hn HT Hk1 Hc1 Hk2 Hc2 HR1 HR2 Hdiv Hmul s.
  assert (HU : 0 < 2 ^ (52 - d)) by (apply Z.pow_pos_nonneg; lia).
  assert (HV : 2 ^ (53 - d) = 2 * 2 ^ (52 - d)).
  { rewrite <- Z.pow_succ_r by lia. f_equal. lia. }
  assert (H52 : 2 ^ 52 = 2 ^ (d - 1) * (2 * 2 ^ (52 - d))).
  { rewrite <- HV, <- Z.pow_add_r by lia. f_equal. lia. }
  assert (H53 : 2 ^ 53 = 2 ^ d * (2 * 2 ^ (52 - d))).
  { rewrite <- HV, <- Z.pow_add_r by lia. f_equal. lia. }
  assert (HU1 : 2 ^ (52 - d) = 1 \/ 2 <= 2 ^ (52 - d)).
  { destruct (Z.eq_dec d 52) as [-> | Hne]; [now left | right].
    change 2 with (2 ^ 1) at 1. apply Z.pow_le_mono_r; lia. }
  rewrite HV in Hdiv.
  set (U := 2 ^ (52 - d)) in *.
  assert (HP1 : 2 ^ 52 <= n * (2 * U)).
  { rewrite H52. apply Z.mul_le_mono_nonneg_r; lia. }
  assert (HP2 : n * (2 * U) + 2 * U <= 2 ^ 53).
  { rewrite H53. assert (n + 1 <= 2 ^ d) by lia.
    replace (n * (2 * U) + 2 * U) with ((n + 1) * (2 * U)) by ring.
    apply Z.mul_le_mono_nonneg_r; lia. }
  clear H52 H53 HV Hn.
  assert (HPn : U = 1 -> n * U < 4294967296000000) by (intros ->; lia).
  replace (n * (2 * U) * 2 ^ 53) with (n * U * 2 ^ 54) in Hdiv by (change (2 ^ 54) with (2 * 2 ^ 53); ring).
  replace (n * (2 * U)) with (2 * (n * U)) in HP1, HP2 by ring.
  assert (HG : forall c, n * (U * c) = (n * U) * c) by (intros; ring).
  assert (HG' : forall c, (n + 1) * (U * c) = (n * U) * c + U * c) by (intros; ring).
  rewrite !HG, !HG'. clear HG HG'.
  set (P := n * U) in *. clearbody P U. clear HT Hd.
  unfold s; clear s.
  destruct Hk1 as [-> | ->], Hc1 as [-> | ->], Hk2 as [-> | ->], Hc2 as [-> | ->].
  all: eval_pow2; lia.
Qed.

Lemma roundtrip_arith_div d n R1 R2 k1 c1 k2 c2 :
  1 <= d <= 52 -> 2 ^ (d - 1) <= n < 2 ^ d -> n < 4294967296000000 ->
  (k1 = 0 \/ k1 = 1) -> (c1 = 0 \/ c1 = 1) ->
  (k2 = 52 \/ k2 = 53) -> (c2 = 0 \/ c2 = 1) ->
  2 ^ 52 <= R1 < 2 ^ 53 -> 2 ^ 52 <= R2 < 2 ^ 53 ->
  2 * Z.abs (R1 * 2 ^ c1 * (2 ^ k1 * 8589934592000000) - n * 2 ^ (53 - d) * 2 ^ 53)
    <= 2 ^ k1 * 8589934592000000 ->
  2 * Z.abs (R2 * 2 ^ c2 * 2 ^ k2 - R1 * 8589934592000000) <= 2 ^ k2 ->
  let b := 106 - d - k1 - c1 - k2 - c2 in
  1 <= b /\ (R2 + 2 ^ (b - 1)) / 2 ^ b = n.
Proof.
  intros Hd Hn HT Hk1 Hc1 Hk2 Hc2 HR1 HR2 Hdiv Hmul b.
  destruct (roundtrip_arith d n R1 R2 k1 c1 k2 c2) as (Hs & Hlo & Hhi); try assumption.
  set (s := k1 + c1 + k2 + c2 - 52) in *.
  assert (Hs0 : 0 <= s) by (unfold s; lia).
  split; [unfold b, s in *; lia |].
  assert (Eb : 2 ^ b = 2 ^ (52 - d) * 2 ^ (2 - s)).
  { rewrite <- Z.pow_add_r by lia. f_equal. unfold b, s. lia. }
  assert (Eb1 : 2 ^ (b - 1) = 2 ^ (52 - d) * 2 ^ (1 - s)).
  { rewrite <- Z.pow_add_r by lia. f_equal. unfold b, s. lia. }
  rewrite Eb, Eb1. symmetry.
  apply Z.div_unique with (R2 + 2 ^ (52 - d) * 2 ^ (1 - s) - n * (2 ^ (52 - d) * 2 ^ (2 - s))); lia.
Qed.

Lemma num_pos (p : positive) :
  let d := Zpos (digits2_pos p) in
  d <= 53 ->
  num (Zpos p) = S754_finite false (Z.to_pos (Zpos p * 2 ^ (53 - d))) (d - 53).
Proof. apply binary_round_small. Qed.

Lemma normalized_mantissa (p : positive) :
  let d := Zpos (digits2_pos p) in
  d <= 53 ->
  2 ^ 52 <= Zpos p * 2 ^ (53 - d) < 2 ^ 53.
Proof.
  intros d Hd. pose proof (digits2_pos_bounds p) as Hb. fold d in Hb.
  assert (0 < d) by (unfold d; lia).
  assert (E52 : 2 ^ 52 = 2 ^ (d - 1) * 2 ^ (53 - d)).
  { rewrite <- Z.pow_add_r by lia. f_equal. lia. }
  assert (E53 : 2 ^ 53 = 2 ^ d * 2 ^ (53 - d)).
  { rewrite <- Z.pow_add_r by lia. f_equal. lia. }
  assert (0 < 2 ^ (53 - d)) by (apply Z.pow_pos_nonneg; lia).
  rewrite E52, E53. nia.
Qed.

Lemma MICROALGOS_PER_ALGO_eq :
  MICROALGOS_PER_ALGO = S754_finite false 8589934592000000 (-33).
Proof. reflexivity. Qed.

Lemma roundtrip_normal (n : Z) :
  1 <= n < 4294967296000000 ->
  algoToMicroAlgo (microAlgoToAlgo (num n)) = num n.
Proof.
  intros Hn. destruct n as [| p | p]; try lia.
  pose proof (digits2_pos_bounds p) as Hpb.
  pose proof (Zdigits2_range (Zpos p) 0 52 ltac:(lia) ltac:(lia)) as Hd.
  cbn [Zdigits2] in Hd.
  pose proof (normalized_mantissa p ltac:(lia)) as HM1.
  unfold microAlgoToAlgo, algoToMicroAlgo, number_div, number_mul.
  rewrite (num_pos p) by lia. rewrite MICROALGOS_PER_ALGO_eq.
  set (d := Zpos (digits2_pos p)) in *.
  set (M1 := Z.to_pos (Zpos p * 2 ^ (53 - d))).
  assert (HM1v : Zpos M1 = Zpos p * 2 ^ (53 - d)) by (unfold M1; rewrite Z2Pos.id; lia).
  assert (HM1d : Zpos (digits2_pos M1) = 53).
  { change (Zdigits2 (Zpos M1) = 53). apply Zdigits2_unique; lia. }
  (* the division *)
  set (q := Zpos M1 * 2 ^ 53 / 8589934592000000).
  assert (Hq : 2 ^ 52 <= q < 2 ^ 54).
  { unfold q. split.
    - apply Z.div_le_lower_bound; lia.
    - apply Z.div_lt_upper_bound; lia. }
  pose proof (Zdigits2_range q 52 54 ltac:(lia) Hq) as Hdq.
  destruct (SFdiv_finite_correct false false M1 8589934592000000 (d - 53) (-33)
              (Zdigits2 q - 53)) as (R1 & c1 & Hx & Hc1 & HR1 & Hdiv);
    try (fold q); try lia; try reflexivity.
  rewrite Hx. clear Hx. cbn [xorb].
  (* the multiplication *)
  set (k1 := Zdigits2 q - 53) in *.
  assert (HP : 2 ^ 104 <= Zpos R1 * 8589934592000000 < 2 ^ 106) by lia.
  pose proof (Zdigits2_range _ 104 106 ltac:(lia) HP) as HdP.
  destruct (SFmul_finite_correct false false R1 8589934592000000
              (d - 53 - -33 - 53 + k1 + c1) (-33)
              (Zdigits2 (Zpos R1 * 8589934592000000) - 53))
    as (R2 & c2 & Hy & Hc2 & HR2 & Hmul); try lia.
  rewrite Hy. clear Hy. cbn [xorb].
  set (k2 := Zdigits2 (Zpos R1 * 8589934592000000) - 53) in *.
  (* the final rounding to an integer *)
  rewrite HM1v in Hdiv.
  destruct (roundtrip_arith_div d (Zpos p) (Zpos R1) (Zpos R2) k1 c1 k2 c2)
    as [Hb Hquot]; try assumption; try lia.
  unfold Math_round.
  set (E2 := d - 53 - -33 - 53 + k1 + c1 + -33 + k2 + c2).
  replace (0 <=? E2) with false by (symmetry; apply Z.leb_gt; unfold E2; lia).
  cbn [cond_Zopp].
  replace (- E2) with (106 - d - k1 - c1 - k2 - c2) by (unfold E2; lia).
  rewrite Hquot. apply (num_pos p). fold d. lia.
Qed.


(** *** Exact results *)

(** A mantissa that is a 53-bit value times a power of two loses nothing in
    the rounding. *)
Lemma binary_round_aux_shifted s (m : positive) (V k e : Z) :
  Zpos m = V * 2 ^ k -> 2 ^ 52 <= V < 2 ^ 53 -> 0 <= k ->
  -1074 <= e + k -> e + k + 1 <= 971 ->
  binary_round_aux 53 1024 s (Zpos m) e loc_Exact = S754_finite s (Z.to_pos V) (e + k).
Proof.
  intros Hm HV Hk Hlo Hhi.
  assert (H2k : 0 < 2 ^ k) by (apply Z.pow_pos_nonneg; lia).
  assert (Hd : Zdigits2 (Zpos m) = 53 + k).
  { apply Zdigits2_unique; [| lia]. rewrite Hm.
    replace (53 + k - 1) with (52 + k) by lia.
    rewrite !Z.pow_add_r by lia. nia. }
  assert (HRep : shr_holds (Zpos m * 1 + 0) 1 (shr_record_of_loc (Zpos m) loc_Exact))
    by (apply shr_holds_of_loc; lia).
  destruct (binary_round_aux_correct s (Zpos m) e loc_Exact _ _ k HRep Hd Hk Hlo Hhi)
    as (R & c & HR & Hc & HRb & Herr).
  rewrite HR.
  replace (Zpos m * 1 + 0) with (V * 2 ^ k) in Herr by lia.
  rewrite Z.mul_1_r in Herr.
  replace (Zpos R * 2 ^ c * 2 ^ k - V * 2 ^ k) with ((Zpos R * 2 ^ c - V) * 2 ^ k) in Herr by ring.
  rewrite Z.abs_mul, (Z.abs_eq (2 ^ k)) in Herr by lia.
  assert (Hexact : Zpos R * 2 ^ c = V) by nia.
  destruct Hc as [-> | ->].
  - rewrite Z.pow_0_r, Z.mul_1_r in Hexact. rewrite <- Hexact, Pos2Z.id.
    f_equal. lia.
  - exfalso. change (2 ^ 1) with 2 in Hexact. lia.
Qed.

Lemma shl_align_value (mx : positive) (ex ez : Z) :
  ez <= ex -> Zpos (fst (shl_align mx ex ez)) = Zpos mx * 2 ^ (ex - ez).
Proof.
  intros H. unfold shl_align.
  destruct (ez - ex) as [| d | d] eqn:E; try lia.
  - replace (ex - ez) with 0 by lia. cbn [fst]. lia.
  - cbn [fst]. rewrite iter_xO_value. f_equal. f_equal. lia.
Qed.

(** [binary_round] of a mantissa and a non-positive exponent that stand for
    the integer [v] of at most 53 bits gives the normal form of [v]. *)
Lemma binary_round_integer s (m v : positive) (e : Z) :
  let d := Zpos (digits2_pos v) in
  d <= 53 -> e <= 0 -> -1000 <= e -> Zpos m = Zpos v * 2 ^ (- e) ->
  binary_round 53 1024 s m e
    = S754_finite s (Z.to_pos (Zpos v * 2 ^ (53 - d))) (d - 53).
Proof.
  intros d Hd He He' Hm.
  pose proof (normalized_mantissa v Hd) as HV. fold d in HV.
  pose proof (digits2_pos_bounds v) as Hvb. fold d in Hvb.
  assert (Hdpos : 0 < d) by (unfold d; lia).
  assert (H2e : 0 < 2 ^ (- e)) by (apply Z.pow_pos_nonneg; lia).
  assert (Hdm : Zpos (digits2_pos m) = d - e).
  { change (Zdigits2 (Zpos m) = d - e). apply Zdigits2_unique; [| lia].
    rewrite Hm. replace (d - e - 1) with ((d - 1) + - e) by lia.
    replace (d - e) with (d + - e) by lia.
    rewrite !Z.pow_add_r by lia. nia. }
  unfold binary_round, shl_align. rewrite Hdm.
  replace (d - e + e) with d by lia. rewrite fexp64 by lia.
  destruct (d - 53 - e) as [| k | k] eqn:Ek.
  - replace (d - 53) with (e + 0) by lia.
    apply binary_round_aux_shifted; try lia.
    rewrite Hm, Z.pow_0_r, Z.mul_1_r. f_equal. f_equal. lia.
  - replace (d - 53) with (e + Zpos k) by lia.
    apply binary_round_aux_shifted; try lia.
    rewrite Hm. rewrite <- Z.mul_assoc, <- Z.pow_add_r by lia. f_equal. f_equal. lia.
  - assert (Hv := iter_xO_value m k).
    assert (Heq : Zpos (Pos.iter xO m k) = Zpos v * 2 ^ (53 - d)).
    { rewrite Hv, Hm, <- Z.mul_assoc, <- Z.pow_add_r by lia. f_equal. f_equal. lia. }
    rewrite <- Heq, Pos2Z.id.
    apply binary_round_aux_exact; [| lia].
    change (Zdigits2 (Zpos (Pos.iter xO m k)) = 53).
    apply Zdigits2_unique; lia.
Qed.

(** The product of two positive integers is exact while it fits 53 bits. *)
Lemma number_mul_exact (a b : Z) :
  0 < a -> 0 < b -> a * b < 2 ^ 53 ->
  number_mul (num a) (num b) = num (a * b).
Proof.
  intros Ha Hb Hab.
  destruct a as [| pa | pa]; try lia. destruct b as [| pb | pb]; try lia.
  assert (Hale : Zpos pa < 2 ^ 53) by nia.
  assert (Hble : Zpos pb < 2 ^ 53) by nia.
  pose proof (Zdigits2_range (Zpos pa) 0 53 ltac:(lia) ltac:(lia)) as Hda.
  pose proof (Zdigits2_range (Zpos pb) 0 53 ltac:(lia) ltac:(lia)) as Hdb.
  pose proof (Zdigits2_range (Zpos (pa * pb)) 0 53 ltac:(lia) ltac:(lia)) as Hdab.
  cbn [Zdigits2] in Hda, Hdb, Hdab.
  rewrite (num_pos pa), (num_pos pb) by lia.
  change (Zpos pa * Zpos pb) with (Zpos (pa * pb)). rewrite (num_pos (pa * pb)) by lia.
  pose proof (normalized_mantissa pa ltac:(lia)) as HMa.
  pose proof (normalized_mantissa pb ltac:(lia)) as HMb.
  pose proof (normalized_mantissa (pa * pb) ltac:(lia)) as HMab.
  set (da := Zpos (digits2_pos pa)) in *.
  set (db := Zpos (digits2_pos pb)) in *.
  set (dab := Zpos (digits2_pos (pa * pb))) in *.
  set (Ma := Z.to_pos (Zpos pa * 2 ^ (53 - da))).
  set (Mb := Z.to_pos (Zpos pb * 2 ^ (53 - db))).
  assert (HMav : Zpos Ma = Zpos pa * 2 ^ (53 - da)) by (unfold Ma; rewrite Z2Pos.id; lia).
  assert (HMbv : Zpos Mb = Zpos pb * 2 ^ (53 - db)) by (unfold Mb; rewrite Z2Pos.id; lia).
  unfold number_mul, SFmul. cbn [xorb].
  (* the product of the mantissas is the normal mantissa of a * b, shifted *)
  assert (Hprod : Zpos (Ma * Mb) = Zpos (pa * pb) * 2 ^ (106 - da - db)).
  { rewrite !Pos2Z.inj_mul, HMav, HMbv.
    replace (106 - da - db) with ((53 - da) + (53 - db)) by lia.
    rewrite Z.pow_add_r by lia. ring. }
  assert (Hk : 0 <= dab + 53 - da - db).
  { (* 2^104 <= Ma * Mb < 2^(dab + 106 - da - db) *)
    pose proof (digits2_pos_bounds (pa * pb)) as Hb'. fold dab in Hb'.
    assert (Zpos (Ma * Mb) < 2 ^ (dab + (106 - da - db))).
    { rewrite Hprod, Z.pow_add_r by lia.
      apply Z.mul_lt_mono_pos_r; [apply Z.pow_pos_nonneg |]; lia. }
    assert (2 ^ 104 <= Zpos (Ma * Mb)) by (rewrite Pos2Z.inj_mul; nia).
    destruct (Z_lt_le_dec (dab + 53 - da - db) 0) as [C |]; [| assumption].
    assert (2 ^ (dab + (106 - da - db)) <= 2 ^ 104) by (apply Z.pow_le_mono_r; lia).
    lia. }
  replace (dab - 53) with ((da - 53 + (db - 53)) + (dab + 53 - da - db)) by lia.
  apply binary_round_aux_shifted; try lia.
  rewrite Hprod, <- Z.mul_assoc, <- Z.pow_add_r by lia.
  f_equal. f_equal. lia.
Qed.

(** The sum of two positive integers is exact while it fits 53 bits. *)
Lemma number_add_exact (a b : Z) :
  0 < a -> 0 < b -> a + b < 2 ^ 53 ->
  number_add (num a) (num b) = num (a + b).
Proof.
  intros Ha Hb Hab.
  destruct a as [| pa | pa]; try lia. destruct b as [| pb | pb]; try lia.
  pose proof (Zdigits2_range (Zpos pa) 0 53 ltac:(lia) ltac:(lia)) as Hda.
  pose proof (Zdigits2_range (Zpos pb) 0 53 ltac:(lia) ltac:(lia)) as Hdb.
  pose proof (Zdigits2_range (Zpos (pa + pb)) 0 53 ltac:(lia) ltac:(lia)) as Hdab.
  cbn [Zdigits2] in Hda, Hdb, Hdab.
  rewrite (num_pos pa), (num_pos pb) by lia.
  change (Zpos pa + Zpos pb) with (Zpos (pa + pb)). rewrite (num_pos (pa + pb)) by lia.
  pose proof (normalized_mantissa pa ltac:(lia)) as HMa.
  pose proof (normalized_mantissa pb ltac:(lia)) as HMb.
  set (da := Zpos (digits2_pos pa)) in *.
  set (db := Zpos (digits2_pos pb)) in *.
  set (Ma := Z.to_pos (Zpos pa * 2 ^ (53 - da))).
  set (Mb := Z.to_pos (Zpos pb * 2 ^ (53 - db))).
  assert (HMav : Zpos Ma = Zpos pa * 2 ^ (53 - da)) by (unfold Ma; rewrite Z2Pos.id; lia).
  assert (HMbv : Zpos Mb = Zpos pb * 2 ^ (53 - db)) by (unfold Mb; rewrite Z2Pos.id; lia).
  unfold number_add, SFadd. cbn [cond_Zopp].
  set (ez := Z.min (da - 53) (db - 53)).
  assert (Hez : ez <= da - 53 /\ ez <= db - 53 /\ -53 <= ez <= 0) by (unfold ez; lia).
  rewrite !shl_align_value by lia.
  assert (Hsum : Zpos Ma * 2 ^ (da - 53 - ez) + Zpos Mb * 2 ^ (db - 53 - ez)
                 = Zpos (pa + pb) * 2 ^ (- ez)).
  { rewrite HMav, HMbv, <- !Z.mul_assoc, <- !Z.pow_add_r by lia.
    replace (53 - da + (da - 53 - ez)) with (- ez) by lia.
    replace (53 - db + (db - 53 - ez)) with (- ez) by lia.
    rewrite Pos2Z.inj_add. ring. }
  rewrite Hsum.
  assert (H2e : 0 < 2 ^ (- ez)) by (apply Z.pow_pos_nonneg; lia).
  destruct (Zpos (pa + pb) * 2 ^ (- ez)) as [| ps | ps] eqn:Es; try lia.
  cbn [binary_normalize].
  apply binary_round_integer; lia.
Qed.

(** *** The numbers [num z] *)

Lemma ToBoolean_num (v : Z) : 0 < v < 2 ^ 53 -> ToBoolean (num v) = true.
Proof.
  intros Hv. destruct v as [| p | p]; try lia.
  pose proof (Zdigits2_range (Zpos p) 0 53 ltac:(lia) ltac:(lia)) as Hd.
  cbn [Zdigits2] in Hd. rewrite (num_pos p) by lia. reflexivity.
Qed.

(** [num z] stands for [z] while [z] fits 53 bits. *)
Lemma number_value_num (z : Z) :
  - 2 ^ 53 < z < 2 ^ 53 -> (number_value (num z) == inject_Z z)%Q.
Proof.
  intros Hz. destruct z as [| p | p]; [reflexivity | |].
  - pose proof (Zdigits2_range (Zpos p) 0 53 ltac:(lia) ltac:(lia)) as Hd.
    cbn [Zdigits2] in Hd. rewrite (num_pos p) by lia.
    pose proof (normalized_mantissa p ltac:(lia)) as HM.
    set (d := Zpos (digits2_pos p)) in *. unfold number_value. cbn [cond_Zopp].
    assert (H2 : 0 < 2 ^ (53 - d)) by (apply Z.pow_pos_nonneg; lia).
    destruct (Z.leb_spec 0 (d - 53)).
    + replace (d - 53) with 0 by lia. replace (53 - d) with 0 by lia.
      rewrite Z2Pos.id by lia. rewrite !Z.pow_0_r, !Z.mul_1_r. reflexivity.
    + unfold Qeq. cbn [Qnum Qden inject_Z].
      replace (- (d - 53)) with (53 - d) by lia.
      rewrite !Z2Pos.id by lia. lia.
  - pose proof (Zdigits2_range (Zpos p) 0 53 ltac:(lia) ltac:(lia)) as Hd.
    cbn [Zdigits2] in Hd.
    unfold num, binary_normalize. rewrite binary_round_small by lia.
    pose proof (normalized_mantissa p ltac:(lia)) as HM.
    set (d := Zpos (digits2_pos p)) in *. unfold number_value. cbn [cond_Zopp].
    assert (H2 : 0 < 2 ^ (53 - d)) by (apply Z.pow_pos_nonneg; lia).
    destruct (Z.leb_spec 0 (d - 53)).
    + replace (d - 53) with 0 by lia. replace (53 - d) with 0 by lia.
      rewrite Z2Pos.id by lia. rewrite !Z.pow_0_r, !Z.mul_1_r. reflexivity.
    + unfold Qeq. cbn [Qnum Qden inject_Z].
      replace (- (d - 53)) with (53 - d) by lia.
      rewrite !Z2Pos.id by lia. lia.
Qed.

(** *** The results of an operation have at most 53 bits *)

Lemma shr_m_iter (mrs : shr_record) (n : nat) :
  0 <= shr_m mrs -> shr_m (Nat.iter n shr_1 mrs) = shr_m mrs / 2 ^ Z.of_nat n.
Proof.
  intros Hm. induction n as [| n IH].
  - change (Z.of_nat 0) with 0. rewrite Z.pow_0_r, Z.div_1_r. reflexivity.
  - rewrite Nat.iter_succ.
    assert (Hn : 0 <= shr_m (Nat.iter n shr_1 mrs)).
    { rewrite IH. apply Z.div_pos; [assumption | apply Z.pow_pos_nonneg; lia]. }
    destruct (Nat.iter n shr_1 mrs) as [m r s] eqn:E. cbn [shr_m] in *.
    rewrite shr_1_nonneg by assumption. cbn [shr_m].
    rewrite IH, Nat2Z.inj_succ, Z.pow_succ_r by lia.
    assert (0 < 2 ^ Z.of_nat n) by (apply Z.pow_pos_nonneg; lia).
    rewrite (Z.mul_comm 2), Z.div_div by lia. reflexivity.
Qed.

Lemma shr_fexp_small (m e : Z) (l : location) :
  0 <= m ->
  0 <= shr_m (fst (shr_fexp 53 1024 m e l)) < 2 ^ 53 \/
  (shr_m (fst (shr_fexp 53 1024 m e l)) = m /\ Zdigits2 m <= 53).
Proof.
  intros Hm. unfold shr_fexp.
  set (n := fexp 53 1024 (Zdigits2 m + e) - e).
  assert (Hn : Zdigits2 m - 53 <= n) by (unfold n, fexp; lia).
  destruct n as [| p | p] eqn:En.
  - right. cbn [shr fst]. rewrite shr_m_of_loc. split; [reflexivity | lia].
  - left. cbn [shr fst]. rewrite iter_pos_nat, shr_m_iter, shr_m_of_loc, positive_nat_Z
      by (rewrite shr_m_of_loc; assumption).
    assert (H2p : 0 < 2 ^ Zpos p) by (apply Z.pow_pos_nonneg; lia).
    split; [apply Z.div_pos; lia |].
    apply Z.div_lt_upper_bound; [assumption |].
    destruct (Z.eq_dec m 0) as [-> | Hne]; [lia |].
    destruct (Zdigits2_bounds m ltac:(lia)) as [_ Hlt].
    assert (2 ^ Zdigits2 m <= 2 ^ (Zpos p + 53)).
    { apply Z.pow_le_mono_r; lia. }
    rewrite Z.pow_add_r in * by lia. lia.
  - right. cbn [shr fst]. rewrite shr_m_of_loc. split; [reflexivity | lia].
Qed.

Lemma Zdigits2_small (m : Z) : 0 <= m -> Zdigits2 m <= 53 -> m < 2 ^ 53.
Proof.
  intros Hm Hd. destruct (Z.eq_dec m 0) as [-> | Hne]; [lia |].
  destruct (Zdigits2_bounds m ltac:(lia)) as [_ Hlt].
  assert (0 < Zdigits2 m) by (destruct m; cbn [Zdigits2] in *; lia).
  assert (2 ^ Zdigits2 m <= 2 ^ 53) by (apply Z.pow_le_mono_r; lia). lia.
Qed.

Lemma binary_round_aux_small s (m e : Z) (l : location) :
  0 <= m -> Spec.small_mantissa (binary_round_aux 53 1024 s m e l).
Proof.
  intros Hm. unfold binary_round_aux.
  pose proof (shr_fexp_small m e l Hm) as H1.
  destruct (shr_fexp 53 1024 m e l) as [mrs1 e1]. cbn [fst] in H1.
  assert (Hm1 : 0 <= shr_m mrs1 < 2 ^ 53).
  { destruct H1 as [H1 | [-> Hd]]; [assumption |].
    split; [assumption | now apply Zdigits2_small]. }
  set (R0 := round_nearest_even (shr_m mrs1) (loc_of_shr_record mrs1)).
  assert (HR0 : 0 <= R0 <= 2 ^ 53).
  { unfold R0, round_nearest_even.
    destruct (loc_of_shr_record mrs1) as [| [| |]]; try destruct (Z.even _); lia. }
  pose proof (shr_fexp_small R0 e1 loc_Exact ltac:(lia)) as H2.
  destruct (shr_fexp 53 1024 R0 e1 loc_Exact) as [mrs2 e2]. cbn [fst] in H2.
  assert (Hm2 : 0 <= shr_m mrs2 < 2 ^ 53).
  { destruct H2 as [H2 | [-> Hd]]; [assumption |].
    split; [lia | apply Zdigits2_small; lia]. }
  destruct (shr_m mrs2) as [| p | p]; cbn [Spec.small_mantissa]; try exact I.
  destruct (e2 <=? 1024 - 53); cbn [Spec.small_mantissa]; [lia | exact I].
Qed.

Lemma number_mul_small (x y : number) : Spec.small_mantissa (number_mul x y).
Proof.
  destruct x as [sx | sx | | sx mx ex], y as [sy | sy | | sy my ey];
    cbn [number_mul SFmul Spec.small_mantissa]; try exact I.
  unfold number_mul, SFmul. apply binary_round_aux_small. lia.
Qed.

(** *** [Math.round] *)

Lemma number_value_normalize (k : Z) (s : bool) :
  - 2 ^ 53 < k < 2 ^ 53 ->
  is_finite (binary_normalize 53 1024 k 0 s) = true /\
  (number_value (binary_normalize 53 1024 k 0 s) == inject_Z k)%Q.
Proof.
  intros Hk. destruct k as [| p | p]; [split; reflexivity | |].
  - pose proof (number_value_num (Zpos p) Hk) as Hv.
    pose proof (Zdigits2_range (Zpos p) 0 53 ltac:(lia) ltac:(lia)) as Hd.
    cbn [Zdigits2] in Hd. unfold num in Hv. cbn [binary_normalize] in *.
    split; [| exact Hv]. now rewrite binary_round_small by lia.
  - pose proof (number_value_num (Zneg p) Hk) as Hv.
    pose proof (Zdigits2_range (Zpos p) 0 53 ltac:(lia) ltac:(lia)) as Hd.
    cbn [Zdigits2] in Hd. unfold num in Hv. cbn [binary_normalize] in *.
    split; [| exact Hv]. now rewrite binary_round_small by lia.
Qed.

(** [Math.round] of a finite number is the floor of the number plus one
    half. *)
Lemma Math_round_value (x : number) :
  Spec.small_mantissa x -> is_finite x = true ->
  is_finite (Math_round x) = true /\
  (number_value (Math_round x) == inject_Z (Qfloor (number_value x + (1 # 2))))%Q.
Proof.
  intros Hsmall Hfin.
  destruct x as [s | s | | s m e]; try discriminate.
  - split; reflexivity.
  - cbn [Spec.small_mantissa] in Hsmall. unfold Math_round, number_value.
    destruct (Z.leb_spec 0 e) as [He | He].
    + split; [reflexivity |].
      cbn [number_value]. rewrite (proj2 (Z.leb_le 0 e) He).
      set (M := cond_Zopp s (Zpos m) * 2 ^ e).
      unfold Qfloor, Qplus, inject_Z. cbn [Qnum Qden].
      replace (M * 2 + 1 * 1) with (1 + M * 2) by ring.
      rewrite Z.div_add by lia. reflexivity.
    + set (b := - e). assert (Hb : 1 <= b) by (unfold b; lia).
      replace (- e - 1) with (b - 1) by (unfold b; lia).
      set (Ms := cond_Zopp s (Zpos m)).
      assert (HMs : - 2 ^ 53 < Ms < 2 ^ 53) by (unfold Ms; destruct s; cbn [cond_Zopp]; lia).
      assert (H2 : 2 ^ b = 2 * 2 ^ (b - 1)).
      { rewrite <- Z.pow_succ_r by lia. f_equal. lia. }
      assert (Hh : 0 < 2 ^ (b - 1)) by (apply Z.pow_pos_nonneg; lia).
      set (k := (Ms + 2 ^ (b - 1)) / 2 ^ b).
      assert (Hk : - 2 ^ 53 < k < 2 ^ 53).
      { pose proof (Z.div_mod (Ms + 2 ^ (b - 1)) (2 ^ b) ltac:(lia)) as Hdm.
        pose proof (Z.mod_pos_bound (Ms + 2 ^ (b - 1)) (2 ^ b) ltac:(lia)) as Hr.
        fold k in Hdm. nia. }
      destruct (number_value_normalize k s Hk) as [Hf Hv].
      split; [exact Hf |]. rewrite Hv.
      unfold Qfloor, Qplus. cbn [Qnum Qden].
      rewrite Pos2Z.inj_mul, Z2Pos.id by lia.
      apply inject_Z_injective.
      unfold k. rewrite H2.
      replace (Ms * 2 + 1 * (2 * 2 ^ (b - 1))) with (2 * (Ms + 2 ^ (b - 1))) by ring.
      replace (2 * 2 ^ (b - 1) * 2) with (2 * (2 * 2 ^ (b - 1))) by ring.
      rewrite Z.div_mul_cancel_l by lia. reflexivity.
Qed.

End Binary64.


(** ** The minimum balance *)

Section MinBalance.
Import Spec.
Local Open Scope Z_scope.

(** One [if (params.f) minBalance += params.f * PER] on integer values. *)
Lemma add_reserve_exact (acc c per : Z) :
  0 < acc -> 0 < per -> 0 <= c -> acc + c * per < 2 ^ 53 ->
  add_reserve (num acc) (Some (num c)) (num per) = num (acc + c * per).
Proof.
  intros Hacc Hper Hc Hsum. unfold add_reserve.
  destruct (Z.eq_dec c 0) as [-> | Hne].
  - cbn [num binary_normalize ToBoolean]. f_equal. lia.
  - assert (c <= c * per) by nia.
    rewrite ToBoolean_num by lia.
    rewrite number_mul_exact by nia.
    apply number_add_exact; nia.
Qed.

Lemma add_reserve_field (acc : Z) (field : option Z) (per : Z) :
  0 < acc -> 0 < per -> 0 <= count_of field ->
  acc + count_of field * per < 2 ^ 53 ->
  add_reserve (num acc) (num <$> field) (num per) = num (acc + count_of field * per).
Proof.
  destruct field as [c |]; cbn [fmap option_fmap option_map]; cbv [count_of from_option id].
  - apply add_reserve_exact.
  - intros _ _ _ _. cbn [add_reserve]. f_equal. lia.
Qed.

Lemma calculateMinBalance_counts (assets apps uints byteSlices boxes boxBytes : option Z) :
  0 <= count_of assets -> 0 <= count_of apps -> 0 <= count_of uints ->
  0 <= count_of byteSlices -> 0 <= count_of boxes -> 0 <= count_of boxBytes ->
  min_balance_formula assets apps uints byteSlices boxes boxBytes <= MAX_SAFE_INTEGER ->
  calculateMinBalance (Some (params_of_counts assets apps uints byteSlices boxes boxBytes))
    = num (min_balance_formula assets apps uints byteSlices boxes boxBytes).
Proof.
  intros H1 H2 H3 H4 H5 H6 Hmax.
  unfold min_balance_formula, MAX_SAFE_INTEGER in *.
  unfold calculateMinBalance, params_of_counts.
  cbv [from_option id].
  cbn [numAssets numApps numAppUints numAppByteSlices numBoxes totalBoxBytes].
  unfold MIN_BALANCE, MIN_BALANCE_PER_ASSET, MIN_BALANCE_PER_APP,
    MIN_BALANCE_PER_APP_UINT, MIN_BALANCE_PER_APP_BYTESLICE, MIN_BALANCE_PER_BOX,
    MIN_BALANCE_PER_BOX_BYTE.
  change (2 ^ 53) with 9007199254740992 in *.
  repeat (rewrite add_reserve_field; [| lia | lia | lia | change (2 ^ 53) with 9007199254740992; lia]).
  reflexivity.
Qed.

(** C2 (amended). For integer counts that are not negative, an omitted
    count being zero, [calculateMinBalance] returns exactly
    [100000 + assets * 100000 + apps * 100000 + uints * 25000
     + byteSlices * 25000 + boxes * 2500 + boxBytes * 400]
    whenever that sum does not exceed [Number.MAX_SAFE_INTEGER]; so
    [calculateMinBalance()] and [calculateMinBalance({})] are 100000 and
    [calculateMinBalance({numAssets: 5})] is 600000. *)
Theorem calculateMinBalance_formula :
  (forall assets apps uints byteSlices boxes boxBytes : option Z,
     0 <= count_of assets -> 0 <= count_of apps -> 0 <= count_of uints ->
     0 <= count_of byteSlices -> 0 <= count_of boxes -> 0 <= count_of boxBytes ->
     min_balance_formula assets apps uints byteSlices boxes boxBytes <= MAX_SAFE_INTEGER ->
     calculateMinBalance
       (Some (params_of_counts assets apps uints byteSlices boxes boxBytes))
     = num (min_balance_formula assets apps uints byteSlices boxes boxBytes) /\
     Qeq (number_value (num (min_balance_formula assets apps uints byteSlices boxes boxBytes)))
      (inject_Z (min_balance_formula assets apps uints byteSlices boxes boxBytes))) /\
  calculateMinBalance None = num 100000 /\
  calculateMinBalance (Some no_params) = num 100000 /\
  calculateMinBalance (Some (params_of_counts (Some 5) None None None None None))
    = num 600000.
Proof.
  split; [| repeat split].
  intros assets apps uints byteSlices boxes boxBytes H1 H2 H3 H4 H5 H6 Hmax.
  split.
  - now apply calculateMinBalance_counts.
  - apply number_value_num.
    unfold min_balance_formula, MAX_SAFE_INTEGER in *.
    change (2 ^ 53) with 9007199254740992. lia.
Qed.

(** Two assets and one application, the third example of the
    specification. *)
Lemma calculateMinBalance_formula_witness :
  calculateMinBalance (Some (params_of_counts (Some 2) (Some 1) None None None None))
    = num 400000.
Proof.
  apply (proj1 calculateMinBalance_formula (Some 2) (Some 1) None None None None);
    vm_compute; congruence.
Defined.

(** Beyond the safe integers the products and sums are rounded: with
    [2^53 - 1] boxes the result is 22517998136852574208, the formula gives
    22517998136852577500. *)
Lemma calculateMinBalance_counterexample :
  Qeq (number_value (num 9007199254740991))
      (inject_Z 9007199254740991) /\
  Qeq (number_value
     (calculateMinBalance
        (Some (params_of_counts None None None None (Some 9007199254740991) None))))
      (inject_Z 22517998136852574208) /\
  min_balance_formula None None None None (Some 9007199254740991) None
    = 22517998136852577500.
Proof. repeat split; vm_compute; reflexivity. Qed.

End MinBalance.

(** ** Strings *)

Section Strings.
Import Phrases.
Local Open Scope string_scope.

Lemma length_append (a b : string) :
  String.length (a ++ b) = (String.length a + String.length b)%nat.
Proof. induction a as [| c a IH]; simpl; [reflexivity | now rewrite IH]. Qed.

Lemma append_cons (c : ascii) (a b : string) : String c a ++ b = String c (a ++ b).
Proof. reflexivity. Qed.

Lemma startsWith_spec (s p : string) :
  startsWith s p = true <-> starts_with s p.
Proof.
  unfold startsWith, starts_with. revert s.
  induction p as [| c p IH]; intros s.
  - destruct s; simpl; split; eauto.
  - destruct s as [| c' s]; simpl.
    + split; [discriminate | intros [rest H]; discriminate].
    + destruct (ascii_dec c c') as [-> | Hne].
      * rewrite IH. split; intros [rest H]; exists rest.
        -- now rewrite H.
        -- now injection H.
      * split; [discriminate | intros [rest H]]. injection H as H1 _. congruence.
Qed.

Lemma startsWith_append (p rest : string) : startsWith (p ++ rest) p = true.
Proof. apply startsWith_spec. now exists rest. Qed.

Lemma slice_append (p rest : string) : slice (p ++ rest) (String.length p) = rest.
Proof. induction p as [| c p IH]; simpl; [now destruct rest | exact IH]. Qed.

(** What [slice] cuts off is a prefix of the string. *)
Lemma slice_split (s : string) (n : nat) :
  (n <= String.length s)%nat ->
  exists front, s = front ++ slice s n /\ String.length front = n.
Proof.
  revert s. induction n as [| n IH]; intros s Hn.
  - exists "". now destruct s.
  - destruct s as [| c s]; simpl in Hn; [lia |].
    destruct (IH s ltac:(lia)) as (front & Hs & Hl).
    exists (String c front). rewrite append_cons. simpl. split; [now rewrite <- Hs | now rewrite Hl].
Qed.

Lemma endsWith_spec (s x : string) : endsWith s x = true <-> ends_with s x.
Proof.
  unfold endsWith, ends_with. rewrite andb_true_iff, Nat.leb_le, String.eqb_eq.
  split.
  - intros [Hle Hx].
    destruct (slice_split s (String.length s - String.length x) ltac:(lia))
      as (front & Hs & _).
    exists front. now rewrite <- Hx.
  - intros [front ->]. rewrite length_append. split; [lia |].
    replace (String.length front + String.length x - String.length x)%nat
      with (String.length front) by lia.
    apply slice_append.
Qed.

Lemma includes_spec (s x : string) : includes s x = true <-> contains s x.
Proof.
  unfold contains. induction s as [| c s IH].
  - cbn [includes]. rewrite orb_false_r. fold (startsWith "" x).
    rewrite startsWith_spec. split.
    + intros [rest H]. now exists "", rest.
    + intros (front & rest & H). destruct front; [now exists rest | discriminate].
  - cbn [includes]. rewrite orb_true_iff, IH. fold (startsWith (String c s) x).
    rewrite startsWith_spec. split.
    + intros [[rest H] | (front & rest & H)].
      * now exists "", rest.
      * exists (String c front), rest. rewrite append_cons. now rewrite H.
    + intros (front & rest & H). destruct front as [| c' front].
      * left. now exists rest.
      * right. rewrite append_cons in H. injection H as _ H. now exists front, rest.
Qed.

(** A prefix of [g ++ rest] is a prefix of [g], or [g] is a prefix of it. *)
Lemma startsWith_append_inv (g rest p : string) :
  startsWith (g ++ rest) p = true ->
  startsWith g p = true \/ startsWith p g = true.
Proof.
  unfold startsWith. revert g. induction p as [| c p IH]; intros g H.
  - left. now destruct g.
  - destruct g as [| c' g].
    + right. reflexivity.
    + simpl in H |- *. destruct (ascii_dec c c') as [-> | Hne]; [| discriminate].
      destruct (ascii_dec c' c') as [_ | Hne]; [| congruence].
      now apply IH.
Qed.

End Strings.

(** ** The ARC classifier and the gateway rewrite *)

Section ArcsProperties.
Import Arcs Phrases.
Local Open Scope string_scope.

Lemma url_has_marker_iff (url : option string) :
  url_has_marker url <->
  exists u, url = Some u /\ (endsWith u "#arc3" || includes u "arc3") = true.
Proof.
  unfold url_has_marker. split; intros (u & Hu & H); exists u; (split; [exact Hu |]).
  - rewrite orb_true_iff, endsWith_spec, includes_spec. exact H.
  - rewrite orb_true_iff, endsWith_spec, includes_spec in H. exact H.
Qed.

Lemma url_is_template_iff (url : option string) :
  url_is_template url <->
  exists u, url = Some u /\ startsWith u "template-ipfs://" = true.
Proof.
  unfold url_is_template.
  split; intros (u & Hu & H); exists u; (split; [exact Hu |]);
    now apply startsWith_spec.
Qed.

Lemma name_has_suffix_iff (name : option string) :
  name_has_suffix name <-> exists n, name = Some n /\ endsWith n "@arc3" = true.
Proof.
  unfold name_has_suffix.
  split; intros (n & Hn & H); exists n; (split; [exact Hn |]);
    now apply endsWith_spec.
Qed.

(** The empty string, which the truthiness tests skip, carries no marker. *)
Lemma detectArcStandard_cases (url name : option string) :
  detectArcStandard url name =
    match url with
    | Some u =>
        if endsWith u "#arc3" || includes u "arc3" then ARC3
        else if startsWith u "template-ipfs://" then ARC19
        else match name with
             | Some n => if endsWith n "@arc3" then ARC3 else unknown
             | None => unknown
             end
    | None =>
        match name with
        | Some n => if endsWith n "@arc3" then ARC3 else unknown
        | None => unknown
        end
    end.
Proof.
  unfold detectArcStandard.
  assert (Hname : match name with
                  | Some n => if truthy_string name && endsWith n "@arc3" then ARC3 else unknown
                  | None => unknown
                  end
                  = match name with
                    | Some n => if endsWith n "@arc3" then ARC3 else unknown
                    | None => unknown
                    end).
  { destruct name as [[| c n] |]; reflexivity. }
  rewrite Hname. destruct url as [[| c u] |]; reflexivity.
Qed.

(** C3. [detectArcStandard] is a function on every pair of optional
    strings and classifies in the order of the specification: a URL that
    ends with ["#arc3"] or contains ["arc3"] is ARC3; otherwise a URL that
    starts with ["template-ipfs://"] is ARC19; otherwise a name that ends
    with ["@arc3"] is ARC3; otherwise the result is [unknown]. *)
Theorem detectArcStandard_priority (url name : option string) :
  (url_has_marker url -> detectArcStandard url name = ARC3) /\
  (~ url_has_marker url -> url_is_template url ->
   detectArcStandard url name = ARC19) /\
  (~ url_has_marker url -> ~ url_is_template url -> name_has_suffix name ->
   detectArcStandard url name = ARC3) /\
  (~ url_has_marker url -> ~ url_is_template url -> ~ name_has_suffix name ->
   detectArcStandard url name = unknown).
Proof.
  rewrite url_has_marker_iff, url_is_template_iff, name_has_suffix_iff.
  rewrite detectArcStandard_cases.
  destruct url as [u |].
  - destruct (endsWith u "#arc3" || includes u "arc3") eqn:Hmark.
    + repeat split; try reflexivity; intros Hno; exfalso; apply Hno; eauto.
    + destruct (startsWith u "template-ipfs://") eqn:Htemplate.
      * repeat split; try reflexivity.
        -- intros (u' & [= <-] & H). congruence.
        -- intros _ Hno. exfalso. apply Hno. eauto.
        -- intros _ Hno. exfalso. apply Hno. eauto.
      * destruct name as [n |]; [destruct (endsWith n "@arc3") eqn:Hsuffix |];
          repeat split; try reflexivity.
        all: try (intros (u' & [= <-] & H); congruence).
        all: try (intros _ (u' & [= <-] & H); congruence).
        all: try (intros _ _ (n' & [= <-] & H); congruence).
        all: try (intros _ _ (n' & [=] & H)).
        all: try (intros _ _ Hno; exfalso; apply Hno; eauto).
  - destruct name as [n |]; [destruct (endsWith n "@arc3") eqn:Hsuffix |];
      repeat split; try reflexivity.
    all: try (intros (u' & [=] & H)).
    all: try (intros _ (u' & [=] & H)).
    all: try (intros _ _ (n' & [= <-] & H); congruence).
    all: try (intros _ _ (n' & [=] & H)).
    all: try (intros _ _ Hno; exfalso; apply Hno; eauto).
Qed.

(** The three examples of the specification, through the theorem. *)
Lemma detectArcStandard_priority_witness :
  detectArcStandard (Some "ipfs://QmHash#arc3") (Some "MyNFT") = ARC3 /\
  detectArcStandard (Some "template-ipfs://{ipfscid}") (Some "MyNFT") = ARC19 /\
  detectArcStandard (Some "https://example.com/nft.json") (Some "MyNFT") = unknown.
Proof.
  split; [| split].
  - apply (proj1 (detectArcStandard_priority _ _)).
    exists "ipfs://QmHash#arc3". split; [reflexivity |]. left. now exists "ipfs://QmHash".
  - apply (proj1 (proj2 (detectArcStandard_priority _ _))).
    + rewrite url_has_marker_iff. intros (u & [= <-] & H). vm_compute in H. discriminate.
    + exists "template-ipfs://{ipfscid}". split; [reflexivity |]. now exists "{ipfscid}".
  - apply (proj2 (proj2 (proj2 (detectArcStandard_priority _ _)))).
    + rewrite url_has_marker_iff. intros (u & [= <-] & H). vm_compute in H. discriminate.
    + rewrite url_is_template_iff. intros (u & [= <-] & H). vm_compute in H. discriminate.
    + rewrite name_has_suffix_iff. intros (n & [= <-] & H). vm_compute in H. discriminate.
Defined.

(** A URL with the scheme becomes the gateway followed by what comes after
    the scheme. *)
Lemma ipfsToHttp_rewrites (url : string) (gateway : option string) (rest : string) :
  url = "ipfs://" ++ rest ->
  ipfsToHttp url gateway = default DEFAULT_GATEWAY gateway ++ rest.
Proof.
  intros ->. unfold ipfsToHttp. rewrite startsWith_append.
  f_equal. exact (slice_append "ipfs://" rest).
Qed.

(** A URL without the scheme is returned as it is. *)
Lemma ipfsToHttp_other (url : string) (gateway : option string) :
  ~ starts_with url "ipfs://" -> ipfsToHttp url gateway = url.
Proof.
  intros Hno. unfold ipfsToHttp.
  destruct (startsWith url "ipfs://") eqn:H; [| reflexivity].
  exfalso. apply Hno. now apply startsWith_spec.
Qed.

(** C4 (amended). [ipfsToHttp] rewrites ["ipfs://" ++ rest] to the gateway
    followed by [rest] and returns every other URL unchanged; applied twice
    with the same gateway it gives the result of one application, for every
    URL and every gateway that neither starts with ["ipfs://"] nor is a
    prefix of it. *)
Theorem ipfsToHttp_idempotent (url : string) (gateway : option string) :
  (forall rest, url = "ipfs://" ++ rest ->
     ipfsToHttp url gateway = default DEFAULT_GATEWAY gateway ++ rest) /\
  (~ starts_with url "ipfs://" -> ipfsToHttp url gateway = url) /\
  (startsWith (default DEFAULT_GATEWAY gateway) "ipfs://" = false ->
   startsWith "ipfs://" (default DEFAULT_GATEWAY gateway) = false ->
   ipfsToHttp (ipfsToHttp url gateway) gateway = ipfsToHttp url gateway).
Proof.
  split; [| split].
  - intros rest. apply ipfsToHttp_rewrites.
  - apply ipfsToHttp_other.
  - intros Hg1 Hg2.
    destruct (startsWith url "ipfs://") eqn:Hurl.
    + apply startsWith_spec in Hurl. destruct Hurl as [rest ->].
      rewrite (ipfsToHttp_rewrites _ gateway rest eq_refl).
      apply ipfsToHttp_other. intros Hstart. apply startsWith_spec in Hstart.
      apply startsWith_append_inv in Hstart. destruct Hstart; congruence.
    + unfold ipfsToHttp. now rewrite !Hurl.
Qed.

(** The example of the specification, with the default gateway. *)
Lemma ipfsToHttp_idempotent_witness :
  ipfsToHttp "ipfs://Qm123" (Some "https://ipfs.io/ipfs/") = "https://ipfs.io/ipfs/Qm123" /\
  ipfsToHttp (ipfsToHttp "ipfs://Qm123" None) None = ipfsToHttp "ipfs://Qm123" None.
Proof.
  split.
  - apply (proj1 (ipfsToHttp_idempotent "ipfs://Qm123" (Some "https://ipfs.io/ipfs/"))
             "Qm123" eq_refl).
  - apply (proj2 (proj2 (ipfsToHttp_idempotent "ipfs://Qm123" None))); reflexivity.
Defined.

(** With a gateway that itself starts with ["ipfs://"] the second
    application rewrites again. *)
Lemma ipfsToHttp_twice_counterexample :
  ipfsToHttp "ipfs://x" (Some "ipfs://a/") = "ipfs://a/x" /\
  ipfsToHttp (ipfsToHttp "ipfs://x" (Some "ipfs://a/")) (Some "ipfs://a/")
    = "ipfs://a/a/x".
Proof. split; reflexivity. Qed.

End ArcsProperties.

(** ** The unit conversions *)

Section UnitConversion.
Import Spec.
Local Open Scope Z_scope.

(** C1 (amended). For every integer [n] with
    [0 <= n < 4,294,967,296,000,011], converting [n] microAlgos to ALGO and
    back gives [n]: the division by 1,000,000 and the multiplication by
    1,000,000 are each rounded to a double, and [Math.round] of the result
    is [n]. Below [2^32 * 10^6] this follows from the error bounds of the
    two operations; the eleven values from there on are evaluated. *)
Theorem microAlgo_roundtrip (n : Z) :
  0 <= n < 4294967296000011 ->
  algoToMicroAlgo (microAlgoToAlgo (num n)) = num n.
Proof.
  intros Hn.
  destruct (Z.eq_dec n 0) as [-> | Hn0]; [reflexivity |].
  destruct (Z_lt_le_dec n 4294967296000000) as [Hlt | Hge].
  - apply roundtrip_normal. lia.
  - assert (Hcases : n = 4294967296000000 \/ n = 4294967296000001 \/
                     n = 4294967296000002 \/ n = 4294967296000003 \/
                     n = 4294967296000004 \/ n = 4294967296000005 \/
                     n = 4294967296000006 \/ n = 4294967296000007 \/
                     n = 4294967296000008 \/ n = 4294967296000009 \/
                     n = 4294967296000010) by lia.
    repeat (destruct Hcases as [-> | Hcases]; [vm_compute; reflexivity |]).
    subst n. vm_compute. reflexivity.
Qed.

Lemma microAlgo_roundtrip_witness :
  0 <= 1500000 < 4294967296000011 /\
  algoToMicroAlgo (microAlgoToAlgo (num 1500000)) = num 1500000.
Proof. split; [lia | apply microAlgo_roundtrip; lia]. Defined.

(** The first integer at which the round trip fails: 4,294,967,296,000,011
    microAlgos come back as 4,294,967,296,000,012. Both are below [2^53], so
    [num] stands for them exactly. *)
Lemma microAlgo_roundtrip_counterexample :
  Qeq (number_value (num 4294967296000011))
      (inject_Z 4294967296000011) /\
  algoToMicroAlgo (microAlgoToAlgo (num 4294967296000011)) = num 4294967296000012 /\
  Qeq (number_value (num 4294967296000012))
      (inject_Z 4294967296000012).
Proof. repeat split; vm_compute; reflexivity. Qed.

(** C5 (amended). [algoToMicroAlgo] never fails: the call returns
    [Math.round] of the double product [algo * 1000000] for every input. A
    [NaN] and the infinities come back as they are; and whenever the
    product is finite - for a negative input too - the result is the integer
    nearest to the product, a tie going towards [+Infinity]. *)
Theorem algoToMicroAlgo_never_fails (algo : number) :
  let product := number_mul algo MICROALGOS_PER_ALGO in
  call algoToMicroAlgo algo = Returns (Math_round product) /\
  (algo = NaN -> algoToMicroAlgo algo = NaN) /\
  (forall s, algo = S754_infinity s -> algoToMicroAlgo algo = S754_infinity s) /\
  (is_finite product = true ->
   is_finite (algoToMicroAlgo algo) = true /\
   Qeq (number_value (algoToMicroAlgo algo))
      (inject_Z (Qfloor (number_value product + (1 # 2))%Q))).
Proof.
  intros product. split; [reflexivity |]. split; [| split].
  - intros ->. reflexivity.
  - intros s ->. destruct s; reflexivity.
  - intros Hfin. unfold algoToMicroAlgo. fold product.
    apply Math_round_value; [apply number_mul_small | exact Hfin].
Qed.

(** [1.5] ALGO are 1500000 microAlgos. *)
Lemma algoToMicroAlgo_never_fails_witness :
  Qeq (number_value (algoToMicroAlgo (S754_finite false 6755399441055744 (-52))))
      (inject_Z 1500000).
Proof.
  destruct (algoToMicroAlgo_never_fails (S754_finite false 6755399441055744 (-52)))
    as (_ & _ & _ & H).
  destruct (H eq_refl) as [_ Hv]. rewrite Hv. vm_compute. reflexivity.
Defined.

(** A negative amount, [NaN] and [Infinity] are converted, not refused. *)
Lemma algoToMicroAlgo_counterexample :
  call algoToMicroAlgo (num (-1)) = Returns (num (-1000000)) /\
  call algoToMicroAlgo NaN = Returns NaN /\
  call algoToMicroAlgo Infinity = Returns Infinity.
Proof. repeat split; vm_compute; reflexivity. Qed.

(** The product is rounded before [Math.round] sees it: the double nearest
    to 0.0000005 is below 0.0000005, its exact product with 1000000 is below
    one half, and the result is 1. *)
Remark algoToMicroAlgo_rounds_twice :
  let x := S754_finite false 4722366482869645 (-73) in
  Qlt (number_value x * inject_Z 1000000)%Q (1 # 2)%Q /\
  algoToMicroAlgo x = num 1.
Proof. split; vm_compute; reflexivity. Qed.

End UnitConversion.

(** ** The SDK wrappers *)

Section SdkWrappers.
Import Algosdk.

(** C9. Whatever [algosdk.verifyBytes] does - return a boolean or throw, on
    any data, signature and address -, [verifySignature] returns a boolean:
    the boolean of the SDK, or [false] when the SDK threw. *)
Theorem verifySignature_total
    (algosdk_verifyBytes : list N -> list N -> string -> outcome bool)
    (data signature : list N) (address : string) :
  (exists b, verifySignature algosdk_verifyBytes data signature address = Returns b) /\
  (forall message,
     algosdk_verifyBytes data signature address = Throws message ->
     verifySignature algosdk_verifyBytes data signature address = Returns false) /\
  (forall b,
     algosdk_verifyBytes data signature address = Returns b ->
     verifySignature algosdk_verifyBytes data signature address = Returns b).
Proof.
  unfold verifySignature, try_catch.
  destruct (algosdk_verifyBytes data signature address) as [b | message].
  - split; [now exists b |]. split; [discriminate | now intros b' [= ->]].
  - split; [now exists false |]. split; [reflexivity | discriminate].
Qed.

(** With an SDK that rejects a malformed address by throwing. *)
Lemma verifySignature_total_witness :
  verifySignature
    (fun _ _ address =>
       if (String.length address =? 58)%nat then Returns true
       else Throws "address seems to be malformed")
    [1; 2; 3]%N [] "not-an-address" = Returns false.
Proof.
  apply (proj1 (proj2 (verifySignature_total _ [1; 2; 3]%N [] "not-an-address"))
           "address seems to be malformed").
  reflexivity.
Defined.

Lemma base32_bits_length (s : string) (bits : list bool) :
  base32_bits s = Some bits -> List.length bits = (5 * String.length s)%nat.
Proof.
  revert bits. induction s as [| c s IH]; intros bits H.
  - injection H as <-. reflexivity.
  - cbn [base32_bits] in H. destruct (base32_digit c) as [d |]; [| discriminate].
    destruct (base32_bits s) as [more |]; [| discriminate].
    injection H as <-. cbn [String.length List.length]. rewrite (IH more eq_refl). lia.
Qed.

Lemma bytes_of_bits_length (k : nat) (bits : list bool) :
  (8 * k <= List.length bits < 8 * k + 8)%nat ->
  List.length (bytes_of_bits bits) = k.
Proof.
  revert bits. induction k as [| k IH]; intros bits H.
  - do 8 (destruct bits as [| ? bits]; [reflexivity |]). cbn [List.length] in H. lia.
  - do 8 (destruct bits as [| ? bits]; [cbn [List.length] in H; lia |]).
    cbn [bytes_of_bits List.length]. f_equal. apply IH. cbn [List.length] in H. lia.
Qed.

(** The 58 characters of an address decode to 36 bytes: 32 of key, 4 of
    checksum. *)
Lemma base32_decode_address_length (address : string) (decoded : bytes) :
  String.length address = 58%nat -> base32_decode address = Some decoded ->
  List.length decoded = 36%nat.
Proof.
  intros Hlen H. unfold base32_decode in H.
  destruct (base32_bits address) as [bits |] eqn:Hbits; [| discriminate].
  injection H as <-. apply base32_bits_length in Hbits.
  apply bytes_of_bits_length. lia.
Qed.

(** C6. [isValidAddress] returns a boolean for every string, and returns
    [true] exactly for the strings of 58 characters whose base32 decoding
    is 32 public-key bytes followed by the 4 bytes of the checksum
    recomputed over them; in particular the empty string is invalid. *)
Theorem isValidAddress_checksum (checksum : bytes -> bytes) (address : string) :
  (exists b,
     UnitConverter.isValidAddress (Algosdk.isValidAddress checksum) address = Returns b) /\
  (UnitConverter.isValidAddress (Algosdk.isValidAddress checksum) address = Returns true <->
   String.length address = 58%nat /\
   exists pk cs,
     base32_decode address = Some (pk ++ cs) /\
     List.length pk = 32%nat /\ List.length cs = 4%nat /\ cs = checksum pk) /\
  UnitConverter.isValidAddress (Algosdk.isValidAddress checksum) "" = Returns false.
Proof.
  unfold UnitConverter.isValidAddress, Algosdk.isValidAddress, decodeAddress, try_catch,
    ALGORAND_ADDRESS_LENGTH, PUBLIC_KEY_LENGTH, CHECKSUM_LENGTH.
  split; [| split; [| reflexivity]].
  - destruct (negb _); [now exists false |].
    destruct (base32_decode address) as [decoded |]; [| now exists false].
    destruct (bool_decide _); [now exists true | now exists false].
  - destruct (Nat.eqb_spec (String.length address) 58) as [Hlen | Hlen]; cbn [negb].
    + destruct (base32_decode address) as [decoded |] eqn:Hdec.
      * destruct (bool_decide_reflect
                    (List.length (drop 32 decoded) = 4%nat /\
                     drop 32 decoded = checksum (take 32 decoded))) as [[Hcs Heq] | Hno].
        -- split; [intros _ | reflexivity]. split; [exact Hlen |].
           exists (take 32 decoded), (drop 32 decoded).
           rewrite take_drop. split; [reflexivity |].
           pose proof (base32_decode_address_length _ _ Hlen Hdec) as H36.
           rewrite length_take, H36. split; [lia |]. split; [exact Hcs | exact Heq].
        -- split; [discriminate |]. intros (_ & pk & cs & [= ->] & Hpk & Hcs & Heq).
           exfalso. apply Hno.
           rewrite <- Hpk, take_app_length, !drop_app_length. now split.
      * split; [discriminate |]. intros (_ & pk & cs & [=] & _).
    + split; [discriminate |]. intros [Hlen' _]. contradiction.
Qed.

(** The strings the unit tests reject, for any checksum function. *)
Lemma isValidAddress_rejects (checksum : bytes -> bytes) :
  UnitConverter.isValidAddress (Algosdk.isValidAddress checksum) "invalid-address" = Returns false /\
  UnitConverter.isValidAddress (Algosdk.isValidAddress checksum) "ABC123" = Returns false.
Proof. split; reflexivity. Qed.

(** With a checksum function that is constantly zero, the address of 58
    ['A'], which decodes to 36 zero bytes, is valid, and it is invalid once a
    character of its checksum part is changed. *)
Lemma isValidAddress_accepts :
  let checksum := fun _ : bytes => [0; 0; 0; 0]%N in
  UnitConverter.isValidAddress (Algosdk.isValidAddress checksum)
    "AAAAAAAAAAAAAAAAAAAAAAAAAAAAAAAAAAAAAAAAAAAAAAAAAAAAAAAAAA" = Returns true /\
  UnitConverter.isValidAddress (Algosdk.isValidAddress checksum)
    "AAAAAAAAAAAAAAAAAAAAAAAAAAAAAAAAAAAAAAAAAAAAAAAAAAAAAABAAA" = Returns false.
Proof. split; vm_compute; reflexivity. Qed.

End SdkWrappers.

(** ** The Algod client configuration *)

Section ClientConfig.
Import AlgodClient Spec.

Lemma ALGONODE_NETWORKS_lookup (key : string) :
  key ∉ NETWORK_NAMES -> ALGONODE_NETWORKS !! key = None.
Proof.
  intros Hkey. unfold ALGONODE_NETWORKS, NETWORK_NAMES in *.
  rewrite !lookup_insert_ne; [apply lookup_empty | | |]; intros <-; apply Hkey; set_solver.
Qed.

Lemma PURESTAKE_NETWORKS_lookup (key : string) :
  key ∉ NETWORK_NAMES -> PURESTAKE_NETWORKS !! key = None.
Proof.
  intros Hkey. unfold PURESTAKE_NETWORKS, NETWORK_NAMES in *.
  rewrite !lookup_insert_ne; [apply lookup_empty | | |]; intros <-; apply Hkey; set_solver.
Qed.

(** A key that is neither an entry nor an inherited name looks up as
    [undefined]. *)
Lemma get_property_undefined {A : Type} (table : gmap string A) (key : string) :
  table !! key = None -> key ∉ Object_prototype_names ->
  get_property table key = Undefined.
Proof.
  intros Hnone Hkey. unfold get_property. rewrite Hnone.
  now rewrite bool_decide_eq_false_2.
Qed.

Lemma ALGONODE_mainnet :
  config_algodUrl (get_property ALGONODE_NETWORKS "mainnet")
  = Returns (Some "https://mainnet-api.algonode.cloud"%string).
Proof. reflexivity. Qed.

Lemma PURESTAKE_mainnet :
  config_algodUrl (get_property PURESTAKE_NETWORKS "mainnet")
  = Returns (Some "https://mainnet-algorand.api.purestake.io/ps2"%string).
Proof. reflexivity. Qed.

(** A string that contains one of the two host names is not empty. *)
Lemma local_url_truthy (u : string) :
  includes u "localhost" || includes u "127.0.0.1" = true ->
  string_or (Some u) (algodUrl SANDBOX_CONFIG) = u.
Proof. destruct u; [discriminate | reflexivity]. Qed.

(** [getAlgodConfig] returns a configuration unless the provider is
    ['custom'] and [algodUrl] is missing. *)
Lemma getAlgodConfig_returns (credentials : gmap string string) :
  (credentials !! "apiProvider"%string = Some "custom"%string ->
   is_Some (credentials !! "algodUrl"%string)) ->
  exists config, getAlgodConfig credentials = Returns config.
Proof.
  intros Hurl. unfold getAlgodConfig.
  repeat case_bool_decide.
  - unfold property_or, get_property.
    destruct (ALGONODE_NETWORKS !! _); [eexists; reflexivity |].
    destruct (bool_decide _); eexists; reflexivity.
  - unfold property_or, get_property.
    destruct (PURESTAKE_NETWORKS !! _); [eexists; reflexivity |].
    destruct (bool_decide _); eexists; reflexivity.
  - destruct (Hurl ltac:(assumption)) as [u ->].
    destruct (_ || _); eexists; reflexivity.
  - eexists; reflexivity.
Qed.

(** Without [algodUrl] the ['custom'] branch calls [includes] on
    [undefined]. *)
Lemma getAlgodConfig_custom_without_url (credentials : gmap string string) :
  credentials !! "apiProvider"%string = Some "custom"%string ->
  credentials !! "algodUrl"%string = None ->
  getAlgodConfig credentials
  = Throws "TypeError: Cannot read properties of undefined (reading 'includes')".
Proof.
  intros Hp Hu. unfold getAlgodConfig. rewrite Hp, Hu. reflexivity.
Qed.

(** C10. [getAlgodConfig] is not total. With provider ['custom'] and no
    [algodUrl] the test [url.includes('localhost')] is evaluated on
    [undefined] and throws a [TypeError]; these are the only credentials it
    throws for, and the fallback [url || SANDBOX_CONFIG.algodUrl] of that
    branch is never reached without a URL. For all other credentials it
    returns a configuration: a provider other than ['algonode'],
    ['purestake'] and ['custom'] gives the Algonode mainnet URL with an
    empty token; under ['algonode'] and ['purestake'] a network that is
    neither an entry of the provider's table nor a property name objects
    inherit gives the provider's mainnet URL; under ['custom'] with a URL
    containing ['localhost'] or ['127.0.0.1'], a missing or empty token
    becomes the default token of 64 characters. *)
Theorem getAlgodConfig_fallbacks (credentials : gmap string string) :
  let apiProvider := credentials !! "apiProvider"%string in
  let network := ToPropertyKey (credentials !! "network"%string) in
  ((exists message, getAlgodConfig credentials = Throws message) <->
   apiProvider = Some "custom"%string /\ credentials !! "algodUrl"%string = None) /\
  (apiProvider = Some "custom"%string -> credentials !! "algodUrl"%string = None ->
   getAlgodConfig credentials
   = Throws "TypeError: Cannot read properties of undefined (reading 'includes')") /\
  ((apiProvider = Some "custom"%string -> is_Some (credentials !! "algodUrl"%string)) ->
   exists config, getAlgodConfig credentials = Returns config) /\
  (apiProvider <> Some "algonode"%string -> apiProvider <> Some "purestake"%string ->
   apiProvider <> Some "custom"%string ->
   getAlgodConfig credentials
   = Returns {| url := Some "https://mainnet-api.algonode.cloud"%string;
                token := TokenString "" |}) /\
  (apiProvider = Some "algonode"%string ->
   network ∉ NETWORK_NAMES -> network ∉ Object_prototype_names ->
   getAlgodConfig credentials
   = Returns {| url := Some "https://mainnet-api.algonode.cloud"%string;
                token := TokenString "" |}) /\
  (apiProvider = Some "purestake"%string ->
   network ∉ NETWORK_NAMES -> network ∉ Object_prototype_names ->
   getAlgodConfig credentials
   = Returns {| url := Some "https://mainnet-algorand.api.purestake.io/ps2"%string;
                token := TokenHeader (credentials !! "purestakeApiKey"%string) |}) /\
  (forall u : string,
   apiProvider = Some "custom"%string ->
   credentials !! "algodUrl"%string = Some u ->
   includes u "localhost" || includes u "127.0.0.1" = true ->
   truthy_string (credentials !! "algodToken"%string) = false ->
   getAlgodConfig credentials
   = Returns {| url := Some u; token := TokenString DEFAULT_SANDBOX_TOKEN |} /\
   String.length DEFAULT_SANDBOX_TOKEN = 64%nat /\
   Forall (fun c => c = "a"%char) (list_ascii_of_string DEFAULT_SANDBOX_TOKEN)).
Proof.
  intros apiProvider network. subst apiProvider network.
  split; [| split; [apply getAlgodConfig_custom_without_url |]].
  { split.
    - intros [message Hthrow].
      destruct (decide (credentials !! "apiProvider"%string = Some "custom"%string))
        as [Hp | Hp].
      + split; [exact Hp |].
        destruct (credentials !! "algodUrl"%string) as [u |] eqn:Hu; [| reflexivity].
        destruct (getAlgodConfig_returns credentials) as [config Hc]; [| congruence].
        intros _. rewrite Hu. eauto.
      + destruct (getAlgodConfig_returns credentials) as [config Hc]; [| congruence].
        intros Hp'. contradiction.
    - intros [Hp Hu]. eexists. now apply getAlgodConfig_custom_without_url. }
  split; [apply getAlgodConfig_returns |].
  split; [| split; [| split]].
  - intros H1 H2 H3. unfold getAlgodConfig.
    rewrite !bool_decide_eq_false_2 by assumption. reflexivity.
  - intros Hp Hn Ho. unfold getAlgodConfig. rewrite Hp.
    rewrite (get_property_undefined _ _ (ALGONODE_NETWORKS_lookup _ Hn) Ho).
    reflexivity.
  - intros Hp Hn Ho. unfold getAlgodConfig. rewrite Hp.
    rewrite (get_property_undefined _ _ (PURESTAKE_NETWORKS_lookup _ Hn) Ho).
    reflexivity.
  - intros u Hp Hu Hlocal Htoken.
    split; [| split; [reflexivity | repeat constructor]].
    unfold getAlgodConfig. rewrite Hp, Hu.
    rewrite bool_decide_eq_false_2 by discriminate.
    rewrite bool_decide_eq_false_2 by discriminate.
    rewrite bool_decide_eq_true_2 by reflexivity.
    rewrite Hlocal, (local_url_truthy u Hlocal).
    unfold string_or at 2. rewrite Htoken.
    reflexivity.
Qed.

(** The failing credentials [{ apiProvider: 'custom' }], with and without a
    token; and beside them a sandbox URL without a token and an Algonode
    network the table does not list, which fall back as described. *)
Lemma getAlgodConfig_fallbacks_witness :
  getAlgodConfig {[ "apiProvider"%string := "custom"%string ]}
  = Throws "TypeError: Cannot read properties of undefined (reading 'includes')" /\
  getAlgodConfig (<[ "apiProvider"%string := "custom"%string ]>
                    {[ "algodToken"%string := "secret"%string ]})
  = Throws "TypeError: Cannot read properties of undefined (reading 'includes')" /\
  getAlgodConfig (<[ "apiProvider"%string := "custom"%string ]>
                    {[ "algodUrl"%string := "http://localhost:4001"%string ]})
  = Returns {| url := Some "http://localhost:4001"%string;
               token := TokenString DEFAULT_SANDBOX_TOKEN |} /\
  getAlgodConfig (<[ "apiProvider"%string := "algonode"%string ]>
                    {[ "network"%string := "devnet"%string ]})
  = Returns {| url := Some "https://mainnet-api.algonode.cloud"%string;
               token := TokenString "" |}.
Proof.
  split; [| split; [| split]].
  - apply (proj1 (proj2 (getAlgodConfig_fallbacks
                           {[ "apiProvider"%string := "custom"%string ]})));
      reflexivity.
  - apply (proj1 (proj2 (getAlgodConfig_fallbacks
                           (<[ "apiProvider"%string := "custom"%string ]>
                              {[ "algodToken"%string := "secret"%string ]}))));
      reflexivity.
  - apply (proj2 (proj2 (proj2 (proj2 (proj2 (proj2
             (getAlgodConfig_fallbacks
                (<[ "apiProvider"%string := "custom"%string ]>
                   {[ "algodUrl"%string := "http://localhost:4001"%string ]}))))))));
      reflexivity.
  - apply (proj1 (proj2 (proj2 (proj2 (proj2
             (getAlgodConfig_fallbacks
                (<[ "apiProvider"%string := "algonode"%string ]>
                   {[ "network"%string := "devnet"%string ]})))))));
      [reflexivity | |]; apply (bool_decide_unpack _); exact I.
Defined.

(** The network ['constructor'], which every object inherits, gives a
    configuration without URL instead of the mainnet one. *)
Lemma getAlgodConfig_inherited_network :
  getAlgodConfig (<[ "apiProvider"%string := "algonode"%string ]>
                    {[ "network"%string := "constructor"%string ]})
  = Returns {| url := None; token := TokenString "" |}.
Proof. reflexivity. Qed.

End ClientConfig.

(** ** The item loop of [execute] *)

Section ItemLoop.
Import AlgorandNode Examples.

(** What [dispatch] gives for one item, by the switch and the item's
    failure. *)
Lemma dispatch_cases (x : Execution) (i : nat) :
  match item_failure x i with
  | None => dispatch x i = Returns (item_pushed x i)
  | Some message =>
      if continueOnFail x
      then dispatch x i = Returns (item_records x i) \/
           (dispatch x i = Throws message /\ item_pushed x i = [])
      else dispatch x i = Throws message
  end.
Proof.
  unfold item_failure, dispatch, item_records, item_pushed, executeOperation.
  destruct (bool_decide (resource x i ∈ RESOURCES)).
  - destruct (operation_run x (resource x i) i) as [pushed [message |]]; cbn [fst snd].
    + destruct (continueOnFail x); [left |]; reflexivity.
    + reflexivity.
  - destruct (continueOnFail x); [right; split |]; reflexivity.
Qed.

(** The records of an item are the ones its operation pushed, followed by
    one error record when it failed. *)
Lemma item_records_split (x : Execution) (i : nat) :
  item_records x i
  = item_pushed x i ++
    match item_failure x i with
    | Some message => [error_record message i]
    | None => []
    end.
Proof.
  unfold item_records, item_pushed, item_failure.
  destruct (bool_decide (resource x i ∈ RESOURCES)); [| reflexivity].
  destruct (operation_run x (resource x i) i) as [pushed [message |]]; cbn [fst snd].
  - reflexivity.
  - now rewrite app_nil_r.
Qed.

(** With continue-on-fail the loop starts every item and never throws. *)
Lemma execute_loop_continue (x : Execution) (indices : list nat) :
  continueOnFail x = true ->
  forall returnData,
    execute_loop x indices returnData
    = (indices, Returns (returnData ++ concat (map (item_records x) indices))).
Proof.
  intros Hc. induction indices as [| i rest IH]; intros returnData; cbn [execute_loop map concat].
  - now rewrite app_nil_r.
  - pose proof (dispatch_cases x i) as Hd.
    pose proof (item_records_split x i) as Hr.
    rewrite Hc in *.
    destruct (item_failure x i) as [message |].
    + destruct Hd as [-> | [-> Hnil]].
      * rewrite IH. now rewrite app_assoc.
      * rewrite IH. rewrite Hr, Hnil. now rewrite app_assoc.
    + rewrite Hd, IH, Hr, app_nil_r. now rewrite app_assoc.
Qed.

(** Items that do not fail are started and their records appended, with or
    without continue-on-fail. *)
Lemma execute_loop_succeeds (x : Execution) (pre rest : list nat) :
  (forall i, i ∈ pre -> item_failure x i = None) ->
  forall returnData,
    execute_loop x (pre ++ rest) returnData
    = (pre ++ fst (execute_loop x rest (returnData ++ concat (map (item_pushed x) pre))),
       snd (execute_loop x rest (returnData ++ concat (map (item_pushed x) pre)))).
Proof.
  induction pre as [| i pre IH]; intros Hok returnData; cbn [app map concat execute_loop].
  - rewrite app_nil_r. now destruct (execute_loop x rest returnData).
  - pose proof (dispatch_cases x i) as Hd.
    rewrite (Hok i) in Hd by set_solver. rewrite Hd.
    rewrite IH by (intros j Hj; apply Hok; set_solver).
    now rewrite app_assoc.
Qed.

(** Without continue-on-fail the first failing item ends the loop. *)
Lemma execute_loop_aborts (x : Execution) (pre post : list nat) (k : nat)
    (message : string) :
  continueOnFail x = false ->
  (forall i, i ∈ pre -> item_failure x i = None) ->
  item_failure x k = Some message ->
  forall returnData,
    execute_loop x (pre ++ k :: post) returnData = (pre ++ [k], Throws message).
Proof.
  intros Hc Hok Hk returnData.
  rewrite (execute_loop_succeeds x pre (k :: post) Hok).
  cbn [execute_loop].
  pose proof (dispatch_cases x k) as Hd. rewrite Hk, Hc in Hd.
  rewrite Hd, Hc. reflexivity.
Qed.

Lemma seq_split_at (n k : nat) :
  (k < n)%nat -> seq 0 n = seq 0 k ++ k :: seq (S k) (n - S k).
Proof.
  intros Hk. replace n with (k + S (n - S k))%nat at 1 by lia.
  now rewrite seq_app.
Qed.

(** C7. With continue-on-fail, [execute] starts every item and returns,
    in item order, what each item's operation pushed followed, for an item
    that failed, by exactly one record [{ error: message }] paired with
    that item. Without continue-on-fail, the first failing item [k] ends
    the execution with its error: the items started are [0 .. k] and
    nothing is returned. *)
Theorem execute_failure_policy (x : Execution) :
  (continueOnFail x = true ->
   execute x
   = (seq 0 (items x),
      Returns [concat (map (fun i =>
                 item_pushed x i ++
                 match item_failure x i with
                 | Some message =>
                     [ {| json := [("error"%string, message)];
                          pairedItem := Some i |} ]
                 | None => []
                 end) (seq 0 (items x)))])) /\
  (continueOnFail x = false ->
   forall (k : nat) (message : string),
     (k < items x)%nat ->
     item_failure x k = Some message ->
     (forall i, (i < k)%nat -> item_failure x i = None) ->
     execute x = (seq 0 (S k), Throws message)).
Proof.
  split.
  - intros Hc. unfold execute.
    rewrite (execute_loop_continue x _ Hc). cbn [app]. do 4 f_equal.
    apply map_ext. intros i. apply item_records_split.
  - intros Hc k message Hk Hfail Hbefore. unfold execute.
    rewrite (seq_split_at _ _ Hk).
    rewrite (execute_loop_aborts x _ _ k message Hc); [| | exact Hfail].
    + f_equal. rewrite seq_S. reflexivity.
    + intros i Hi. apply Hbefore. apply elem_of_seq in Hi. lia.
Qed.

(** The second of three items fails: without continue-on-fail the third is
    not started; with it, the failure is one record between the other two. *)
Lemma execute_failure_policy_witness :
  execute (three_items false) = ([0; 1]%nat, Throws "Account not found") /\
  execute (three_items true)
  = ([0; 1; 2]%nat,
     Returns [[ {| json := [("address"%string, "A"%string)]; pairedItem := Some 0%nat |};
                {| json := [("error"%string, "Account not found"%string)];
                   pairedItem := Some 1%nat |};
                {| json := [("address"%string, "A"%string)]; pairedItem := Some 2%nat |} ]]).
Proof.
  split.
  - apply (proj2 (execute_failure_policy (three_items false)) eq_refl 1%nat);
      [cbn; lia | reflexivity |].
    intros i Hi. destruct i; [reflexivity | lia].
  - apply (proj1 (execute_failure_policy (three_items true)) eq_refl).
Defined.

End ItemLoop.

(** ** The cursor of the polling trigger *)

Section TriggerCursor.
Import AlgorandTrigger Examples.
Local Open Scope Z_scope.

(** The transaction events store the round the node reports, whatever the
    cursor was: only an exception keeps the old one. *)
Lemma poll_transactions_stores_current (remote : Remote) (data : StaticData)
    (ev : string) (query : Z -> Z -> Search) (keep : Transaction -> bool)
    (currentRound : Z) (transactions : list Transaction) :
  status_last_round remote = Returns currentRound ->
  searchForTransactions remote (query (cursor data + 1) currentRound)
    = Returns transactions ->
  lastRound (fst (poll_transactions remote data ev query keep)) = Some currentRound.
Proof.
  intros Hstatus Hsearch. unfold poll_transactions, cursor in *.
  rewrite Hstatus. destruct (0 <? _); [rewrite Hsearch |]; reflexivity.
Qed.

(** ['newBlock'] stores the reported round only when it is beyond the
    cursor, and ['balanceChange'] leaves the cursor alone. *)
Lemma poll_guarded_events (p : Parameters) (remote : Remote) (data : StaticData) :
  event p = "newBlock"%string \/ event p = "balanceChange"%string ->
  cursor data <= cursor (fst (poll p remote data)).
Proof.
  intros [Hev | Hev]; unfold poll, cursor; rewrite Hev; cbn [bool_decide decide_rel].
  - rewrite bool_decide_eq_true_2 by reflexivity.
    destruct (status_last_round remote) as [currentRound |]; [| cbn; lia].
    destruct (Z.ltb_spec (default 0 (lastRound data)) currentRound); cbn; lia.
  - repeat (rewrite bool_decide_eq_false_2 by discriminate).
    rewrite bool_decide_eq_true_2 by reflexivity.
    destruct (accountInformation_amount remote (address p)); cbn; lia.
Qed.

(** C8. The cursor is not monotone for the transaction events. With
    event ['transactionForAddress'] and the cursor at 100, a poll answered
    by a node whose last round is 90 leaves the cursor at 90; and after the
    polls answered at rounds 105, 90 and 105 the transaction of round 103
    has been emitted by the first poll and again by the third. The events
    ['newBlock'] and ['balanceChange'] never move the cursor back. *)
Theorem poll_cursor_moves_back :
  event watch_address = "transactionForAddress"%string /\
  fst (poll watch_address (node_at 90) (cursor_at 100)) = cursor_at 90 /\
  cursor (fst (poll watch_address (node_at 90) (cursor_at 100))) < cursor (cursor_at 100) /\
  poll watch_address (node_at 105) (cursor_at 100)
    = (cursor_at 105, [of_tx "transactionForAddress" payment_103]) /\
  poll watch_address (node_at 90) (cursor_at 105) = (cursor_at 90, []) /\
  poll watch_address (node_at 105) (cursor_at 90)
    = (cursor_at 105, [of_tx "transactionForAddress" payment_103]) /\
  poll_many watch_address [node_at 105; node_at 90] (cursor_at 100) = cursor_at 90 /\
  (forall (p : Parameters) (remote : Remote) (data : StaticData),
     event p = "newBlock"%string \/ event p = "balanceChange"%string ->
     cursor data <= cursor (fst (poll p remote data))).
Proof.
  repeat split; try reflexivity.
  apply poll_guarded_events.
Qed.

End TriggerCursor.

(** ** The Indexer and KMD client configurations *)

Section OtherClients.
Import Spec.

(** The entry the provider tables give for a network, after the fallback to
    [mainnet]. *)
Lemma table_entry (table : gmap string NetworkConfig) (key : string) :
  is_Some (table !! "mainnet"%string) ->
  exists entry : option NetworkConfig,
    property_or (get_property table key) (get_property table "mainnet")
    = match entry with Some e => Own e | None => Inherited end.
Proof.
  intros [m Hm]. unfold property_or, get_property. rewrite Hm.
  destruct (table !! key) as [e |]; [now exists (Some e) |].
  destruct (bool_decide _); [now exists None | now exists (Some m)].
Qed.

(** [getIndexerConfig] returns a configuration for every credentials
    record. Under ['custom'] a missing or empty [indexerUrl] is passed on as
    it is, and the token is the given one or [""]: no default token is put
    in. *)
Theorem getIndexerConfig_total (credentials : gmap string string) :
  (exists config, IndexerClient.getIndexerConfig credentials = Returns config) /\
  (credentials !! "apiProvider"%string = Some "custom"%string ->
   exists u,
     IndexerClient.getIndexerConfig credentials
     = Returns {| IndexerClient.url := u;
                  IndexerClient.token :=
                    AlgodClient.TokenString
                      (AlgodClient.string_or (credentials !! "indexerToken"%string) "") |} /\
     (u = credentials !! "indexerUrl"%string)).
Proof.
  unfold IndexerClient.getIndexerConfig. split.
  - repeat case_bool_decide.
    + destruct (table_entry ALGONODE_NETWORKS
                  (ToPropertyKey (credentials !! "network"%string)))
        as [[e |] ->]; [now eexists | eexists; reflexivity | eexists; reflexivity].
    + destruct (table_entry PURESTAKE_NETWORKS
                  (ToPropertyKey (credentials !! "network"%string)))
        as [[e |] ->]; [now eexists | eexists; reflexivity | eexists; reflexivity].
    + destruct (IndexerClient.is_local _); eexists; reflexivity.
    + eexists; reflexivity.
  - intros Hp. rewrite Hp.
    rewrite bool_decide_eq_false_2 by discriminate.
    rewrite bool_decide_eq_false_2 by discriminate.
    rewrite bool_decide_eq_true_2 by reflexivity.
    exists (credentials !! "indexerUrl"%string).
    split; [| reflexivity].
    destruct (credentials !! "indexerUrl"%string) as [u |] eqn:Hu; [| reflexivity].
    unfold IndexerClient.is_local.
    destruct (truthy_string (Some u)) eqn:Ht; [| reflexivity].
    destruct (includes u "localhost" || includes u "127.0.0.1"); cbn [andb].
    + unfold AlgodClient.string_or at 1. rewrite Ht. cbv [default from_option id].
      do 3 f_equal.
      destruct (credentials !! "indexerToken"%string) as [[| c t] |]; reflexivity.
    + reflexivity.
Qed.

(** The ['custom'] provider without any URL or token. *)
Lemma getIndexerConfig_total_witness :
  IndexerClient.getIndexerConfig {[ "apiProvider"%string := "custom"%string ]}
  = Returns {| IndexerClient.url := None;
               IndexerClient.token := AlgodClient.TokenString "" |}.
Proof.
  assert (Hp : ({[ "apiProvider"%string := "custom"%string ]} : gmap string string)
                 !! "apiProvider"%string = Some "custom"%string) by reflexivity.
  destruct (proj2 (getIndexerConfig_total _) Hp) as (u & -> & ->).
  reflexivity.
Defined.

(** With a provider other than ['custom'], the Algod and the Indexer
    configurations are read from one and the same table entry and carry one
    and the same token: the two clients never point at different
    networks. *)
Theorem clients_same_entry (credentials : gmap string string) :
  credentials !! "apiProvider"%string <> Some "custom"%string ->
  exists (entry : option NetworkConfig) (t : AlgodClient.Token),
    AlgodClient.getAlgodConfig credentials
    = Returns {| AlgodClient.url := algodUrl <$> entry; AlgodClient.token := t |} /\
    IndexerClient.getIndexerConfig credentials
    = Returns {| IndexerClient.url := indexerUrl <$> entry; IndexerClient.token := t |} /\
    (forall e, entry = Some e ->
       exists name, ALGONODE_NETWORKS !! name = Some e \/
                    PURESTAKE_NETWORKS !! name = Some e).
Proof.
  intros Hp.
  unfold AlgodClient.getAlgodConfig, IndexerClient.getIndexerConfig.
  repeat case_bool_decide; try contradiction.
  - unfold property_or, get_property.
    destruct (ALGONODE_NETWORKS !! ToPropertyKey (credentials !! "network"%string))
      as [e |] eqn:He.
    + exists (Some e), (AlgodClient.TokenString "").
      repeat split. intros e' [= <-]. eauto.
    + destruct (bool_decide _).
      * exists None, (AlgodClient.TokenString ""). repeat split. discriminate.
      * eexists (Some _), (AlgodClient.TokenString "").
        repeat split. intros e' [= <-]. exists "mainnet"%string. left. reflexivity.
  - unfold property_or, get_property.
    destruct (PURESTAKE_NETWORKS !! ToPropertyKey (credentials !! "network"%string))
      as [e |] eqn:He.
    + exists (Some e), (AlgodClient.TokenHeader (credentials !! "purestakeApiKey"%string)).
      repeat split. intros e' [= <-]. eauto.
    + destruct (bool_decide _).
      * exists None, (AlgodClient.TokenHeader (credentials !! "purestakeApiKey"%string)).
        repeat split. discriminate.
      * eexists (Some _), (AlgodClient.TokenHeader (credentials !! "purestakeApiKey"%string)).
        repeat split. intros e' [= <-]. exists "mainnet"%string. right. reflexivity.
  - eexists (Some _), (AlgodClient.TokenString "").
    repeat split. intros e' [= <-]. exists "mainnet"%string. left. reflexivity.
Qed.

(** PureStake on testnet: both URLs are the testnet ones, both tokens the
    API key. *)
Lemma clients_same_entry_witness :
  let credentials : gmap string string :=
    <[ "apiProvider"%string := "purestake"%string ]>
      (<[ "network"%string := "testnet"%string ]>
         {[ "purestakeApiKey"%string := "KEY"%string ]}) in
  exists (entry : option NetworkConfig) (t : AlgodClient.Token),
    AlgodClient.getAlgodConfig credentials
    = Returns {| AlgodClient.url := algodUrl <$> entry; AlgodClient.token := t |} /\
    IndexerClient.getIndexerConfig credentials
    = Returns {| IndexerClient.url := indexerUrl <$> entry; IndexerClient.token := t |} /\
    (forall e, entry = Some e ->
       exists name, ALGONODE_NETWORKS !! name = Some e \/
                    PURESTAKE_NETWORKS !! name = Some e).
Proof.
  intros credentials. apply (clients_same_entry credentials).
  vm_compute. discriminate.
Defined.

(** [getKmdConfig] returns [null] exactly when [useKmd] is falsy; a
    configuration it returns never has an empty or missing URL or token: a
    truthy field is kept, anything else is replaced by the sandbox
    default. *)
Theorem getKmdConfig_defaults (credentials : gmap string KmdClient.value) :
  (KmdClient.getKmdConfig credentials = None <->
   KmdClient.truthy (KmdClient.field credentials "useKmd") = false) /\
  (forall config, KmdClient.getKmdConfig credentials = Some config ->
     KmdClient.truthy (KmdClient.url config) = true /\
     KmdClient.truthy (KmdClient.token config) = true /\
     (KmdClient.url config = KmdClient.field credentials "kmdUrl" \/
      KmdClient.truthy (KmdClient.field credentials "kmdUrl") = false /\
      KmdClient.url config = KmdClient.VString "http://localhost:4002") /\
     (KmdClient.token config = KmdClient.field credentials "kmdToken" \/
      KmdClient.truthy (KmdClient.field credentials "kmdToken") = false /\
      KmdClient.token config = KmdClient.VString AlgodClient.DEFAULT_SANDBOX_TOKEN)).
Proof.
  unfold KmdClient.getKmdConfig. split.
  - destruct (KmdClient.truthy (KmdClient.field credentials "useKmd")); cbn [negb];
      split; intros H; try reflexivity; discriminate.
  - intros config.
    destruct (KmdClient.truthy (KmdClient.field credentials "useKmd")); cbn [negb];
      [| discriminate].
    intros [= <-]. cbn [KmdClient.url KmdClient.token]. unfold KmdClient.value_or.
    destruct (KmdClient.truthy (KmdClient.field credentials "kmdUrl")) eqn:Hu;
      destruct (KmdClient.truthy (KmdClient.field credentials "kmdToken")) eqn:Ht;
      repeat split; auto.
Qed.

(** KMD switched on, with an empty URL and no token. *)
Lemma getKmdConfig_defaults_witness :
  let credentials : gmap string KmdClient.value :=
    <[ "useKmd"%string := KmdClient.VBoolean true ]>
      {[ "kmdUrl"%string := KmdClient.VString "" ]} in
  exists config,
    KmdClient.getKmdConfig credentials = Some config /\
    KmdClient.truthy (KmdClient.url config) = true /\
    KmdClient.truthy (KmdClient.token config) = true.
Proof.
  intros credentials. eexists. split; [reflexivity |].
  assert (He : KmdClient.getKmdConfig credentials
               = Some {| KmdClient.url := KmdClient.VString "http://localhost:4002";
                         KmdClient.token :=
                           KmdClient.VString AlgodClient.DEFAULT_SANDBOX_TOKEN |})
    by reflexivity.
  destruct (proj2 (getKmdConfig_defaults credentials) _ He) as (Hu & Ht & _).
  split; assumption.
Defined.

End OtherClients.

(** ** More on the polling trigger *)

Section TriggerPolls.
Import AlgorandTrigger Events Examples MoreExamples.
Local Open Scope Z_scope.

(** Selects the branch of [poll] for the event named by [Hev]. *)
Ltac pick_event Hev :=
  unfold poll; rewrite Hev;
  repeat (rewrite bool_decide_eq_false_2 by discriminate);
  try (rewrite bool_decide_eq_true_2 by reflexivity).

Ltac each_transaction_event Hev :=
  unfold TRANSACTION_EVENTS in Hev;
  repeat (apply elem_of_cons in Hev as [Hev | Hev]);
  [ .. | apply elem_of_nil in Hev; contradiction ].

Lemma rounds_after_elem (lastRound currentRound r : Z) :
  r ∈ rounds_after lastRound currentRound <-> lastRound < r <= currentRound.
Proof.
  unfold rounds_after. rewrite list_elem_of_In, in_map_iff. split.
  - intros (k & <- & Hk). apply in_seq in Hk. lia.
  - intros Hr. exists (Z.to_nat (r - lastRound - 1)). split; [lia |].
    apply in_seq. lia.
Qed.

Lemma NoDup_map_injective {A B : Type} (f : A -> B) (l : list A) :
  (forall a b, f a = f b -> a = b) -> List.NoDup l -> List.NoDup (map f l).
Proof.
  intros Hinj. induction 1 as [| a l Hnot Hnd IH]; cbn [map]; constructor; [| exact IH].
  intros Hin. apply in_map_iff in Hin as (b & Hb & Hin).
  apply Hinj in Hb. subst b. contradiction.
Qed.

Lemma rounds_after_NoDup (lastRound currentRound : Z) :
  NoDup (rounds_after lastRound currentRound).
Proof.
  unfold rounds_after. apply NoDup_ListNoDup, NoDup_map_injective.
  - intros a b H. lia.
  - apply NoDup_ListNoDup, NoDup_seq.
Qed.

Lemma rounds_after_length (lastRound currentRound : Z) :
  Z.of_nat (List.length (rounds_after lastRound currentRound))
  = Z.max 0 (currentRound - lastRound).
Proof. unfold rounds_after. rewrite length_map, length_seq. lia. Qed.

Lemma new_blocks_rounds (remote : Remote) (rounds : list Z) :
  map emitted_round
    (omap (fun round =>
             match block remote round with
             | Returns _ =>
                 Some {| emitted_event := "newBlock";
                         emitted_round := Some round;
                         emitted_txId := None |}
             | Throws _ => None
             end) rounds)
  = map Some (List.filter (fun r => returned (block remote r)) rounds).
Proof.
  induction rounds as [| r rounds IH]; [reflexivity |].
  cbn [omap list_omap List.filter]. unfold returned at 1.
  destruct (block remote r); cbn [map]; now rewrite IH.
Qed.

(** An exception during a poll leaves the static data as it was and emits
    nothing: a failing status call (any event but ['balanceChange']), a
    failing account lookup (['balanceChange']), or a failing indexer search
    (the transaction events). *)
Theorem poll_failure_keeps_data (p : Parameters) (remote : Remote) (data : StaticData) :
  (event p <> "balanceChange"%string ->
   returned (status_last_round remote) = false ->
   poll p remote data = (data, [])) /\
  (event p = "balanceChange"%string ->
   returned (accountInformation_amount remote (address p)) = false ->
   poll p remote data = (data, [])) /\
  (event p ∈ TRANSACTION_EVENTS -> 0 < cursor data ->
   (forall q, returned (searchForTransactions remote q) = false) ->
   poll p remote data = (data, [])).
Proof.
  split; [| split].
  - intros Hev Hst. unfold poll.
    destruct (status_last_round remote) as [r | m] eqn:Hs; [discriminate |].
    unfold poll_transactions. rewrite Hs.
    repeat case_bool_decide; try reflexivity. contradiction.
  - intros Hev Hacc. pick_event Hev.
    destruct (accountInformation_amount remote (address p)); [discriminate | reflexivity].
  - intros Hev Hcur Hsearch. unfold cursor in Hcur.
    assert (Hlt : (0 <? default 0 (lastRound data)) = true) by (apply Z.ltb_lt; exact Hcur).
    each_transaction_event Hev; pick_event Hev; unfold poll_transactions;
      (destruct (status_last_round remote) as [r | m]; [| reflexivity]);
      rewrite Hlt;
      match goal with
      | |- context [searchForTransactions remote ?q] =>
          specialize (Hsearch q); destruct (searchForTransactions remote q)
      end; try discriminate; reflexivity.
Qed.

(** The node cannot be reached. *)
Lemma poll_failure_keeps_data_witness :
  poll (watching "newBlock") node_down (cursor_at 100) = (cursor_at 100, []) /\
  poll (watching "balanceChange") node_down (cursor_at 100) = (cursor_at 100, []) /\
  poll watch_address node_down (cursor_at 100) = (cursor_at 100, []).
Proof.
  split; [| split].
  - apply (proj1 (poll_failure_keeps_data (watching "newBlock") node_down (cursor_at 100)));
      [discriminate | reflexivity].
  - apply (proj1 (proj2 (poll_failure_keeps_data (watching "balanceChange") node_down
                           (cursor_at 100)))); reflexivity.
  - apply (proj2 (proj2 (poll_failure_keeps_data watch_address node_down (cursor_at 100))));
      [apply (bool_decide_unpack _); exact I | reflexivity | reflexivity].
Defined.

(** ['newBlock'] asks for each round after the cursor up to the round the
    node reports, once and in increasing order, emits one item for each
    block it could fetch, and moves the cursor to the reported round: a
    block whose fetch failed is not asked for again. When the reported round
    is not beyond the cursor, nothing happens. *)
Theorem newBlock_rounds (p : Parameters) (remote : Remote) (data : StaticData)
    (currentRound : Z) :
  event p = "newBlock"%string ->
  status_last_round remote = Returns currentRound ->
  let emitted := snd (poll p remote data) in
  map emitted_round emitted
  = map Some (List.filter (fun r => returned (block remote r))
                (rounds_after (cursor data) currentRound)) /\
  (forall r, Some r ∈ map emitted_round emitted <->
             cursor data < r <= currentRound /\ returned (block remote r) = true) /\
  NoDup (map emitted_round emitted) /\
  Z.of_nat (List.length emitted) <= Z.max 0 (currentRound - cursor data) /\
  (cursor data < currentRound ->
   fst (poll p remote data)
   = {| lastRound := Some currentRound; lastBalance := lastBalance data |}) /\
  (currentRound <= cursor data -> poll p remote data = (data, [])).
Proof.
  intros Hev Hst emitted.
  assert (Hpoll : poll p remote data
                  = if cursor data <? currentRound
                    then ({| lastRound := Some currentRound;
                             lastBalance := lastBalance data |},
                          new_blocks remote (cursor data) currentRound)
                    else (data, [])).
  { pick_event Hev. rewrite Hst. reflexivity. }
  assert (Hrounds : map emitted_round emitted
                    = map Some (List.filter (fun r => returned (block remote r))
                                  (rounds_after (cursor data) currentRound))).
  { unfold emitted. rewrite Hpoll.
    destruct (Z.ltb_spec (cursor data) currentRound) as [Hlt | Hge]; cbn [snd].
    - apply new_blocks_rounds.
    - unfold rounds_after. replace (Z.to_nat (currentRound - cursor data)) with 0%nat by lia.
      reflexivity. }
  split; [exact Hrounds |]. split; [| split; [| split; [| split]]].
  - intros r. rewrite Hrounds, list_elem_of_In, in_map_iff. split.
    + intros (r' & [= <-] & Hin). apply filter_In in Hin.
      destruct Hin as [Hin Hok]. apply list_elem_of_In, rounds_after_elem in Hin. auto.
    + intros [Hr Hok]. exists r. split; [reflexivity |].
      apply filter_In. split; [| exact Hok].
      apply list_elem_of_In, rounds_after_elem. exact Hr.
  - rewrite Hrounds. apply NoDup_ListNoDup, NoDup_map_injective.
    + intros a b [= ->]. reflexivity.
    + apply List.NoDup_filter, NoDup_ListNoDup, rounds_after_NoDup.
  - rewrite <- rounds_after_length.
    rewrite <- (length_map emitted_round emitted), Hrounds, length_map.
    apply inj_le, List.filter_length_le.
  - intros Hlt. rewrite Hpoll.
    destruct (Z.ltb_spec (cursor data) currentRound); [reflexivity | lia].
  - intros Hge. rewrite Hpoll.
    destruct (Z.ltb_spec (cursor data) currentRound); [lia | reflexivity].
Qed.

(** Rounds 101 to 105 with the block of round 103 missing: four items, and
    the cursor at 105. *)
Lemma newBlock_rounds_witness :
  map emitted_round
      (snd (poll (watching "newBlock") (node_without_103 105) (cursor_at 100)))
  = [Some 101; Some 102; Some 104; Some 105] /\
  fst (poll (watching "newBlock") (node_without_103 105) (cursor_at 100))
  = cursor_at 105.
Proof.
  destruct (newBlock_rounds (watching "newBlock") (node_without_103 105)
              (cursor_at 100) 105 eq_refl eq_refl) as (Hr & _ & _ & _ & Hc & _).
  split; [rewrite Hr; reflexivity | apply Hc; reflexivity].
Defined.

(** For every event, a poll answered by a node whose last round is not
    behind the cursor does not move the cursor back. *)
Theorem poll_cursor_monotone (p : Parameters) (remote : Remote) (data : StaticData) :
  (forall r, status_last_round remote = Returns r -> cursor data <= r) ->
  cursor data <= cursor (fst (poll p remote data)).
Proof.
  intros Hnode. unfold poll.
  assert (Htx : forall ev query keep,
            cursor data <= cursor (fst (poll_transactions remote data ev query keep))).
  { intros ev query keep. unfold poll_transactions.
    destruct (status_last_round remote) as [r | m] eqn:Hs; [| cbn; lia].
    specialize (Hnode r eq_refl).
    destruct (0 <? _); [destruct (searchForTransactions remote _) |];
      cbn [fst]; unfold cursor in *; cbn [lastRound default from_option id]; lia. }
  repeat case_bool_decide; try apply Htx.
  - destruct (status_last_round remote) as [r | m] eqn:Hs; [| cbn; lia].
    destruct (Z.ltb_spec (default 0 (lastRound data)) r); cbn [fst]; [| lia].
    unfold cursor in *. cbn [lastRound default from_option id]. lia.
  - destruct (accountInformation_amount remote (address p)); cbn [fst]; [| lia].
    unfold cursor. cbn [lastRound]. lia.
  - cbn [fst]. lia.
Qed.

Lemma poll_cursor_monotone_witness :
  cursor (cursor_at 100)
  <= cursor (fst (poll watch_address (node_at 105) (cursor_at 100))).
Proof.
  apply poll_cursor_monotone. intros r [= <-]. vm_compute. discriminate.
Defined.

(** The first poll of a transaction event - no cursor stored yet, or the
    cursor 0 - emits nothing, whatever the indexer holds, and stores the
    round the node reports: transactions confirmed before it are never
    reported. *)
Theorem first_poll_emits_nothing (p : Parameters) (remote : Remote) (data : StaticData)
    (currentRound : Z) :
  event p ∈ TRANSACTION_EVENTS ->
  cursor data = 0 ->
  status_last_round remote = Returns currentRound ->
  poll p remote data
  = ({| lastRound := Some currentRound; lastBalance := lastBalance data |}, []).
Proof.
  intros Hev Hcur Hst. unfold cursor in Hcur.
  each_transaction_event Hev; pick_event Hev; unfold poll_transactions;
    rewrite Hst, Hcur; reflexivity.
Qed.

Lemma first_poll_emits_nothing_witness :
  poll watch_address (node_at 105) {| lastRound := None; lastBalance := None |}
  = (cursor_at 105, []).
Proof.
  apply (first_poll_emits_nothing watch_address (node_at 105)
           {| lastRound := None; lastBalance := None |} 105);
    [| reflexivity | reflexivity].
  apply (bool_decide_unpack _). exact I.
Defined.

(** ['balanceChange'] stores the balance it reads and leaves the cursor
    alone; it emits at most one item, and none when the stored balance is
    missing or not positive. So once a balance of 0 has been read, the
    change the next poll sees is not reported, whatever the new balance
    is. *)
Theorem balanceChange_from_zero (p : Parameters) (remote next : Remote)
    (data : StaticData) (balance : Z) :
  event p = "balanceChange"%string ->
  accountInformation_amount remote (address p) = Returns balance ->
  fst (poll p remote data)
  = {| lastRound := lastRound data; lastBalance := Some balance |} /\
  (List.length (snd (poll p remote data)) <= 1)%nat /\
  (default 0 (lastBalance data) <= 0 -> snd (poll p remote data) = []) /\
  (balance <= 0 -> snd (poll p next (fst (poll p remote data))) = []).
Proof.
  intros Hev Hacc.
  assert (Hzero : forall r d, default 0 (lastBalance d) <= 0 -> snd (poll p r d) = []).
  { intros r d Hd. pick_event Hev.
    destruct (accountInformation_amount r (address p)); [| reflexivity].
    cbn [snd]. replace (0 <? default 0 (lastBalance d)) with false; [reflexivity |].
    symmetry. apply Z.ltb_ge. exact Hd. }
  assert (Hfst : fst (poll p remote data)
                 = {| lastRound := lastRound data; lastBalance := Some balance |}).
  { pick_event Hev. rewrite Hacc. reflexivity. }
  split; [exact Hfst |]. split; [| split].
  - pick_event Hev. rewrite Hacc. cbn [snd].
    destruct (_ && _); cbn [List.length]; lia.
  - apply Hzero.
  - intros Hb. apply Hzero. rewrite Hfst. cbn [lastBalance default from_option id]. exact Hb.
Qed.

(** A balance of 0 is read, then one of 5 ALGO: nothing is emitted. *)
Lemma balanceChange_from_zero_witness :
  snd (poll (watching "balanceChange") (node_with_balance 106 5000000)
         (fst (poll (watching "balanceChange") (node_with_balance 105 0)
                 (cursor_at 100))))
  = [].
Proof.
  apply (balanceChange_from_zero (watching "balanceChange") (node_with_balance 105 0)
           (node_with_balance 106 5000000) (cursor_at 100) 0 eq_refl eq_refl).
  lia.
Defined.

End TriggerPolls.

(** ** More on the item loop and on the ARC helpers *)

Section MoreItemLoop.
Import AlgorandNode MoreExamples.

(** When no item fails, [execute] starts every item and returns the records
    the operations pushed, in item order, with or without
    continue-on-fail. *)
Theorem execute_without_failures (x : Execution) :
  (forall i, (i < items x)%nat -> item_failure x i = None) ->
  execute x
  = (seq 0 (items x), Returns [concat (map (item_pushed x) (seq 0 (items x)))]).
Proof.
  intros Hok. unfold execute.
  pose proof (execute_loop_succeeds x (seq 0 (items x)) []) as H.
  rewrite app_nil_r in H. rewrite H.
  - cbn [execute_loop fst snd app]. now rewrite app_nil_r.
  - intros i Hi. apply Hok. apply elem_of_seq in Hi. lia.
Qed.

(** Two items that both succeed, with continue-on-fail off. *)
Lemma execute_without_failures_witness :
  execute (two_conversions false)
  = ([0; 1]%nat,
     Returns [[ {| json := [("microAlgo"%string, "1000000"%string)];
                   pairedItem := Some 0%nat |};
                {| json := [("microAlgo"%string, "1000000"%string)];
                   pairedItem := Some 1%nat |} ]]).
Proof.
  apply (execute_without_failures (two_conversions false)).
  intros i Hi. reflexivity.
Defined.

End MoreItemLoop.

Section MoreArcs.
Import Arcs Phrases.
Local Open Scope string_scope.

(** [detectArcStandard] never answers ARC69, although its result type lists
    it; and an empty URL or name is treated as a missing one. *)
Theorem detectArcStandard_never_ARC69 (url name : option string) :
  detectArcStandard url name <> ARC69 /\
  detectArcStandard (Some "") name = detectArcStandard None name /\
  detectArcStandard url (Some "") = detectArcStandard url None.
Proof.
  split; [| split].
  - rewrite detectArcStandard_cases.
    destruct url as [u |];
      [destruct (endsWith u "#arc3" || includes u "arc3");
       [discriminate | destruct (startsWith u "template-ipfs://"); [discriminate |]] |];
      (destruct name as [n |]; [destruct (endsWith n "@arc3") |]); discriminate.
  - reflexivity.
  - unfold detectArcStandard. cbn [truthy_string andb].
    destruct url as [u |]; reflexivity.
Qed.

(** Every URL that [ipfsToHttp] rewrites is one that [isIpfsUrl] accepts,
    and with the default gateway the result is accepted as well: the
    rewrite does not change what [isIpfsUrl] answers. *)
Theorem isIpfsUrl_ipfsToHttp (url : string) :
  (startsWith url "ipfs://" = true -> isIpfsUrl url = true) /\
  isIpfsUrl (ipfsToHttp url None) = isIpfsUrl url.
Proof.
  split.
  - intros H. unfold isIpfsUrl. now rewrite H.
  - destruct (startsWith url "ipfs://") eqn:Hurl.
    + unfold isIpfsUrl at 2. rewrite Hurl. cbn [orb].
      apply startsWith_spec in Hurl. destruct Hurl as [rest ->].
      rewrite (ipfsToHttp_rewrites _ None rest eq_refl).
      unfold isIpfsUrl.
      assert (Hinc : includes (default DEFAULT_GATEWAY None ++ rest) "ipfs.io" = true).
      { apply includes_spec. exists "https://", ("/ipfs/" ++ rest). reflexivity. }
      rewrite Hinc. now rewrite orb_true_r.
    + unfold ipfsToHttp. now rewrite Hurl.
Qed.

Lemma isIpfsUrl_ipfsToHttp_witness :
  isIpfsUrl "ipfs://QmHash" = true /\
  isIpfsUrl (ipfsToHttp "ipfs://QmHash" None) = true.
Proof.
  destruct (isIpfsUrl_ipfsToHttp "ipfs://QmHash") as [H1 H2].
  split; [apply H1; reflexivity | rewrite H2; apply H1; reflexivity].
Defined.

(** With a gateway that neither starts with ["ipfs://"] nor is a prefix of
    it, no result of [ipfsToHttp] starts with ["ipfs://"]. *)
Theorem ipfsToHttp_leaves_scheme (url : string) (gateway : option string) :
  startsWith (default DEFAULT_GATEWAY gateway) "ipfs://" = false ->
  startsWith "ipfs://" (default DEFAULT_GATEWAY gateway) = false ->
  startsWith (ipfsToHttp url gateway) "ipfs://" = false.
Proof.
  intros Hg1 Hg2. destruct (startsWith url "ipfs://") eqn:Hurl.
  - apply startsWith_spec in Hurl. destruct Hurl as [rest ->].
    rewrite (ipfsToHttp_rewrites _ gateway rest eq_refl).
    destruct (startsWith (default DEFAULT_GATEWAY gateway ++ rest) "ipfs://") eqn:H;
      [| reflexivity].
    apply startsWith_append_inv in H. destruct H; congruence.
  - unfold ipfsToHttp. now rewrite Hurl.
Qed.

Lemma ipfsToHttp_leaves_scheme_witness :
  startsWith (ipfsToHttp "ipfs://ipfs://x" (Some "https://gateway.pinata.cloud/ipfs/"))
             "ipfs://" = false.
Proof. apply ipfsToHttp_leaves_scheme; reflexivity. Defined.

End MoreArcs.

(** ** The 64-bit integers of the ABI encoder *)

Section Uint64.
Import AbiEncoder.
Local Open Scope Z_scope.

Variable Number_toString : number -> string.

Lemma big_endian_length (n : nat) (v : Z) : List.length (big_endian n v) = n.
Proof. induction n as [| n IH]; cbn [big_endian List.length]; [reflexivity | now rewrite IH]. Qed.

Lemma big_endian_bytes (n : nat) (v : Z) : Forall (fun b => (b < 256)%N) (big_endian n v).
Proof.
  induction n as [| n IH]; cbn [big_endian]; constructor; [| exact IH].
  pose proof (Z.mod_pos_bound (v / 256 ^ Z.of_nat n) 256 ltac:(lia)). lia.
Qed.

Lemma big_endian_fold (n : nat) (v acc : Z) :
  fold_left (fun a b => a * 256 + Z.of_N b) (big_endian n v) acc
  = acc * 256 ^ Z.of_nat n + v mod 256 ^ Z.of_nat n.
Proof.
  revert acc. induction n as [| n IH]; intros acc.
  - cbn [big_endian fold_left]. change (256 ^ Z.of_nat 0) with 1.
    rewrite Z.mod_1_r. lia.
  - cbn [big_endian fold_left]. rewrite IH.
    pose proof (Z.mod_pos_bound (v / 256 ^ Z.of_nat n) 256 ltac:(lia)) as Hb.
    rewrite Z2N.id by lia.
    replace (Z.of_nat (S n)) with (Z.of_nat n + 1) by lia.
    rewrite Z.pow_add_r by lia. change (256 ^ 1) with 256.
    assert (Hp : 0 < 256 ^ Z.of_nat n) by (apply Z.pow_pos_nonneg; lia).
    rewrite (Z.rem_mul_r v (256 ^ Z.of_nat n) 256) by lia.
    ring.
Qed.

Lemma big_endian_value_of (n : nat) (v : Z) :
  big_endian_value (big_endian n v) = v mod 256 ^ Z.of_nat n.
Proof. unfold big_endian_value. rewrite big_endian_fold. lia. Qed.

(** The value of a string of bytes is below [256^length]. *)
Lemma big_endian_value_bound (data : list N) :
  Forall (fun b => (b < 256)%N) data ->
  forall acc, 0 <= acc ->
    acc * 256 ^ Z.of_nat (List.length data)
    <= fold_left (fun a b => a * 256 + Z.of_N b) data acc
    < (acc + 1) * 256 ^ Z.of_nat (List.length data).
Proof.
  induction 1 as [| b data Hb _ IH]; intros acc Hacc.
  - cbn [fold_left List.length]. change (256 ^ Z.of_nat 0) with 1. lia.
  - cbn [fold_left List.length].
    specialize (IH (acc * 256 + Z.of_N b) ltac:(lia)).
    replace (Z.of_nat (S (List.length data))) with (Z.of_nat (List.length data) + 1) by lia.
    rewrite Z.pow_add_r by lia. change (256 ^ 1) with 256.
    assert (Hp : 0 < 256 ^ Z.of_nat (List.length data)) by (apply Z.pow_pos_nonneg; lia).
    nia.
Qed.

(** Writing the value of a byte string back gives the byte string. *)
Lemma big_endian_of_value (data : list N) :
  Forall (fun b => (b < 256)%N) data ->
  forall acc, 0 <= acc ->
    big_endian (List.length data)
      (fold_left (fun a b => a * 256 + Z.of_N b) data acc) = data.
Proof.
  induction 1 as [| b data Hb Hall IH]; intros acc Hacc; [reflexivity |].
  cbn [fold_left List.length big_endian].
  rewrite IH by lia. f_equal.
  pose proof (big_endian_value_bound data Hall (acc * 256 + Z.of_N b) ltac:(lia)) as Hbd.
  set (P := 256 ^ Z.of_nat (List.length data)) in *.
  assert (Hp : 0 < P) by (apply Z.pow_pos_nonneg; lia).
  set (F := fold_left _ data _) in *.
  assert (Hq : F / P = acc * 256 + Z.of_N b).
  { symmetry. apply (Z.div_unique F P _ (F - (acc * 256 + Z.of_N b) * P)); lia. }
  rewrite Hq.
  replace (acc * 256 + Z.of_N b) with (Z.of_N b + acc * 256) by ring.
  rewrite Z.mod_add by lia. rewrite Z.mod_small by lia. apply N2Z.id.
Qed.

(** [encodeUint64] of a bigint never fails and gives the 8 bytes of the
    value modulo [2^64], the most significant first: the first byte is the
    value divided by [2^56], the last one the value modulo 256.
    [decodeUint64] reads that value back: the value itself when it is in
    [[0, 2^64)], and [2^64 - 1] for [-1]. *)
Theorem uint64_roundtrip (z : Z) :
  let v := z mod 2 ^ 64 in
  let data :=
    map (fun shift => Z.to_N (v / 2 ^ shift mod 256)) [56; 48; 40; 32; 24; 16; 8; 0] in
  encodeUint64 Number_toString (Big z) = Returns data /\
  List.length data = 8%nat /\
  Forall (fun b => (b < 256)%N) data /\
  decodeUint64 data = Returns v /\
  (0 <= z < 2 ^ 64 -> decodeUint64 data = Returns z).
Proof.
  intros v data.
  assert (Hdata : data = big_endian 8 v) by reflexivity.
  assert (Hdec : decodeUint64 data = Returns v).
  { rewrite Hdata. unfold decodeUint64. rewrite big_endian_length. cbn [Nat.ltb Nat.leb].
    rewrite firstn_all2 by (rewrite big_endian_length; lia).
    rewrite big_endian_value_of. f_equal.
    change (256 ^ Z.of_nat 8) with (2 ^ 64). unfold v. apply Z.mod_mod. lia. }
  split; [reflexivity |]. split; [reflexivity |].
  split; [rewrite Hdata; apply big_endian_bytes |]. split; [exact Hdec |].
  intros Hz. rewrite Hdec. f_equal. apply Z.mod_small. exact Hz.
Qed.

(** [decodeUint64] fails on fewer than 8 bytes and otherwise reads the
    first 8 only; on bytes, encoding what it read gives those 8 bytes
    back. *)
Theorem decodeUint64_reads_eight (data : list N) :
  ((List.length data < 8)%nat ->
   decodeUint64 data
   = Throws "RangeError: Offset is outside the bounds of the DataView") /\
  ((8 <= List.length data)%nat ->
   Forall (fun b => (b < 256)%N) data ->
   exists v,
     decodeUint64 data = Returns v /\ 0 <= v < 2 ^ 64 /\
     decodeUint64 (take 8 data) = Returns v /\
     encodeUint64 Number_toString (Big v) = Returns (take 8 data)).
Proof.
  unfold decodeUint64. split.
  - intros Hlt. apply Nat.ltb_lt in Hlt. now rewrite Hlt.
  - intros Hge Hall.
    assert (Hlen : List.length (take 8 data) = 8%nat) by (rewrite length_take; lia).
    assert (Hall8 : Forall (fun b => (b < 256)%N) (take 8 data)) by (now apply Forall_take).
    exists (big_endian_value (take 8 data)).
    replace (List.length data <? 8)%nat with false by (symmetry; apply Nat.ltb_ge; lia).
    rewrite Hlen. cbn [Nat.ltb Nat.leb].
    pose proof (big_endian_value_bound _ Hall8 0 ltac:(lia)) as Hb.
    rewrite Hlen in Hb. change (256 ^ Z.of_nat 8) with (2 ^ 64) in Hb.
    fold (big_endian_value (take 8 data)) in Hb.
    split; [reflexivity |]. split; [lia |]. split.
    + now rewrite take_take, Nat.min_id.
    + unfold encodeUint64. cbn [BigInt]. rewrite Z.mod_small by lia.
      f_equal. unfold big_endian_value. rewrite <- Hlen at 1.
      apply big_endian_of_value; [exact Hall8 | lia].
Qed.

(** What [BigInt] makes of a number: the integer it stands for, if it
    stands for one, and the [RangeError] otherwise. *)
Lemma BigInt_of_number_spec (x : number) :
  match BigInt_of_number Number_toString x with
  | Returns v => is_finite x = true /\ Qeq (number_value x) (inject_Z v)
  | Throws message =>
      message = not_an_integer Number_toString x /\
      (is_finite x = false \/ forall v, ~ Qeq (number_value x) (inject_Z v))
  end.
Proof.
  destruct x as [s | s | | s m e]; cbn [BigInt_of_number].
  - split; reflexivity.
  - split; [reflexivity | left; reflexivity].
  - split; [reflexivity | left; reflexivity].
  - cbn [number_value is_finite]. destruct (Z.leb_spec 0 e) as [He | He].
    + split; [reflexivity |]. destruct s; cbn [cond_Zopp]; apply inject_Z_injective; lia.
    + assert (HP : 0 < 2 ^ (- e)) by (apply Z.pow_pos_nonneg; lia).
      assert (HPp : Zpos (Z.to_pos (2 ^ (- e))) = 2 ^ (- e)) by (apply Z2Pos.id; lia).
      destruct (Z.eqb_spec (Zpos m mod 2 ^ (- e)) 0) as [Hdiv | Hndiv].
      * split; [reflexivity |].
        unfold Qeq. cbn [Qnum Qden inject_Z]. rewrite HPp.
        pose proof (Z.div_mod (Zpos m) (2 ^ (- e)) ltac:(lia)) as Hdm.
        rewrite Hdiv in Hdm. destruct s; cbn [cond_Zopp]; lia.
      * split; [reflexivity |].
        right. intros v Hv. unfold Qeq in Hv. cbn [Qnum Qden inject_Z] in Hv.
        rewrite HPp in Hv. apply Hndiv.
        destruct s; cbn [cond_Zopp] in Hv.
        -- replace (Zpos m) with ((- v) * 2 ^ (- e)) by lia. apply Z.mod_mul. lia.
        -- replace (Zpos m) with (v * 2 ^ (- e)) by lia. apply Z.mod_mul. lia.
Qed.

(** [encodeUint64] of a number succeeds exactly when the number is finite
    and an integer, and then gives the bytes of that integer; for [NaN],
    the infinities and the numbers with a fraction it throws the
    [RangeError] of [BigInt]: ['The number ... cannot be converted to a
    BigInt because it is not an integer'], with the number in it. *)
Theorem encodeUint64_number (x : number) :
  ((exists data, encodeUint64 Number_toString (Num x) = Returns data) <->
   is_finite x = true /\ exists v, Qeq (number_value x) (inject_Z v)) /\
  (forall v, is_finite x = true -> Qeq (number_value x) (inject_Z v) ->
     encodeUint64 Number_toString (Num x) = encodeUint64 Number_toString (Big v)) /\
  (is_finite x = false \/ (forall v, ~ Qeq (number_value x) (inject_Z v)) ->
   encodeUint64 Number_toString (Num x)
   = Throws ("RangeError: The number " ++ Number_toString x ++
             " cannot be converted to a BigInt because it is not an integer")%string).
Proof.
  pose proof (BigInt_of_number_spec x) as H.
  unfold encodeUint64. cbn [BigInt].
  destruct (BigInt_of_number Number_toString x) as [w | message].
  - destruct H as [Hfin Hw]. split; [| split].
    + split; [intros _; split; [exact Hfin | now exists w] | intros _; eexists; reflexivity].
    + intros v _ Hv.
      assert (Hwv : w = v) by (apply inject_Z_injective; now rewrite <- Hw, Hv).
      now subst v.
    + intros [Hno | Hno]; [congruence | now apply Hno in Hw].
  - destruct H as [-> H]. split; [| split].
    + split; [intros [data [=]] |]. intros [Hfin [v Hv]].
      destruct H as [H | H]; [congruence | now apply H in Hv].
    + intros v Hfin Hv. destruct H as [H | H]; [congruence | now apply H in Hv].
    + intros _. reflexivity.
Qed.

End Uint64.

(** The value 258: the bytes [0 0 0 0 0 0 1 2], read back as 258. *)
Lemma uint64_roundtrip_witness :
  AbiEncoder.encodeUint64 (fun _ => EmptyString) (AbiEncoder.Big 258)
  = Returns [0; 0; 0; 0; 0; 0; 1; 2]%N /\
  AbiEncoder.decodeUint64 [0; 0; 0; 0; 0; 0; 1; 2]%N = Returns 258%Z.
Proof.
  destruct (uint64_roundtrip (fun _ => EmptyString) 258) as (He & _ & _ & _ & Hd).
  split; [exact He | apply Hd; lia].
Defined.

(** Three bytes are too few; of nine bytes the last is not read. *)
Lemma decodeUint64_reads_eight_witness :
  AbiEncoder.decodeUint64 [1; 2; 3]%N
  = Throws "RangeError: Offset is outside the bounds of the DataView" /\
  exists v, AbiEncoder.decodeUint64 [0; 0; 0; 0; 0; 0; 1; 0; 255]%N = Returns v /\
            AbiEncoder.encodeUint64 (fun _ => EmptyString) (AbiEncoder.Big v)
            = Returns [0; 0; 0; 0; 0; 0; 1; 0]%N.
Proof.
  split.
  - apply (proj1 (decodeUint64_reads_eight (fun _ => EmptyString) [1; 2; 3]%N)).
    cbn [List.length]. lia.
  - destruct (proj2 (decodeUint64_reads_eight (fun _ => EmptyString)
                       [0; 0; 0; 0; 0; 0; 1; 0; 255]%N))
      as (v & Hd & _ & _ & He).
    + cbn [List.length]. lia.
    + repeat constructor.
    + exists v. split; [exact Hd | exact He].
Defined.

(** The number 1000 encodes as the bigint 1000 does, and 1.5 is refused
    with the message of [BigInt(1.5)]. *)
Lemma encodeUint64_number_witness :
  AbiEncoder.encodeUint64 (fun _ => "1.5"%string) (AbiEncoder.Num (num 1000))
  = Returns [0; 0; 0; 0; 0; 0; 3; 232]%N /\
  AbiEncoder.encodeUint64 (fun _ => "1.5"%string)
    (AbiEncoder.Num (S754_finite false 6755399441055744 (-52)))
  = Throws "RangeError: The number 1.5 cannot be converted to a BigInt because it is not an integer".
Proof.
  split.
  - rewrite (proj1 (proj2 (encodeUint64_number (fun _ => "1.5"%string) (num 1000)))
               1000%Z eq_refl); reflexivity.
  - apply (proj2 (proj2 (encodeUint64_number (fun _ => "1.5"%string)
                           (S754_finite false 6755399441055744 (-52))))).
    right. intros v Hv. unfold Qeq in Hv. cbn in Hv. lia.
Defined.

(** ** [formatAlgo] *)

Section FormatAlgo.
Import Formatting.
Local Open Scope Z_scope.

Variable Number_toString : number -> string.

(** The division by 1000000 of a positive integer [p] of [d <= 53] bits:
    the quotient has the mantissa [R] and the exponent [d - 73 + k + c],
    where [k] and [c] are 0 or 1, and is the exact quotient rounded to the
    nearest. *)
Lemma microAlgoToAlgo_rounded (p : positive) :
  let d := Zpos (digits2_pos p) in
  Zpos p < 2 ^ 53 ->
  exists (R : positive) (k c : Z),
    microAlgoToAlgo (num (Zpos p)) = S754_finite false R (d - 73 + k + c) /\
    (k = 0 \/ k = 1) /\ (c = 0 \/ c = 1) /\
    (d = 53 -> Zpos p < 8589934592000000 -> k = 0) /\
    2 ^ 52 <= Zpos R < 2 ^ 53 /\
    2 * Z.abs (Zpos R * 2 ^ c * (2 ^ k * 8589934592000000)
               - Zpos p * 2 ^ (53 - d) * 2 ^ 53)
    <= 2 ^ k * 8589934592000000.
Proof.
  intros d Hp.
  pose proof (digits2_pos_bounds p) as Hpb. fold d in Hpb.
  pose proof (Zdigits2_range (Zpos p) 0 53 ltac:(lia) ltac:(lia)) as Hd.
  cbn [Zdigits2] in Hd. fold d in Hd.
  pose proof (normalized_mantissa p ltac:(lia)) as HM1. fold d in HM1.
  unfold microAlgoToAlgo, number_div.
  rewrite (num_pos p) by lia. rewrite MICROALGOS_PER_ALGO_eq. fold d.
  set (M1 := Z.to_pos (Zpos p * 2 ^ (53 - d))).
  assert (HM1v : Zpos M1 = Zpos p * 2 ^ (53 - d)) by (unfold M1; rewrite Z2Pos.id; lia).
  assert (HM1d : Zpos (digits2_pos M1) = 53).
  { change (Zdigits2 (Zpos M1) = 53). apply Zdigits2_unique; lia. }
  set (q := Zpos M1 * 2 ^ 53 / 8589934592000000).
  assert (Hq : 2 ^ 52 <= q < 2 ^ 54).
  { unfold q. split.
    - apply Z.div_le_lower_bound; lia.
    - apply Z.div_lt_upper_bound; lia. }
  pose proof (Zdigits2_range q 52 54 ltac:(lia) Hq) as Hdq.
  assert (Hk53 : d = 53 -> Zpos p < 8589934592000000 -> Zdigits2 q = 53).
  { intros Hd53 HpB. apply Zdigits2_unique; [| lia].
    split; [change (53 - 1) with 52; lia |].
    unfold q. apply Z.div_lt_upper_bound; [lia |].
    assert (2 ^ (53 - d) = 1) by (rewrite Hd53; reflexivity).
    change (2 ^ 53) with 9007199254740992. nia. }
  destruct (SFdiv_finite_correct false false M1 8589934592000000 (d - 53) (-33)
              (Zdigits2 q - 53)) as (R & c & Hx & Hc & HR & Hdiv);
    try (fold q); try lia; try reflexivity.
  exists R, (Zdigits2 q - 53), c.
  split; [rewrite Hx; f_equal; lia |].
  split; [lia |]. split; [exact Hc |].
  split; [intros H1 H2; rewrite Hk53 by assumption; lia |].
  split; [exact HR |]. rewrite <- HM1v. exact Hdiv.
Qed.

(** Below [2^33 * 10^6] the quotient [R * 2^e] is within half a millionth
    of the exact one, in the form [toFixed] needs it. *)
Lemma microAlgoToAlgo_near (p : positive) :
  Zpos p < 8589934592000000 ->
  exists (R : positive) (e : Z),
    microAlgoToAlgo (num (Zpos p)) = S754_finite false R e /\
    e < 0 /\ Zpos R < 2 ^ 53 /\
    Zpos p * 2 ^ (1 - e) <= 2 * (Zpos R * 10 ^ 6) + 2 ^ (- e)
      < (Zpos p + 1) * 2 ^ (1 - e).
Proof.
  intros Hp.
  pose proof (digits2_pos_bounds p) as Hpb.
  pose proof (Zdigits2_range (Zpos p) 0 53 ltac:(lia) ltac:(lia)) as Hd.
  cbn [Zdigits2] in Hd.
  destruct (microAlgoToAlgo_rounded p ltac:(lia))
    as (R & k & c & Hx & Hk & Hc & Hk0 & HR & Hdiv).
  set (d := Zpos (digits2_pos p)) in *.
  set (U := 2 ^ (53 - d)) in *.
  assert (HU : 1 <= U) by (unfold U; apply (Z.pow_le_mono_r 2 0); lia).
  exists R, (d - 73 + k + c).
  split; [exact Hx |]. split; [lia |]. split; [lia |].
  assert (HT : 2 ^ (- (d - 73 + k + c)) * (2 ^ k * 2 ^ c) = U * 2 ^ 20).
  { unfold U. rewrite <- !Z.pow_add_r by lia. f_equal. lia. }
  replace (1 - (d - 73 + k + c)) with (1 + - (d - 73 + k + c)) by lia.
  rewrite Z.pow_add_r by lia. change (2 ^ 1) with 2.
  set (T := 2 ^ (- (d - 73 + k + c))) in *.
  set (P := Zpos p * U) in *.
  assert (HP1 : U <= P) by (unfold P; nia).
  assert (Hk' : k = 0 \/ (k = 1 /\ 2 <= U)).
  { destruct (Z.eq_dec d 53) as [Hd53 | Hd53]; [left; apply Hk0; lia |].
    assert (2 <= U) by (unfold U; apply (Z.pow_le_mono_r 2 1); lia).
    lia. }
  assert (HmT : Zpos p * T * (2 ^ k * 2 ^ c) = P * 2 ^ 20).
  { unfold P. rewrite <- Z.mul_assoc, HT. ring. }
  change (10 ^ 6) with 1000000. change (2 ^ 20) with 1048576 in *.
  change (2 ^ 53) with 9007199254740992 in *.
  destruct Hk' as [-> | [-> HU2]]; destruct Hc as [-> | ->];
    change (2 ^ 0) with 1 in *; change (2 ^ 1) with 2 in *; lia.
Qed.

Lemma ToIntegerOrInfinity_6 : ToIntegerOrInfinity (num 6) = Some 6.
Proof. reflexivity. Qed.

(** With the default six decimals, [formatAlgo] prints every integer
    amount of microAlgos up to [2^33 * 10^6] exactly: the digits are those
    of the integer, the point six places from the right. The division
    behind it is rounded, but not by enough to change a digit. *)
Theorem formatAlgo_exact (m : Z) :
  0 <= m <= 8589934592000000 ->
  formatAlgo Number_toString (num m) None = Returns (fixed_digits m 6).
Proof.
  intros Hm.
  destruct (Z.eq_dec m 0) as [-> | Hm0]; [reflexivity |].
  destruct (Z.eq_dec m 8589934592000000) as [-> | HmB]; [vm_compute; reflexivity |].
  destruct m as [| p | p]; try lia.
  destruct (microAlgoToAlgo_near p ltac:(lia)) as (R & e & Hx & He & HR & Hn).
  unfold formatAlgo, toFixed. cbv [default from_option id].
  rewrite ToIntegerOrInfinity_6. cbn [Z.ltb Z.compare Pos.compare Pos.compare_cont orb].
  rewrite Hx.
  assert (HP : 0 < 2 ^ (- e)) by (apply Z.pow_pos_nonneg; lia).
  assert (H21 : at_least_1e21 R e = false).
  { unfold at_least_1e21. replace (0 <=? e) with false by (symmetry; apply Z.leb_gt; lia).
    apply Z.leb_gt. change (2 ^ 53) with 9007199254740992 in HR.
    change (10 ^ 21) with 1000000000000000000000. nia. }
  rewrite H21.
  assert (Hnear : nearest_scaled R e 6 = Zpos p).
  { unfold nearest_scaled.
    replace (0 <=? e) with false by (symmetry; apply Z.leb_gt; lia).
    assert (HP1 : 0 < 2 ^ (1 - e)) by (apply Z.pow_pos_nonneg; lia).
    symmetry.
    apply (Z.div_unique _ (2 ^ (1 - e)) (Zpos p)
             (2 * (Zpos R * 10 ^ 6) + 2 ^ (- e) - Zpos p * 2 ^ (1 - e))); lia. }
  rewrite Hnear. reflexivity.
Qed.

End FormatAlgo.

(** One and a half ALGO; and the first amount that is printed wrongly. *)
Lemma formatAlgo_exact_witness :
  Formatting.formatAlgo (fun _ => EmptyString) (num 1500000) None
  = Returns "1.500000"%string /\
  Formatting.formatAlgo (fun _ => EmptyString) (num 8589934592000001) None
  = Returns "8589934592.000002"%string.
Proof.
  split.
  - rewrite (formatAlgo_exact (fun _ => EmptyString) 1500000) by lia. reflexivity.
  - vm_compute. reflexivity.
Defined.

(** ** The amount of ['sendAlgo'] *)

Section SendAlgo.
Import TransactionOps.
Local Open Scope Z_scope.






End SendAlgo.

(** ** The TEAL source check *)

Section TealSource.
Import JSStrings TealUtils.
Local Open Scope string_scope.

Lemma split_lines_cons (s : string) : exists line more, split_lines s = line :: more.
Proof.
  induction s as [| c s (line & more & IH)]; [now exists "", [] |].
  cbn [split_lines]. destruct (Ascii.eqb c LF); [now eexists _, _ |].
  rewrite IH. now eexists _, _.
Qed.

(** The first line is what comes before the first line feed. *)
Lemma split_lines_first (p tail : string) :
  (forall c, In c (list_ascii_of_string p) -> Ascii.eqb c LF = false) ->
  split_lines (p ++ String LF tail) = p :: split_lines tail.
Proof.
  induction p as [| c p IH]; intros Hp.
  - change ("" ++ String LF tail) with (String LF tail). cbn [split_lines].
    now rewrite Ascii.eqb_refl.
  - rewrite append_cons. cbn [split_lines]. rewrite (Hp c) by now left.
    rewrite IH; [reflexivity |]. intros c' Hc'. apply Hp. now right.
Qed.

(** A string without line feed is one line. *)
Lemma split_lines_one (s : string) :
  (forall c, In c (list_ascii_of_string s) -> Ascii.eqb c LF = false) ->
  split_lines s = [s].
Proof.
  induction s as [| c s IH]; intros Hs; [reflexivity |].
  cbn [split_lines]. rewrite (Hs c) by now left.
  rewrite IH; [reflexivity |]. intros c' Hc'. apply Hs. now right.
Qed.

(** [trimEnd] does not cut into what ends with a character that is not
    white space. *)
Lemma trimEnd_keeps (a : string) (c : ascii) (b : string) :
  is_whitespace c = false ->
  exists t, trimEnd (a ++ String c b) = a ++ String c t.
Proof.
  intros Hc. induction a as [| x a (t & IH)].
  - change ("" ++ String c b) with (String c b). cbn [trimEnd]. rewrite Hc.
    destruct (trimEnd b) as [| y t]; eexists; reflexivity.
  - exists t. rewrite append_cons. cbn [trimEnd]. rewrite IH.
    destruct a; reflexivity.
Qed.

Lemma list_ascii_of_append (a b : string) :
  list_ascii_of_string (a ++ b) = (list_ascii_of_string a ++ list_ascii_of_string b)%list.
Proof.
  induction a as [| c a IH]; [reflexivity |].
  rewrite append_cons. cbn [list_ascii_of_string app]. now rewrite IH.
Qed.

(** A source passes the check when its first line begins with
    ["#pragma version"] and a second line follows. *)
Lemma validateTealSource_accepts (rest tail : string) :
  (forall c, In c (list_ascii_of_string rest) -> Ascii.eqb c LF = false) ->
  validateTealSource (("#pragma version" ++ rest) ++ String LF tail)
  = {| valid := true; errors := [] |}.
Proof.
  intros Hrest. unfold validateTealSource.
  rewrite split_lines_first.
  2:{ intros c Hc. rewrite list_ascii_of_append in Hc.
      apply in_app_or in Hc as [Hc | Hc]; [| now apply Hrest].
      cbn in Hc. repeat (destruct Hc as [<- | Hc]; [reflexivity |]). contradiction. }
  cbn [List.find].
  assert (Hstart : startsWith (trim ("#pragma version" ++ rest)) "#pragma version" = true).
  { unfold trim.
    change ("#pragma version" ++ rest) with (String "#" ("pragma version" ++ rest)).
    cbn [trimStart]. change (is_whitespace "#") with false. cbv iota.
    change (String "#" ("pragma version" ++ rest))
      with ("#pragma versio" ++ String "n" rest).
    destruct (trimEnd_keeps "#pragma versio" "n" rest eq_refl) as (t & ->).
    apply startsWith_spec. exists t. reflexivity. }
  rewrite Hstart.
  destruct (split_lines_cons tail) as (line & more & ->).
  reflexivity.
Qed.

Lemma append_assoc (a b c : string) : (a ++ b) ++ c = a ++ (b ++ c).
Proof.
  induction a as [| x a IH]; [reflexivity |].
  rewrite !append_cons. now rewrite IH.
Qed.

(** A string with a line feed, cut at its first line feed. *)
Lemma first_line_feed (a b : string) :
  exists rest tail,
    a ++ String LF b = rest ++ String LF tail /\
    (forall c, In c (list_ascii_of_string rest) -> Ascii.eqb c LF = false).
Proof.
  induction a as [| x a (rest & tail & IH & Hrest)].
  - exists "", b. split; [reflexivity | intros c []].
  - destruct (Ascii.eqb x LF) eqn:Hx.
    + apply Ascii.eqb_eq in Hx. subst x.
      exists "", (a ++ String LF b). split; [reflexivity | intros c []].
    + exists (String x rest), tail. split.
      * rewrite !append_cons. now rewrite IH.
      * intros c [<- | Hc]; [exact Hx | now apply Hrest].
Qed.

Lemma validateTealSource_accepts_any (a b : string) :
  validateTealSource ("#pragma version" ++ a ++ String LF b)
  = {| valid := true; errors := [] |}.
Proof.
  destruct (first_line_feed a b) as (rest & tail & -> & Hrest).
  rewrite <- append_assoc. now apply validateTealSource_accepts.
Qed.

(** [validateTealSource] accepts every source that begins with
    ["#pragma version"] and has a line feed. It rejects every source
    without line feed as too short, whatever its text, and reports both
    errors, in this order, for the empty source. *)
Theorem validateTealSource_cases (source : string) :
  validateTealSource ""
  = {| valid := false;
       errors := ["Missing #pragma version directive"; "TEAL program too short"] |} /\
  ((forall c, In c (list_ascii_of_string source) -> Ascii.eqb c LF = false) ->
   valid (validateTealSource source) = false /\
   In "TEAL program too short" (errors (validateTealSource source))) /\
  (forall a b, source = "#pragma version" ++ a ++ String LF b ->
   validateTealSource source = {| valid := true; errors := [] |}).
Proof.
  split; [reflexivity |]. split.
  - intros Hs. unfold validateTealSource. rewrite (split_lines_one source Hs).
    cbn [List.length Nat.ltb Nat.leb valid errors].
    set (errors1 := if negb _ then _ else _). split.
    + rewrite length_app. cbn [List.length]. rewrite Nat.add_comm. reflexivity.
    + apply in_or_app. right. now left.
  - intros a b ->. apply validateTealSource_accepts_any.
Qed.

(** A pragma line and one instruction; and the pragma line alone. *)
Lemma validateTealSource_cases_witness :
  validateTealSource ("#pragma version" ++ " 10" ++ String LF "int 1")
  = {| valid := true; errors := [] |} /\
  valid (validateTealSource "#pragma version 10") = false.
Proof.
  split.
  - exact (proj2 (proj2 (validateTealSource_cases
                           ("#pragma version" ++ " 10" ++ String LF "int 1")))
             " 10" "int 1" eq_refl).
  - assert (Hone : forall c, In c (list_ascii_of_string "#pragma version 10") ->
                             Ascii.eqb c LF = false).
    { intros c Hc. cbn [list_ascii_of_string In] in Hc.
      repeat (destruct Hc as [<- | Hc]; [reflexivity |]). contradiction. }
    exact (proj1 (proj1 (proj2 (validateTealSource_cases "#pragma version 10")) Hone)).
Defined.

(** The two programs this module generates pass its own check, for every
    version. *)
Theorem generated_programs_validate (Number_toString : number -> string)
    (version : option number) :
  validateTealSource (createSimpleApprovalProgram Number_toString version)
  = {| valid := true; errors := [] |} /\
  validateTealSource (createSimpleClearProgram Number_toString version)
  = {| valid := true; errors := [] |}.
Proof.
  unfold createSimpleApprovalProgram, createSimpleClearProgram.
  set (v := Number_toString (default (num 10) version)).
  split;
    match goal with
    | |- validateTealSource (_ ++ String LF ?T) = _ =>
        replace (("#pragma version " ++ v) ++ String LF T)
          with ("#pragma version" ++ (" " ++ v) ++ String LF T)
          by (rewrite <- !append_assoc; reflexivity)
    end; apply validateTealSource_accepts_any.
Qed.

End TealSource.

(** ** Whole amounts *)

Section WholeAmounts.
Import Spec.
Local Open Scope Z_scope.

(** [Math.round] leaves an integer alone. *)
Lemma Math_round_num (z : Z) : 0 < z < 2 ^ 53 -> Math_round (num z) = num z.
Proof.
  intros Hz. destruct z as [| p | p]; try lia.
  pose proof (digits2_pos_bounds p) as Hpb.
  pose proof (Zdigits2_range (Zpos p) 0 53 ltac:(lia) ltac:(lia)) as Hd.
  cbn [Zdigits2] in Hd.
  pose proof (normalized_mantissa p ltac:(lia)) as HM.
  rewrite (num_pos p) by lia.
  set (d := Zpos (digits2_pos p)) in *.
  unfold Math_round. destruct (Z.leb_spec 0 (d - 53)) as [He | He]; [reflexivity |].
  cbn [cond_Zopp]. rewrite Z2Pos.id by lia.
  replace (- (d - 53) - 1) with (52 - d) by lia.
  replace (- (d - 53)) with (53 - d) by lia.
  assert (H2 : 2 ^ (53 - d) = 2 * 2 ^ (52 - d)).
  { rewrite <- Z.pow_succ_r by lia. f_equal. lia. }
  assert (Hh : 0 < 2 ^ (52 - d)) by (apply Z.pow_pos_nonneg; lia).
  replace ((Zpos p * 2 ^ (53 - d) + 2 ^ (52 - d)) / 2 ^ (53 - d)) with (Zpos p).
  - fold (num (Zpos p)). apply (num_pos p). fold d. lia.
  - apply (Z.div_unique _ (2 ^ (53 - d)) (Zpos p) (2 ^ (52 - d))); lia.
Qed.

(** The division of a whole number of ALGO, in microAlgos, is exact. *)
Lemma microAlgoToAlgo_whole (a : positive) :
  Zpos a * 1000000 < 2 ^ 53 ->
  microAlgoToAlgo (num (Zpos a * 1000000)) = num (Zpos a).
Proof.
  intros Ha.
  change (Zpos a * 1000000) with (Zpos (a * 1000000)) in *.
  set (p := (a * 1000000)%positive) in *.
  assert (Hpa : Zpos p = Zpos a * 1000000) by reflexivity.
  pose proof (digits2_pos_bounds p) as Hpb.
  pose proof (Zdigits2_range (Zpos p) 0 53 ltac:(lia) ltac:(lia)) as Hd.
  cbn [Zdigits2] in Hd.
  destruct (microAlgoToAlgo_rounded p Ha)
    as (R & k & c & Hx & Hk & Hc & _ & HR & Hdiv).
  set (d := Zpos (digits2_pos p)) in *.
  rewrite Hx. clear Hx.
  set (U := 2 ^ (53 - d)) in *.
  assert (HU : 1 <= U) by (unfold U; apply (Z.pow_le_mono_r 2 0); lia).
  (* the rounded mantissa is the exact quotient *)
  assert (HRa : Zpos R * (2 ^ k * 2 ^ c) = Zpos a * U * 2 ^ 20).
  { rewrite Hpa in Hdiv.
    change (2 ^ 53) with 9007199254740992 in Hdiv. change (2 ^ 20) with 1048576.
    destruct Hk as [-> | ->]; destruct Hc as [-> | ->];
      change (2 ^ 0) with 1 in *; change (2 ^ 1) with 2 in *; lia. }
  assert (HU20 : U * 2 ^ 20 = 2 ^ (73 - d)).
  { unfold U. rewrite <- Z.pow_add_r by lia. f_equal. lia. }
  assert (HW : 2 ^ k * 2 ^ c = 2 ^ (k + c)) by (rewrite Z.pow_add_r by lia; reflexivity).
  rewrite <- Z.mul_assoc, HU20, HW in HRa.
  (* the number of bits of [a] *)
  assert (Hsplit : 2 ^ (73 - d) = 2 ^ (73 - d - k - c) * 2 ^ (k + c)).
  { rewrite <- Z.pow_add_r by lia. f_equal. lia. }
  assert (HWpos : 0 < 2 ^ (k + c)) by (apply Z.pow_pos_nonneg; lia).
  assert (HRv : Zpos R = Zpos a * 2 ^ (73 - d - k - c)).
  { rewrite Hsplit in HRa. nia. }
  assert (HJ : 0 < 2 ^ (73 - d - k - c)) by (apply Z.pow_pos_nonneg; lia).
  assert (Hda : Zdigits2 (Zpos a) = d + k + c - 20).
  { apply Zdigits2_unique; [| lia].
    assert (E52 : 2 ^ 52 = 2 ^ (d + k + c - 20 - 1) * 2 ^ (73 - d - k - c)).
    { rewrite <- Z.pow_add_r; [f_equal; lia | | lia].
      destruct (Z_lt_le_dec (d + k + c - 20 - 1) 0) as [Hneg |]; [| assumption].
      exfalso.
      assert (2 ^ 53 <= 2 ^ (73 - d - k - c)) by (apply Z.pow_le_mono_r; lia).
      nia. }
    assert (Hnn : 0 <= d + k + c - 20 - 1).
    { destruct (Z_lt_le_dec (d + k + c - 20 - 1) 0) as [Hneg |]; [| assumption].
      rewrite (Z.pow_neg_r 2 _ Hneg) in E52. lia. }
    assert (E53 : 2 ^ 53 = 2 ^ (d + k + c - 20) * 2 ^ (73 - d - k - c)).
    { rewrite <- Z.pow_add_r by lia. f_equal. lia. }
    rewrite E52, E53, HRv in HR. nia. }
  cbn [Zdigits2] in Hda.
  rewrite (num_pos a) by lia. rewrite Hda.
  f_equal; [| lia].
  replace (53 - (d + k + c - 20)) with (73 - d - k - c) by lia.
  rewrite <- HRv. now rewrite Pos2Z.id.
Qed.

(** Whole numbers of ALGO are converted exactly, in both directions: [a]
    ALGO are [a * 1000000] microAlgos, and back. *)
Theorem whole_algo_exact (a : Z) :
  0 <= a -> a * 1000000 < 2 ^ 53 ->
  algoToMicroAlgo (num a) = num (a * 1000000) /\
  microAlgoToAlgo (num (a * 1000000)) = num a /\
  microAlgoToAlgo (algoToMicroAlgo (num a)) = num a.
Proof.
  intros Ha Hb.
  destruct a as [| p | p]; [repeat split; reflexivity | | lia].
  assert (H1 : algoToMicroAlgo (num (Zpos p)) = num (Zpos p * 1000000)).
  { unfold algoToMicroAlgo, MICROALGOS_PER_ALGO.
    rewrite number_mul_exact by lia. apply Math_round_num. lia. }
  pose proof (microAlgoToAlgo_whole p Hb) as H2.
  split; [exact H1 |]. split; [exact H2 |]. now rewrite H1.
Qed.

Lemma whole_algo_exact_witness :
  microAlgoToAlgo (algoToMicroAlgo (num 5)) = num 5.
Proof. apply (whole_algo_exact 5); [lia | reflexivity]. Defined.

(** [calculateMinBalance] never goes below the base reserve and does not
    decrease when a count grows, for integer counts that are not negative
    and a sum within the safe integers. *)
Theorem calculateMinBalance_monotone
    (assets apps uints byteSlices boxes boxBytes : option Z)
    (assets' apps' uints' byteSlices' boxes' boxBytes' : option Z) :
  0 <= count_of assets <= count_of assets' ->
  0 <= count_of apps <= count_of apps' ->
  0 <= count_of uints <= count_of uints' ->
  0 <= count_of byteSlices <= count_of byteSlices' ->
  0 <= count_of boxes <= count_of boxes' ->
  0 <= count_of boxBytes <= count_of boxBytes' ->
  min_balance_formula assets' apps' uints' byteSlices' boxes' boxBytes'
    <= MAX_SAFE_INTEGER ->
  Qle (inject_Z 100000)
      (number_value
         (calculateMinBalance
            (Some (params_of_counts assets apps uints byteSlices boxes boxBytes)))) /\
  Qle (number_value
         (calculateMinBalance
            (Some (params_of_counts assets apps uints byteSlices boxes boxBytes))))
      (number_value
         (calculateMinBalance
            (Some (params_of_counts assets' apps' uints' byteSlices' boxes' boxBytes')))).
Proof.
  intros H1 H2 H3 H4 H5 H6 Hmax.
  unfold min_balance_formula, MAX_SAFE_INTEGER in Hmax.
  rewrite !calculateMinBalance_counts
    by (unfold min_balance_formula, MAX_SAFE_INTEGER; lia).
  rewrite !number_value_num
    by (unfold min_balance_formula; change (2 ^ 53) with 9007199254740992; lia).
  unfold min_balance_formula. rewrite <- !Zle_Qle. lia.
Qed.

(** One more asset: from 0.6 to 0.7 ALGO. *)
Lemma calculateMinBalance_monotone_witness :
  Qle (number_value
         (calculateMinBalance
            (Some (params_of_counts (Some 5) None None None None None))))
      (number_value
         (calculateMinBalance
            (Some (params_of_counts (Some 6) None None None None None)))).
Proof.
  apply (calculateMinBalance_monotone (Some 5) None None None None None
           (Some 6) None None None None None);
    cbv [count_of default from_option id min_balance_formula MAX_SAFE_INTEGER]; lia.
Defined.

End WholeAmounts.

(** ** The signing account *)

Section Signing.
Import JSStrings SigningAccount.
Local Open Scope string_scope.







Variable Account : Type.
Variable mnemonicToSecretKey : string -> outcome Account.


End Signing.

